(** * safe-npm: the install action of [src/cli.ts] and the resolver it drives

    The command-line layer of safe-npm ([src/cli.ts]) is embedded function by
    function: [parsePackageSpec], [collectFromArgs], [collectFromPackageJson],
    [buildIgnoreSet], [normalizePackageManager], [detectCliDefaults], the
    install action with its resolution loop and its report, the handler of
    its rejections, and [runStrategy]. JavaScript strings are
    [string]s (sequences of code units, each held in a byte), a [Map] is an association list in
    insertion order with one entry per key, a [Set] queried only through
    [has] is a [gset], and the objects read from package.json are JSON trees.
    The process (console, package.json, child processes, exit codes and
    rejections) is a small state-and-exit monad; reading package.json may
    throw, as [JSON.parse] does on a file that is no JSON.

    The resolver the action calls, [resolveSafeVersion] of [src/resolver.ts],
    is not among the sources. The properties of the loop hold for any
    resolver; the properties of resolution itself are stated on a resolver
    that follows the specification, with models of semver precedence and
    ranges and of ISO 8601 timestamps. The fixtures of the integration tests
    ([createPackage], [isoDaysAgo]) are embedded from the test file. *)

From Stdlib Require Import ZArith Ascii String List Lia Bool DecimalString Sorted.
From stdpp Require Import base option list strings gmap.

Local Open Scope Z_scope.

(** ** JavaScript string primitives used by the command line *)

Module JsString.

(** [s.indexOf(c)], [None] standing for [-1]. *)
Fixpoint indexOf (c : ascii) (s : string) : option nat :=
  match s with
  | EmptyString => None
  | String x rest =>
      if Ascii.eqb x c then Some 0%nat
      else option_map S (indexOf c rest)
  end.

(** [s.slice(start)] *)
Fixpoint sliceFrom (start : nat) (s : string) : string :=
  match start, s with
  | O, _ => s
  | S n, EmptyString => EmptyString
  | S n, String _ rest => sliceFrom n rest
  end.

(** [s.slice(0, stop)] *)
Fixpoint sliceTo (stop : nat) (s : string) : string :=
  match stop, s with
  | O, _ => EmptyString
  | S n, EmptyString => EmptyString
  | S n, String x rest => String x (sliceTo n rest)
  end.

(** [s.indexOf(c, from)] *)
Definition indexOfFrom (c : ascii) (from : nat) (s : string) : option nat :=
  option_map (Nat.add from) (indexOf c (sliceFrom from s)).

(** [s.lastIndexOf(c)] *)
Fixpoint lastIndexOf (c : ascii) (s : string) : option nat :=
  match s with
  | EmptyString => None
  | String x rest =>
      match lastIndexOf c rest with
      | Some i => Some (S i)
      | None => if Ascii.eqb x c then Some 0%nat else None
      end
  end.

(** [s.startsWith(c)] for a one-character prefix. *)
Definition startsWith (c : ascii) (s : string) : bool :=
  match s with
  | String x _ => Ascii.eqb x c
  | EmptyString => false
  end.

(** Truthiness of a string: only the empty string is falsy. *)
Definition truthy (s : string) : bool :=
  match s with EmptyString => false | _ => true end.

(** [a || b] on strings. *)
Definition orElse (a b : string) : string := if truthy a then a else b.

(** Code units removed by [trim] that fit in one byte. *)
Definition isWhiteSpace (c : ascii) : bool :=
  match c with
  | "009" | "010" | "011" | "012" | "013" | " " | "160" => true
  | _ => false
  end%char.

Fixpoint trimStart (s : string) : string :=
  match s with
  | String x rest => if isWhiteSpace x then trimStart rest else s
  | EmptyString => EmptyString
  end.

Fixpoint trimEnd (s : string) : string :=
  match s with
  | EmptyString => EmptyString
  | String x rest =>
      match trimEnd rest with
      | EmptyString => if isWhiteSpace x then EmptyString else String x EmptyString
      | r => String x r
      end
  end.

(** [s.trim()] *)
Definition trim (s : string) : string := trimEnd (trimStart s).

(** [s.split(sep)] for a one-character separator: always at least one piece. *)
Fixpoint split (sep : ascii) (s : string) : list string :=
  match s with
  | EmptyString => [EmptyString]
  | String x rest =>
      if Ascii.eqb x sep then EmptyString :: split sep rest
      else match split sep rest with
           | piece :: pieces => String x piece :: pieces
           | [] => [String x EmptyString]
           end
  end.

(** Occurrence of a code unit in a string. *)
Fixpoint contains (c : ascii) (s : string) : bool :=
  match s with
  | EmptyString => false
  | String x rest => Ascii.eqb x c || contains c rest
  end.

End JsString.

(** ** Package specs given on the command line *)

(** What a JavaScript call does: it returns a value or throws. A thrown value
    is an [Error] instance carrying a message, or anything else. *)
Inductive Thrown : Type :=
  | ErrorInstance (message : string)
  | NonError.

Inductive Completion (A : Type) : Type :=
  | Returns (value : A)
  | Throws (thrown : Thrown).
Arguments Returns {A} value.
Arguments Throws {A} thrown.

Record PackageSpec : Type := mkSpec { spec_name : string; spec_range : string }.

(** [parsePackageSpec] of cli.ts. *)
Definition parsePackageSpec (spec : string) : Completion PackageSpec :=
  if negb (JsString.truthy spec) then
    Throws (ErrorInstance "Empty package spec provided")
  else if JsString.startsWith "@" spec then
    match JsString.indexOfFrom "@" 1 spec with
    | None => Returns (mkSpec spec "latest")
    | Some atIndex =>
        Returns (mkSpec (JsString.sliceTo atIndex spec)
                        (JsString.orElse (JsString.sliceFrom (atIndex + 1) spec) "latest"))
    end
  else
    match JsString.lastIndexOf "@" spec with
    | Some (S lastAt') =>
        let lastAt := S lastAt' in
        Returns (mkSpec (JsString.sliceTo lastAt spec)
                        (JsString.orElse (JsString.sliceFrom (lastAt + 1) spec) "latest"))
    | _ => Returns (mkSpec spec "latest")
    end.

(** ** Semantic versions

    The resolver orders and filters version strings with the semver package,
    which is not part of this repository. The model below follows the
    semver 2.0 grammar and the range desugaring of node-semver in its strict
    mode: [x]-ranges, caret and tilde ranges, hyphen ranges, comparator sets
    joined by white space and alternatives joined by [||]. Length limits and
    the bound on numeric identifiers are left out. *)

Module Semver.

Inductive Identifier : Type :=
  | NumericId (n : N)
  | AlphaId (s : string).

Record SemVer : Type := mkSemVer {
  major : N;
  minor : N;
  patch : N;
  prerelease : list Identifier
}.

Definition isDigit (c : ascii) : bool :=
  let n := N_of_ascii c in ((48 <=? n) && (n <=? 57))%N.

Definition isIdentChar (c : ascii) : bool :=
  let n := N_of_ascii c in
  (isDigit c || ((65 <=? n) && (n <=? 90)) || ((97 <=? n) && (n <=? 122))
   || (n =? 45))%N.

Fixpoint allChars (p : ascii -> bool) (s : string) : bool :=
  match s with
  | EmptyString => true
  | String c rest => p c && allChars p rest
  end.

Fixpoint digitsValue (s : string) (acc : N) : N :=
  match s with
  | EmptyString => acc
  | String c rest => digitsValue rest (acc * 10 + (N_of_ascii c - 48))%N
  end.

(** [0|[1-9]\d*] *)
Definition numericIdentifier (s : string) : option N :=
  match s with
  | EmptyString => None
  | String c rest =>
      if negb (allChars isDigit s) then None
      else if Ascii.eqb c "0" && JsString.truthy rest then None
      else Some (digitsValue s 0%N)
  end.

(** One dot-separated identifier of a pre-release tag. *)
Definition prereleaseIdentifier (s : string) : option Identifier :=
  if negb (JsString.truthy s) then None
  else if allChars isDigit s then NumericId <$> numericIdentifier s
  else if allChars isIdentChar s then Some (AlphaId s)
  else None.

Definition buildIdentifier (s : string) : bool :=
  JsString.truthy s && allChars isIdentChar s.

(** Cut a string at the first occurrence of a code unit. *)
Definition cutAt (c : ascii) (s : string) : string * option string :=
  match JsString.indexOf c s with
  | None => (s, None)
  | Some i => (JsString.sliceTo i s, Some (JsString.sliceFrom (S i) s))
  end.

Definition parsePrerelease (tag : option string) : option (list Identifier) :=
  match tag with
  | None => Some []
  | Some t => mapM prereleaseIdentifier (JsString.split "." t)
  end.

Definition buildOk (tag : option string) : bool :=
  match tag with
  | None => true
  | Some t => forallb buildIdentifier (JsString.split "." t)
  end.

(** The bounds of the semver package: a version string of more than
    [MAX_LENGTH] characters is refused, and so is a major, minor or patch
    number above [MAX_SAFE_INTEGER]. *)
Definition MAX_LENGTH : nat := 256.
Definition MAX_SAFE_INTEGER : N := 9007199254740991.

(** [new SemVer(version)], [None] when the constructor throws: the string
    is trimmed and may start with [v]; then come [major.minor.patch], an
    optional [-prerelease] and an optional [+build], which takes no part in
    precedence. *)
Definition parse (version : string) : option SemVer :=
  if (MAX_LENGTH <? String.length version)%nat then None
  else
    let trimmed := JsString.trim version in
    let plain := match trimmed with String "v" rest => rest | _ => trimmed end in
    let '(rest, build) := cutAt "+" plain in
    let '(core, tag) := cutAt "-" rest in
    if negb (buildOk build) then None
    else match JsString.split "." core with
         | [a; b; c] =>
             M ← numericIdentifier a;
             m ← numericIdentifier b;
             p ← numericIdentifier c;
             pre ← parsePrerelease tag;
             if ((M <=? MAX_SAFE_INTEGER) && (m <=? MAX_SAFE_INTEGER)
                 && (p <=? MAX_SAFE_INTEGER))%N
             then Some (mkSemVer M m p pre) else None
         | _ => None
         end.

(** The numbers of a pre-release tag that the package holds as numbers. It
    compares the others through floating point, where the model compares
    them exactly. *)
Definition exactIdentifier (id : Identifier) : bool :=
  match id with
  | NumericId n => (n <? MAX_SAFE_INTEGER)%N
  | AlphaId _ => true
  end.

(** The version strings that the package accepts and orders exactly as
    [compare] does. *)
Definition exact (version : string) : bool :=
  match parse version with
  | Some v => forallb exactIdentifier (prerelease v)
  | None => false
  end.

(** *** Precedence *)

Definition compareIdentifiers (a b : Identifier) : comparison :=
  match a, b with
  | NumericId x, NumericId y => (x ?= y)%N
  | NumericId _, AlphaId _ => Lt
  | AlphaId _, NumericId _ => Gt
  | AlphaId x, AlphaId y => String.compare x y
  end.

Fixpoint compareIdentifierLists (a b : list Identifier) : comparison :=
  match a, b with
  | [], [] => Eq
  | [], _ :: _ => Lt
  | _ :: _, [] => Gt
  | x :: a', y :: b' =>
      match compareIdentifiers x y with
      | Eq => compareIdentifierLists a' b'
      | c => c
      end
  end.

(** A version without a pre-release tag is higher than one with a tag. *)
Definition comparePre (a b : list Identifier) : comparison :=
  match a, b with
  | [], [] => Eq
  | [], _ :: _ => Gt
  | _ :: _, [] => Lt
  | _, _ => compareIdentifierLists a b
  end.

Definition compareMain (a b : SemVer) : comparison :=
  match (major a ?= major b)%N with
  | Eq => match (minor a ?= minor b)%N with
          | Eq => (patch a ?= patch b)%N
          | c => c
          end
  | c => c
  end.

Definition compare (a b : SemVer) : comparison :=
  match compareMain a b with
  | Eq => comparePre (prerelease a) (prerelease b)
  | c => c
  end.

(** Precedence of version strings: a string that is no version sorts below
    every version. *)
Definition compareKeys (a b : option SemVer) : comparison :=
  match a, b with
  | Some x, Some y => compare x y
  | None, Some _ => Lt
  | Some _, None => Gt
  | None, None => Eq
  end.

(** Modelled from the spec: the semver ordering of step 5 of the missing
    resolver, on version strings. *)
Definition compareVersions (a b : string) : comparison :=
  compareKeys (parse a) (parse b).

(** [semver.rcompare] *)
Definition rcompare (a b : string) : comparison := compareVersions b a.

(** *** Ranges *)

Inductive Operator : Type := OpLt | OpLe | OpGt | OpGe | OpEq.

Record Comparator : Type := mkComparator { op : Operator; operand : SemVer }.

(** A comparator set is a conjunction (the empty set accepts every release);
    a range is a disjunction of comparator sets. *)
Definition ComparatorSet : Type := list Comparator.
Definition Range : Type := list ComparatorSet.

(** A possibly partial version [M], [M.m], [M.m.p], where [x], [X] and [*]
    stand for a missing part. *)
Record Partial : Type := mkPartial {
  pMajor : option N;
  pMinor : option N;
  pPatch : option N;
  pPre : list Identifier
}.

Definition isX (s : string) : bool :=
  (String.eqb s "x" || String.eqb s "X" || String.eqb s "*")%bool.

Definition xr (s : string) : option (option N) :=
  if isX s then Some None else Some <$> numericIdentifier s.

Definition parsePartial (s : string) : option Partial :=
  let '(rest, build) := cutAt "+" s in
  let '(core, tag) := cutAt "-" rest in
  if negb (buildOk build) then None
  else match JsString.split "." core with
       | [a] =>
           M ← xr a;
           if tag is Some _ then None else Some (mkPartial M None None [])
       | [a; b] =>
           M ← xr a; m ← xr b;
           if tag is Some _ then None else Some (mkPartial M m None [])
       | [a; b; c] =>
           M ← xr a; m ← xr b; p ← xr c;
           pre ← parsePrerelease tag;
           Some (mkPartial M m p pre)
       | _ => None
       end.

Definition release (M m p : N) : SemVer := mkSemVer M m p [].
(** [M.m.p-0], below every other version with the same three numbers. *)
Definition lowest (M m p : N) : SemVer := mkSemVer M m p [NumericId 0].

Definition ge (v : SemVer) : Comparator := mkComparator OpGe v.
Definition lt (v : SemVer) : Comparator := mkComparator OpLt v.

(** [^partial] *)
Definition caret (pt : Partial) : ComparatorSet :=
  match pMajor pt, pMinor pt, pPatch pt with
  | None, _, _ => []
  | Some M, None, _ => [ge (release M 0 0); lt (lowest (M + 1) 0 0)]
  | Some M, Some m, None =>
      if (M =? 0)%N then [ge (release M m 0); lt (lowest M (m + 1) 0)]
      else [ge (release M m 0); lt (lowest (M + 1) 0 0)]
  | Some M, Some m, Some p =>
      let from := ge (mkSemVer M m p (pPre pt)) in
      if (M =? 0)%N then
        if (m =? 0)%N then [from; lt (lowest M m (p + 1))]
        else [from; lt (lowest M (m + 1) 0)]
      else [from; lt (lowest (M + 1) 0 0)]
  end.

(** [~partial] *)
Definition tilde (pt : Partial) : ComparatorSet :=
  match pMajor pt, pMinor pt, pPatch pt with
  | None, _, _ => []
  | Some M, None, _ => [ge (release M 0 0); lt (lowest (M + 1) 0 0)]
  | Some M, Some m, None => [ge (release M m 0); lt (lowest M (m + 1) 0)]
  | Some M, Some m, Some p =>
      [ge (mkSemVer M m p (pPre pt)); lt (lowest M (m + 1) 0)]
  end.

(** A partial with an optional comparison operator in front. *)
Definition xRange (o : option Operator) (pt : Partial) : ComparatorSet :=
  match pMajor pt with
  | None =>
      match o with
      | Some OpGt | Some OpLt => [lt (lowest 0 0 0)]
      | _ => []
      end
  | Some M =>
      match pMinor pt, pPatch pt with
      | Some m, Some p =>
          [mkComparator (default OpEq o) (mkSemVer M m p (pPre pt))]
      | om, _ =>
          let m := default 0%N om in
          match o with
          | None | Some OpEq =>
              if om is Some _ then [ge (release M m 0); lt (lowest M (m + 1) 0)]
              else [ge (release M 0 0); lt (lowest (M + 1) 0 0)]
          | Some OpGt =>
              if om is Some _ then [ge (release M (m + 1) 0)]
              else [ge (release (M + 1) 0 0)]
          | Some OpLe =>
              if om is Some _ then [lt (lowest M (m + 1) 0)]
              else [lt (lowest (M + 1) 0 0)]
          | Some OpLt => [lt (lowest M m 0)]
          | Some OpGe => [ge (release M m 0)]
          end
      end
  end.

(** [from - to] *)
Definition hyphen (from to : Partial) : ComparatorSet :=
  (match pMajor from, pMinor from, pPatch from with
   | None, _, _ => []
   | Some M, None, _ => [ge (release M 0 0)]
   | Some M, Some m, None => [ge (release M m 0)]
   | Some M, Some m, Some p => [ge (mkSemVer M m p (pPre from))]
   end) ++
  (match pMajor to, pMinor to, pPatch to with
   | None, _, _ => []
   | Some M, None, _ => [lt (lowest (M + 1) 0 0)]
   | Some M, Some m, None => [lt (lowest M (m + 1) 0)]
   | Some M, Some m, Some p => [mkComparator OpLe (mkSemVer M m p (pPre to))]
   end).

(** One white-space separated token of a comparator set. *)
Definition parseSimple (token : string) : option ComparatorSet :=
  match token with
  | String "^" rest => caret <$> parsePartial rest
  | String "~" (String ">" rest) => tilde <$> parsePartial rest
  | String "~" rest => tilde <$> parsePartial rest
  | String ">" (String "=" rest) => xRange (Some OpGe) <$> parsePartial rest
  | String "<" (String "=" rest) => xRange (Some OpLe) <$> parsePartial rest
  | String ">" rest => xRange (Some OpGt) <$> parsePartial rest
  | String "<" rest => xRange (Some OpLt) <$> parsePartial rest
  | String "=" rest => xRange (Some OpEq) <$> parsePartial rest
  | _ => xRange None <$> parsePartial token
  end%char.

(** Split at every white-space code unit, then drop the empty pieces. *)
Fixpoint tokens (s : string) : list string :=
  match s with
  | EmptyString => [EmptyString]
  | String c rest =>
      if JsString.isWhiteSpace c then EmptyString :: tokens rest
      else
        match tokens rest with
        | t :: ts => String c t :: ts
        | [] => [String c EmptyString]
        end
  end.

Definition words (s : string) : list string :=
  List.filter JsString.truthy (tokens s).

(** Split at every [||]. *)
Fixpoint alternatives (s : string) : list string :=
  match s with
  | EmptyString => [EmptyString]
  | String "|" (String "|" rest) => EmptyString :: alternatives rest
  | String c rest =>
      match alternatives rest with
      | piece :: pieces => String c piece :: pieces
      | [] => [String c EmptyString]
      end
  end%char.

(** One alternative: a hyphen range or a sequence of simple ranges. *)
Definition parseComparatorSet (s : string) : option ComparatorSet :=
  match words s with
  | [from; String "-" EmptyString; to] =>
      f ← parsePartial from; t ← parsePartial to; Some (hyphen f t)
  | ws => (fun sets => List.concat sets) <$> mapM parseSimple ws
  end%char.

Definition parseRange (range : string) : option Range :=
  mapM parseComparatorSet (alternatives range).

Definition testComparator (c : Comparator) (v : SemVer) : bool :=
  match op c, compare v (operand c) with
  | OpLt, Lt => true
  | OpLe, (Lt | Eq) => true
  | OpGt, Gt => true
  | OpGe, (Gt | Eq) => true
  | OpEq, Eq => true
  | _, _ => false
  end.

Definition sameTuple (a b : SemVer) : bool :=
  ((major a =? major b) && (minor a =? minor b) && (patch a =? patch b))%N.

Definition hasPrerelease (v : SemVer) : bool :=
  match prerelease v with [] => false | _ => true end.

(** A version with a pre-release tag passes a comparator set only when some
    comparator of the set carries a tag on the same [major.minor.patch]. *)
Definition testSet (set : ComparatorSet) (v : SemVer) : bool :=
  forallb (fun c => testComparator c v) set
  && (negb (hasPrerelease v)
      || existsb (fun c => hasPrerelease (operand c) && sameTuple (operand c) v) set).

(** Modelled from the spec: the range test of step 3 of the missing resolver,
    [semver.satisfies] with the standard range semantics; false for a string
    that is no version and for a range that does not parse. *)
Definition satisfies (version range : string) : bool :=
  match parse version, parseRange range with
  | Some v, Some r => existsb (fun set => testSet set v) r
  | _, _ => false
  end.

End Semver.

(** ** Dates

    A [Date] holds a time value in milliseconds since the epoch, or is
    invalid. *)

Module JsDate.

Inductive Date : Type :=
  | DateAt (ms : Z)
  | InvalidDate.

Definition DAY_IN_MS : Z := 24 * 60 * 60 * 1000.

(** [new Date(t)] for an integral [t]: the time value is kept when it lies
    within 100 000 000 days of the epoch. *)
Definition newDate (t : Z) : Date :=
  if Z.abs t <=? 100000000 * DAY_IN_MS then DateAt t else InvalidDate.

(** Days since the epoch of a proleptic Gregorian calendar date. *)
Definition daysFromCivil (y m d : Z) : Z :=
  let y' := if m <=? 2 then y - 1 else y in
  let era := y' / 400 in
  let yoe := y' - era * 400 in
  let mp := (m + 9) mod 12 in
  let doy := (153 * mp + 2) / 5 + d - 1 in
  let doe := yoe * 365 + yoe / 4 - yoe / 100 + doy in
  era * 146097 + doe - 719468.

(** The calendar date of a day number. *)
Definition civilFromDays (days : Z) : Z * Z * Z :=
  let z := days + 719468 in
  let era := z / 146097 in
  let doe := z - era * 146097 in
  let yoe := (doe - doe / 1460 + doe / 36524 - doe / 146096) / 365 in
  let doy := doe - (365 * yoe + yoe / 4 - yoe / 100) in
  let mp := (5 * doy + 2) / 153 in
  let d := doy - (153 * mp + 2) / 5 + 1 in
  let m := if mp <? 10 then mp + 3 else mp - 9 in
  let y := yoe + era * 400 in
  (if m <=? 2 then y + 1 else y, m, d).

Definition isLeapYear (y : Z) : bool :=
  ((y mod 4 =? 0) && negb (y mod 100 =? 0)) || (y mod 400 =? 0).

Definition daysInMonth (y m : Z) : Z :=
  if m =? 2 then (if isLeapYear y then 29 else 28)
  else if (m =? 4) || (m =? 6) || (m =? 9) || (m =? 11) then 30
  else 31.

Definition digitChar (d : Z) : ascii := ascii_of_N (Z.to_N (48 + d mod 10)).

(** The last [width] decimal digits of [n]. *)
Fixpoint padDigits (width : nat) (n : Z) : string :=
  match width with
  | O => EmptyString
  | S w => padDigits w (n / 10) +:+ String (digitChar n) EmptyString
  end.

Definition yearString (y : Z) : string :=
  if (0 <=? y) && (y <=? 9999) then padDigits 4 y
  else (if y <? 0 then "-" else "+") +:+ padDigits 6 (Z.abs y).

(** [date.toISOString()] of a valid date. *)
Definition toISOString (t : Z) : string :=
  let day := t / DAY_IN_MS in
  let rest := t mod DAY_IN_MS in
  let '(y, m, d) := civilFromDays day in
  yearString y +:+ "-" +:+ padDigits 2 m +:+ "-" +:+ padDigits 2 d +:+ "T"
  +:+ padDigits 2 (rest / 3600000) +:+ ":" +:+ padDigits 2 (rest / 60000 mod 60)
  +:+ ":" +:+ padDigits 2 (rest / 1000 mod 60) +:+ "." +:+ padDigits 3 (rest mod 1000)
  +:+ "Z".

Fixpoint digitsZ (cs : list ascii) (acc : Z) : option Z :=
  match cs with
  | [] => Some acc
  | c :: rest =>
      if Semver.isDigit c then digitsZ rest (acc * 10 + (Z.of_N (N_of_ascii c) - 48))
      else None
  end.

Definition charIs (c : ascii) (expected : ascii) : bool := Ascii.eqb c expected.

(** Assemble a time value from its fields, refusing fields out of range. *)
Definition makeTime (y m d h mi sec ms : Z) : option Z :=
  if (1 <=? m) && (m <=? 12) && (1 <=? d) && (d <=? daysInMonth y m)
     && (h <=? 23) && (mi <=? 59) && (sec <=? 59)
  then Some ((((daysFromCivil y m d * 24 + h) * 60 + mi) * 60 + sec) * 1000 + ms)
  else None.

(** Modelled from the spec: the parsing of a [publishTimes] entry in step 4
    of the missing resolver. The time value of a timestamp in the UTC form of
    ISO 8601 that the registry stores and [toISOString] prints,
    [YYYY-MM-DDTHH:mm:ss.sssZ], the fraction being optional. Any other text
    has no time value. *)
Definition parseTimestamp (s : string) : option Z :=
  match list_ascii_of_string s with
  | y1 :: y2 :: y3 :: y4 :: c1 :: m1 :: m2 :: c2 :: d1 :: d2 :: c3
    :: h1 :: h2 :: c4 :: i1 :: i2 :: c5 :: s1 :: s2 :: tail =>
      if charIs c1 "-" && charIs c2 "-" && charIs c3 "T" && charIs c4 ":" && charIs c5 ":" then
        y ← digitsZ [y1; y2; y3; y4] 0;
        m ← digitsZ [m1; m2] 0;
        d ← digitsZ [d1; d2] 0;
        h ← digitsZ [h1; h2] 0;
        mi ← digitsZ [i1; i2] 0;
        sec ← digitsZ [s1; s2] 0;
        match tail with
        | [z] => if charIs z "Z" then makeTime y m d h mi sec 0 else None
        | [dot; f1; f2; f3; z] =>
            if charIs dot "." && charIs z "Z" then
              ms ← digitsZ [f1; f2; f3] 0; makeTime y m d h mi sec ms
            else None
        | _ => None
        end
      else None
  | _ => None
  end.

End JsDate.

(** ** Registry metadata and the version resolver

    The install action imports [resolveSafeVersion] from [./resolver.js],
    which is not among the sources: only its call in cli.ts and the tests
    that drive it are. The resolver and the metadata source below follow the
    specification. *)

Module Registry.

(** Modelled from the spec: the record [PackageMetadata] of the missing
    metadata source. [versions] lists the keys of the registry's [versions]
    object (the spec: only the existence of a key matters), [publishTimes]
    is the registry's [time] table and [distTags] its [dist-tags] table. *)
Record PackageMetadata : Type := mkMetadata {
  name : string;
  versions : list string;
  publishTimes : gmap string string;
  distTags : gmap string string
}.

(** Modelled from the spec: the two interchangeable backends of the missing
    metadata source. The live backend is the registry's answer to a GET of
    [{registry}/{name}]; the fixture backend is a table keyed by package
    name. *)
Inductive Backend : Type :=
  | Live (respond : string -> string -> Completion PackageMetadata)
  | Fixture (packages : gmap string PackageMetadata).

(** Modelled from the spec: the error of the missing metadata source for a
    name without a record. The spec names the error, not its message. *)
Definition NotFoundError (pkg : string) : Thrown :=
  ErrorInstance ("NotFoundError: " +:+ pkg).

(** Modelled from the spec: [fetchMetadata(name, registryEndpointOrFixture)]
    of the missing metadata source; a lookup of a name absent from the
    fixture fails with [NotFoundError]. *)
Definition fetchMetadata (backend : Backend) (registry pkg : string)
  : Completion PackageMetadata :=
  match backend with
  | Live respond => respond registry pkg
  | Fixture packages =>
      match packages !! pkg with
      | Some md => Returns md
      | None => Throws (NotFoundError pkg)
      end
  end.

End Registry.

Module Request.
(** The argument of [resolveSafeVersion], as the install action builds it. *)
Record t : Type := mk {
  name : string;
  range : string;
  registry : string;
  cutoffDate : JsDate.Date;
  ignoreAge : bool
}.
End Request.
Abbreviation ResolutionRequest := Request.t.

Module Resolver.
Import Registry.

(** Modelled from the spec: the pseudo-keys [created] and [modified], which
    the missing resolver leaves out of the candidates. *)
Definition isPseudoKey (key : string) : bool :=
  (String.eqb key "created" || String.eqb key "modified")%bool.

(** Modelled from the spec: step 2 of the missing resolver, the candidate
    set: all keys of [versions] but the pseudo-keys. *)
Definition candidateVersions (md : PackageMetadata) : list string :=
  List.filter (fun v => negb (isPseudoKey v)) (versions md).

(** Modelled from the spec: step 3 of the missing resolver. The literal
    range [latest] narrows the candidates to the version the [latest]
    distribution tag names; any other range is a semver range. *)
Definition matchesRange (md : PackageMetadata) (range version : string) : bool :=
  if String.eqb range "latest" then
    match distTags md !! "latest" with
    | Some tagged => String.eqb version tagged
    | None => false
    end
  else Semver.satisfies version range.

(** Modelled from the spec: the comparison of step 4 of the missing resolver,
    a publish time strictly earlier than the cutoff; nothing is earlier than
    an invalid date. *)
Definition earlier (t : Z) (cutoff : JsDate.Date) : bool :=
  match cutoff with
  | JsDate.DateAt c => t <? c
  | JsDate.InvalidDate => false
  end.

(** Modelled from the spec: steps 4 and 6 of the missing resolver. A
    candidate passes the age filter when its [publishTimes] entry exists,
    parses to a timestamp, and that timestamp is strictly earlier than the
    cutoff. *)
Definition oldEnough (md : PackageMetadata) (cutoff : JsDate.Date) (version : string) : bool :=
  match publishTimes md !! version with
  | Some stamp =>
      match JsDate.parseTimestamp stamp with
      | Some t => earlier t cutoff
      | None => false
      end
  | None => false
  end.

(** Modelled from the spec: what the missing resolver asks of a surviving
    candidate, the range and, unless [ignoreAge] is set, the age. *)
Definition qualifies (md : PackageMetadata) (range : string) (cutoff : JsDate.Date)
    (ignoreAge : bool) (version : string) : bool :=
  matchesRange md range version && (ignoreAge || oldEnough md cutoff version).

(** Modelled from the spec: one comparison of step 5 of the missing resolver;
    of two versions of equal precedence the earlier candidate stays. *)
Definition higher (best version : string) : string :=
  if Semver.compareVersions best version is Lt then version else best.

(** Modelled from the spec: step 5 of the missing resolver, the highest of
    the surviving candidates by semver precedence, or nothing. *)
Definition highest (survivors : list string) : option string :=
  match survivors with
  | [] => None
  | v :: rest => Some (fold_left higher rest v)
  end.

(** Modelled from the spec: steps 2 to 6 of the missing resolver on fetched
    metadata; [None] is the no-qualifying-version result [null]. *)
Definition selectVersion (md : PackageMetadata) (range : string)
    (cutoff : JsDate.Date) (ignoreAge : bool) : option string :=
  highest (List.filter (qualifies md range cutoff ignoreAge) (candidateVersions md)).

(** Modelled from the spec: [resolveSafeVersion] of the missing
    [src/resolver.ts]: fetch the metadata, propagate a failure of the
    fetch, otherwise select. *)
Definition resolveSafeVersion (backend : Backend) (request : ResolutionRequest)
  : Completion (option string) :=
  match fetchMetadata backend (Request.registry request) (Request.name request) with
  | Throws e => Throws e
  | Returns md =>
      Returns (selectVersion md (Request.range request)
                 (Request.cutoffDate request) (Request.ignoreAge request))
  end.


End Resolver.

(** ** The command line: cli.ts *)

(** [Map<string, string>]: entries in insertion order, one per key. *)
Module JsMap.

Definition t : Type := list (string * string).

Definition empty : t := [].

(** [map.set(key, value)]: a present key keeps its place and takes the new
    value, a new key goes last. *)
Fixpoint set (m : t) (key value : string) : t :=
  match m with
  | [] => [(key, value)]
  | (k, v) :: rest =>
      if String.eqb k key then (k, value) :: rest
      else (k, v) :: set rest key value
  end.

Fixpoint get (m : t) (key : string) : option string :=
  match m with
  | [] => None
  | (k, v) :: rest => if String.eqb k key then Some v else get rest key
  end.

Definition has (m : t) (key : string) : bool :=
  match get m key with Some _ => true | None => false end.

Definition size (m : t) : nat := length m.
Definition entries (m : t) : list (string * string) := m.
Definition keys (m : t) : list string := map fst m.

End JsMap.

Module Failure.
(** [interface Failure] *)
Record t : Type := mk {
  name : string;
  range : string;
  reason : string
}.
End Failure.
Abbreviation Failure := Failure.t.

Definition DEFAULT_REGISTRY : string := "https://registry.npmjs.org".

(** [type PackageManager = "npm" | "pnpm"] *)
Inductive PackageManager : Type := Npm | Pnpm.

(** [buildIgnoreSet]: the set is only queried with [has]. *)
Definition buildIgnoreSet (value : option string) : gset string :=
  match value with
  | None => ∅
  | Some text =>
      if negb (JsString.truthy text) then ∅
      else
        list_to_set
          (List.filter (fun token => (0 <? String.length token)%nat)
             (map JsString.trim (JsString.split "," text)))
  end.

(** [collectFromArgs]: the first spec that does not parse throws. *)
Fixpoint collectFromArgsInto (m : JsMap.t) (specs : list string) : Completion JsMap.t :=
  match specs with
  | [] => Returns m
  | spec :: rest =>
      match parsePackageSpec spec with
      | Throws e => Throws e
      | Returns parsed =>
          collectFromArgsInto (JsMap.set m (spec_name parsed) (spec_range parsed)) rest
      end
  end.

Definition collectFromArgs (specs : list string) : Completion JsMap.t :=
  collectFromArgsInto JsMap.empty specs.

Local Set Warnings "-register-all".

(** Values of [JSON.parse]. Numbers are carried, never inspected. The fields
    of an object are listed in the order [Object.entries] gives them. *)
Inductive Json : Type :=
  | JNull
  | JBool (b : bool)
  | JNumber (n : Z)
  | JString (s : string)
  | JArray (items : list Json)
  | JObject (fields : list (string * Json)).

Module JsObject.

Definition t : Type := list (string * Json).

Fixpoint get (o : t) (key : string) : option Json :=
  match o with
  | [] => None
  | (k, v) :: rest => if String.eqb k key then Some v else get rest key
  end.

(** Defining a property: a present key keeps its place. *)
Fixpoint set (o : t) (key : string) (value : Json) : t :=
  match o with
  | [] => [(key, value)]
  | (k, v) :: rest =>
      if String.eqb k key then (k, value) :: rest
      else (k, v) :: set rest key value
  end.

Definition assign (target : t) (source : list (string * Json)) : t :=
  fold_left (fun o kv => set o (fst kv) (snd kv)) source target.

Definition decimal (n : nat) : string :=
  NilEmpty.string_of_uint (Nat.to_uint n).

(** The own enumerable properties that a spread [...value] copies. *)
Definition properties (value : Json) : list (string * Json) :=
  match value with
  | JObject fields => fields
  | JArray items => imap (fun i item => (decimal i, item)) items
  | JString text =>
      imap (fun i c => (decimal i, JString (String c EmptyString)))
        (list_ascii_of_string text)
  | _ => []
  end.

(** The object literal [{ ...a, ...b }]. *)
Definition spread2 (a b : list (string * Json)) : t :=
  assign (assign [] a) b.

(** [Object.fromEntries(map.entries())] *)
Definition fromEntries (m : JsMap.t) : t :=
  assign [] (map (fun kv => (fst kv, JString (snd kv))) (JsMap.entries m)).

End JsObject.

(** [isRecord]: among JSON values only an object is truthy, of type
    ["object"] and not an array; an absent property is [undefined]. *)
Definition isRecord (value : option Json) : bool :=
  match value with
  | Some (JObject _) => true
  | _ => false
  end.

(** [interface PackageJson]: the two dependency tables as the interface types
    them, [overrides] and [pnpm] as parsed (the strategy inspects them at run
    time), and the fields the interface does not declare. *)
Record PackageJson : Type := mkPackageJson {
  dependencies : option (list (string * string));
  devDependencies : option (list (string * string));
  overrides : option Json;
  pnpm : option Json;
  otherFields : list (string * Json)
}.

(** [collectFromPackageJson] on the parsed file. *)
Definition collectFromPackageJson (pkg : PackageJson) (devOnly prodOnly : bool) : JsMap.t :=
  let put (m : JsMap.t) (entry : string * string) := JsMap.set m (fst entry) (snd entry) in
  let m0 := JsMap.empty in
  let m1 := if negb prodOnly then fold_left put (default [] (devDependencies pkg)) m0 else m0 in
  if negb devOnly then fold_left put (default [] (dependencies pkg)) m1 else m1.

(** *** The process: console, package.json, child processes, exit *)

Inductive Line : Type :=
  | Stdout (text : string)
  | Stderr (text : string).

(** The state of the process. [packageJsonFile] is package.json in the
    current directory: [None] when there is no such file, and otherwise what
    [JSON.parse(fs.readFileSync(pkgPath, "utf8"))] completes with, the parsed
    object or the error thrown over a file that cannot be read or parsed. *)
Record World : Type := mkWorld {
  console : list Line;
  packageJsonFile : option (Completion PackageJson);
  spawned : list (string * list string);
  resolverCalls : list ResolutionRequest
}.

(** A step of the program goes on with a value, ends the process with an exit
    code, or rejects with a thrown value. *)
Inductive Flow (A : Type) : Type :=
  | Next (value : A)
  | Exit (code : Z)
  | Rejected (e : Thrown).
Arguments Next {A} value.
Arguments Exit {A} code.
Arguments Rejected {A} e.

Definition Cli (A : Type) : Type := World -> Flow A * World.

#[global] Instance Cli_ret : MRet Cli := fun A a w => (Next a, w).
#[global] Instance Cli_bind : MBind Cli := fun A B k m w =>
  match m w with
  | (Next a, w') => k a w'
  | (Exit code, w') => (Exit code, w')
  | (Rejected e, w') => (Rejected e, w')
  end.

Definition log (text : string) : Cli unit := fun w =>
  (Next tt, mkWorld (console w ++ [Stdout text]) (packageJsonFile w) (spawned w) (resolverCalls w)).

Definition logError (text : string) : Cli unit := fun w =>
  (Next tt, mkWorld (console w ++ [Stderr text]) (packageJsonFile w) (spawned w) (resolverCalls w)).

Definition exit {A : Type} (code : Z) : Cli A := fun w => (Exit code, w).

Definition reject {A : Type} (e : Thrown) : Cli A := fun w => (Rejected e, w).

(** [fs.existsSync(pkgPath)] followed, when the file exists, by
    [JSON.parse(fs.readFileSync(pkgPath, "utf8"))], which may throw. *)
Definition readPackageJson : Cli (option PackageJson) := fun w =>
  match packageJsonFile w with
  | None => (Next None, w)
  | Some (Returns pkg) => (Next (Some pkg), w)
  | Some (Throws e) => (Rejected e, w)
  end.

(** [fs.writeFileSync(pkgPath, ...)]: the write is taken to succeed. *)
Definition writePackageJson (pkg : PackageJson) : Cli unit := fun w =>
  (Next tt, mkWorld (console w) (Some (Returns pkg)) (spawned w) (resolverCalls w)).

Definition when (condition : bool) (action : Cli unit) : Cli unit :=
  if condition then action else mret tt.

Fixpoint forEach {A : Type} (items : list A) (body : A -> Cli unit) : Cli unit :=
  match items with
  | [] => mret tt
  | item :: rest => body item ≫= fun _ => forEach rest body
  end.

Definition newline : string := String "010" EmptyString.

Definition joinWith (sep : string) (parts : list string) : string :=
  match parts with
  | [] => EmptyString
  | first :: rest => fold_left (fun acc part => acc +:+ sep +:+ part) rest first
  end.

(** JavaScript numbers, as far as the install action needs them: [NaN] and the
    integers. Fractions are outside the model. *)
Inductive JsNumber : Type :=
  | NaN
  | Num (z : Z).

Definition decimalZ (z : Z) : string :=
  NilEmpty.string_of_int (Z.to_int z).

Definition lowerChar (c : ascii) : ascii :=
  let n := N_of_ascii c in
  if (((65 <=? n) && (n <=? 90)) || ((192 <=? n) && (n <=? 222) && negb (n =? 215)))%N
  then ascii_of_N (n + 32) else c.

Fixpoint toLowerCase (s : string) : string :=
  match s with
  | EmptyString => EmptyString
  | String c rest => String (lowerChar c) (toLowerCase rest)
  end.

(** The options of the [install] command after commander has read them;
    [minAgeDays] is [Number(options.minAgeDays)], [strategy] is [None] when
    the option is not a string. *)
Record Options : Type := mkOptions {
  minAgeDays : JsNumber;
  registry : string;
  packageManager : option string;
  dryRun : bool;
  strict : bool;
  dev : bool;
  prodOnly : bool;
  ignore : option string;
  strategy : option string
}.

(** The state of the resolution loop: the [resolved] map, the [failures]
    array, and the requests handed to the resolver so far. *)
Record Resolution : Type := mkResolution {
  resolved : JsMap.t;
  failures : list Failure;
  requests : list ResolutionRequest
}.

Section Install.

(** [Date.now()] *)
Variable now : Z.
(** The default that [detectCliDefaults] derives from the invoked name. *)
Variable defaultPackageManager : PackageManager.
(** [resolveSafeVersion] of [./resolver.js]: a version or [null], or a
    rejection. *)
Variable resolveSafeVersion : ResolutionRequest -> Completion (option string).
(** The exit status of a child process, [null] when it has none. *)
Variable spawnStatus : string -> list string -> option Z.

Definition spawnSync (command : string) (args : list string) : Cli (option Z) := fun w =>
  (Next (spawnStatus command args),
   mkWorld (console w) (packageJsonFile w) (spawned w ++ [(command, args)]) (resolverCalls w)).

(** [normalizePackageManager] *)
Definition normalizePackageManager (value : option string) : Cli PackageManager :=
  let normalized := toLowerCase (JsString.trim (default EmptyString value)) in
  if String.eqb normalized "npm" then mret Npm
  else if String.eqb normalized "pnpm" then mret Pnpm
  else
    logError ("Unsupported package manager: " +:+ default "undefined" value) ;;
    exit 1.

Definition packageManagerName (pm : PackageManager) : string :=
  match pm with Npm => "npm" | Pnpm => "pnpm" end.

(** [!version] *)
Definition falsy (version : option string) : bool :=
  match version with
  | None => true
  | Some v => negb (JsString.truthy v)
  end.

(** [error instanceof Error ? error.message : "Unknown error"] *)
Definition reasonOf (error : Thrown) : string :=
  match error with
  | ErrorInstance message => message
  | NonError => "Unknown error"
  end.

(** One turn of the loop over [dependencyMap.entries()] (lines 76 to 96). *)
Definition resolveEntry (registry : string) (cutoffDate : JsDate.Date)
    (ignoreSet : gset string) (state : Resolution) (entry : string * string) : Resolution :=
  let '(name, range) := entry in
  let request := Request.mk name range registry cutoffDate (bool_decide (name ∈ ignoreSet)) in
  let asked := requests state ++ [request] in
  match resolveSafeVersion request with
  | Returns version =>
      if falsy version then
        mkResolution (resolved state)
          (failures state ++
             [Failure.mk name range "No version satisfies the range and age requirement"])
          asked
      else
        mkResolution (JsMap.set (resolved state) name (default EmptyString version))
          (failures state) asked
  | Throws error =>
      mkResolution (resolved state)
        (failures state ++ [Failure.mk name range (reasonOf error)])
        asked
  end.

Definition resolveAll (registry : string) (cutoffDate : JsDate.Date)
    (ignoreSet : gset string) (dependencyMap : JsMap.t) : Resolution :=
  fold_left (resolveEntry registry cutoffDate ignoreSet) (JsMap.entries dependencyMap)
    (mkResolution JsMap.empty [] []).

(** The loop as a step of the process: its calls to the resolver are
    effects. *)
Definition runResolution (registry : string) (cutoffDate : JsDate.Date)
    (ignoreSet : gset string) (dependencyMap : JsMap.t) : Cli Resolution := fun w =>
  let result := resolveAll registry cutoffDate ignoreSet dependencyMap in
  (Next result,
   mkWorld (console w) (packageJsonFile w) (spawned w) (resolverCalls w ++ requests result)).

(** [pkg.overrides ?? {}] *)
Definition orEmptyObject (value : option Json) : Json :=
  match value with
  | None | Some JNull => JObject []
  | Some v => v
  end.

(** The package.json that the [overrides] strategy writes for npm:
    [pkg.overrides = { ...(pkg.overrides ?? {}), ...overrides }]. *)
Definition npmOverrides (pkg : PackageJson) (resolvedVersions : JsMap.t) : PackageJson :=
  mkPackageJson (dependencies pkg) (devDependencies pkg)
    (Some (JObject (JsObject.spread2
                      (JsObject.properties (orEmptyObject (overrides pkg)))
                      (JsObject.fromEntries resolvedVersions))))
    (pnpm pkg) (otherFields pkg).

(** The package.json that the [overrides] strategy writes for pnpm:
    [pkg.pnpm = { ...pnpmConfig, overrides: { ...pnpmOverrides, ...overrides } }]. *)
Definition pnpmOverrides (pkg : PackageJson) (resolvedVersions : JsMap.t) : PackageJson :=
  let pnpmConfig := if isRecord (pnpm pkg) then default JNull (pnpm pkg) else JObject [] in
  let configFields := JsObject.properties pnpmConfig in
  let current := JsObject.get configFields "overrides" in
  let pnpmOverrides := if isRecord current then default JNull current else JObject [] in
  mkPackageJson (dependencies pkg) (devDependencies pkg) (overrides pkg)
    (Some (JObject
             (JsObject.set (JsObject.assign [] configFields) "overrides"
                (JObject (JsObject.spread2 (JsObject.properties pnpmOverrides)
                            (JsObject.fromEntries resolvedVersions))))))
    (otherFields pkg).

(** [runStrategy] *)
Definition runStrategy (strategyName : string) (resolvedVersions : JsMap.t)
    (registryUrl : string) (manager : PackageManager) : Cli unit :=
  if String.eqb strategyName "direct" then
    let packages :=
      map (fun entry => fst entry +:+ "@" +:+ snd entry) (JsMap.entries resolvedVersions) in
    match manager with
    | Npm =>
        let npmArgs := "install" :: packages ++ ["--registry"; registryUrl] in
        log (newline +:+ "Running: npm " +:+ joinWith " " npmArgs) ;;
        status ← spawnSync "npm" npmArgs;
        exit (default 1 status)
    | Pnpm =>
        let pnpmArgs := "add" :: packages ++ ["--registry"; registryUrl] in
        log (newline +:+ "Running: pnpm " +:+ joinWith " " pnpmArgs) ;;
        status ← spawnSync "pnpm" pnpmArgs;
        exit (default 1 status)
    end
  else if String.eqb strategyName "overrides" then
    file ← readPackageJson;
    match file with
    | None =>
        logError "Cannot use overrides strategy without a package.json in the current directory." ;;
        exit 1
    | Some pkg =>
        match manager with
        | Npm =>
            writePackageJson (npmOverrides pkg resolvedVersions) ;;
            log (newline +:+ "Updated package.json overrides. Running npm install...") ;;
            status ← spawnSync "npm" ["install"; "--registry"; registryUrl];
            exit (default 1 status)
        | Pnpm =>
            writePackageJson (pnpmOverrides pkg resolvedVersions) ;;
            log (newline +:+ "Updated package.json pnpm.overrides. Running pnpm install...") ;;
            status ← spawnSync "pnpm" ["install"; "--registry"; registryUrl];
            exit (default 1 status)
        end
    end
  else
    logError ("Unknown strategy: " +:+ strategyName) ;;
    exit 1.

(** The dependency map of line 64: from the arguments when there are any,
    from package.json otherwise. *)
Definition collectDependencies (packages : list string) (devOnly prodOnlyFlag : bool)
  : Cli JsMap.t :=
  if (0 <? length packages)%nat then
    match collectFromArgs packages with
    | Returns m => mret m
    | Throws e => reject e
    end
  else
    file ← readPackageJson;
    match file with
    | None =>
        logError "No package.json found in the current directory." ;;
        exit 1
    | Some pkg => mret (collectFromPackageJson pkg devOnly prodOnlyFlag)
    end.

Definition failureLine (failure : Failure) : string :=
  "  - " +:+ Failure.name failure +:+ "@" +:+ Failure.range failure +:+ ": "
  +:+ Failure.reason failure.

Definition successLine (ignoreSet : gset string) (entry : string * string) : string :=
  "  " +:+ fst entry +:+ "@" +:+ snd entry
  +:+ (if bool_decide (fst entry ∈ ignoreSet) then " (ignored)" else EmptyString).

(** The report of lines 98 to 122: the failures, then the versions to
    install, each list in its own order. *)
Definition reportOutcome (options : Options) (ignoreSet : gset string)
    (result : Resolution) : Cli unit :=
  when (0 <? length (failures result))%nat
    (log (newline +:+ "Dependencies that could not be resolved safely:") ;;
     forEach (failures result) (fun failure => log (failureLine failure)) ;;
     when (strict options) (exit 1)) ;;
  when (JsMap.size (resolved result) =? 0)%nat
    (log (newline +:+ "No dependencies qualified for installation.") ;;
     exit (if strict options && (0 <? length (failures result))%nat then 1 else 0)) ;;
  log (newline +:+ "Safe versions to install:") ;;
  forEach (JsMap.entries (resolved result))
    (fun entry => log (successLine ignoreSet entry)) ;;
  when (dryRun options)
    (log (newline +:+ "Dry run enabled. No changes were made.") ;; exit 0).

(** The action of the [install] command. A rejection reaches the handler
    installed on [parseAsync], which prints it and exits with status 1. *)
Definition installAction (packages : list string) (options : Options) : Cli unit :=
  days ← match minAgeDays options with
         | Num d =>
             if d <? 0 then
               logError "--min-age-days must be a non-negative number" ;; exit 1
             else mret d
         | NaN => logError "--min-age-days must be a non-negative number" ;; exit 1
         end;
  let registryUrl :=
    if JsString.truthy (registry options) then registry options else DEFAULT_REGISTRY in
  manager ← normalizePackageManager
              (Some (default (packageManagerName defaultPackageManager)
                       (packageManager options)));
  let cutOffMs := days * 24 * 60 * 60 * 1000 in
  let cutoffDate := JsDate.newDate (now - cutOffMs) in
  let ignoreSet := buildIgnoreSet (ignore options) in
  let devOnly := dev options in
  let prodOnlyFlag := prodOnly options in
  when (devOnly && prodOnlyFlag)
    (logError "--dev and --prod-only cannot be used together." ;; exit 1) ;;
  dependencyMap ← collectDependencies packages devOnly prodOnlyFlag;
  when (JsMap.size dependencyMap =? 0)%nat
    (log "No dependencies to process." ;; exit 0) ;;
  iso ← match cutoffDate with
        | JsDate.DateAt t => mret (JsDate.toISOString t)
        | JsDate.InvalidDate => reject (ErrorInstance "Invalid time value")
        end;
  log ("Using minimum age of " +:+ decimalZ days +:+ " days (cutoff " +:+ iso +:+ ").") ;;
  result ← runResolution registryUrl cutoffDate ignoreSet dependencyMap;
  reportOutcome options ignoreSet result ;;
  runStrategy (match strategy options with Some text => toLowerCase text | None => "direct" end)
    (resolved result) registryUrl manager.

End Install.

(** The process before the command runs. *)
Definition startWorld (file : option (Completion PackageJson)) : World :=
  mkWorld [] file [] [].


(** ** The registry fixtures of the integration tests *)

Module Fixtures.
Import Registry.

(** [isoDaysAgo], at the instant [now] the test runs. *)
Definition isoDaysAgo (now days : Z) : string :=
  JsDate.toISOString (now - days * JsDate.DAY_IN_MS).

Fixpoint insertBy (cmp : string -> string -> comparison) (x : string) (sorted : list string)
  : list string :=
  match sorted with
  | [] => [x]
  | y :: rest => if cmp x y is Gt then y :: insertBy cmp x rest else x :: y :: rest
  end.

(** [array.sort(cmp)], a stable sort. *)
Definition sortBy (cmp : string -> string -> comparison) (items : list string) : list string :=
  foldr (insertBy cmp) [] items.

(** [createPackage]: one version per entry of [versionDates], the [latest]
    tag on the highest of them. *)
Definition createPackage (now : Z) (pkg : string) (versionDates : list (string * string))
  : PackageMetadata :=
  let time :=
    fold_left (fun table entry => <[fst entry := snd entry]> table) versionDates
      (<["modified" := isoDaysAgo now 1]> (<["created" := isoDaysAgo now 1000]> ∅)) in
  let sortedVersions := sortBy Semver.rcompare (map fst versionDates) in
  mkMetadata pkg (map fst versionDates) time
    (<["latest" := default "0.0.0" (head sortedVersions)]> ∅).

(** The instant the fixtures are written, and the later instant at which
    the command reads the clock. *)
Definition written : Z := 1762000000000.
Definition started : Z := written + 250.

Definition alpha : PackageMetadata :=
  createPackage written "alpha"
    [("1.0.0", isoDaysAgo written 400); ("1.1.0", isoDaysAgo written 150);
     ("1.2.0", isoDaysAgo written 20)].

Definition beta : PackageMetadata :=
  createPackage written "beta"
    [("2.0.0", isoDaysAgo written 200); ("2.1.0", isoDaysAgo written 95);
     ("2.2.0", isoDaysAgo written 5)].

Definition recent : PackageMetadata :=
  createPackage written "recent"
    [("1.0.0", isoDaysAgo written 15); ("1.1.0", isoDaysAgo written 5)].

(** The package [beta] of the third test: a single version, 220 days old. *)
Definition betaSingle : PackageMetadata :=
  createPackage written "beta" [("2.0.0", isoDaysAgo written 220)].

(** The package [alpha] of the third test: a single version, 7 days old. *)
Definition alphaSingle : PackageMetadata :=
  createPackage written "alpha" [("1.1.0", isoDaysAgo written 7)].

(** A package with a version whose timestamp does not parse (2.0.0) and
    one without a timestamp (3.0.0); not one of the tests' fixtures. *)
Definition undated : PackageMetadata :=
  mkMetadata "undated" ["1.0.0"; "2.0.0"; "3.0.0"]
    (<["2.0.0" := "last spring"]> (<["1.0.0" := isoDaysAgo written 300]> ∅))
    (<["latest" := "3.0.0"]> ∅).

(** [createFixtureFile] *)
Definition createFixtureFile (packages : list PackageMetadata) : Backend :=
  Fixture (fold_left (fun table md => <[name md := md]> table) packages ∅).

(** The cutoff of a run with [--min-age-days 90]. *)
Definition cutoff90 : JsDate.Date := JsDate.newDate (started - 90 * 24 * 60 * 60 * 1000).

End Fixtures.

(** The metadata with one version key taken out of [versions]. *)
Definition withoutVersion (md : Registry.PackageMetadata) (version : string)
  : Registry.PackageMetadata :=
  Registry.mkMetadata (Registry.name md)
    (List.filter (fun v => negb (String.eqb v version)) (Registry.versions md))
    (Registry.publishTimes md) (Registry.distTags md).

(** The request the install action builds for one entry of the dependency
    map (lines 78 to 84). *)
Definition requestFor (registryUrl : string) (cutoffDate : JsDate.Date)
    (ignoreSet : gset string) (entry : string * string) : ResolutionRequest :=
  Request.mk (fst entry) (snd entry) registryUrl cutoffDate
    (bool_decide (fst entry ∈ ignoreSet)).

(** The two readings of the resolver's answer for one entry, used to state
    what the loop leaves behind: the version it installs, if any, and the
    failure it files, if any. *)
Definition versionFor (resolveSafeVersion : ResolutionRequest -> Completion (option string))
    (registryUrl : string) (cutoffDate : JsDate.Date) (ignoreSet : gset string)
    (entry : string * string) : option string :=
  match resolveSafeVersion (requestFor registryUrl cutoffDate ignoreSet entry) with
  | Returns (Some version) => if JsString.truthy version then Some version else None
  | Returns None => None
  | Throws _ => None
  end.

Definition failureFor (resolveSafeVersion : ResolutionRequest -> Completion (option string))
    (registryUrl : string) (cutoffDate : JsDate.Date) (ignoreSet : gset string)
    (entry : string * string) : option Failure :=
  match resolveSafeVersion (requestFor registryUrl cutoffDate ignoreSet entry) with
  | Returns (Some version) =>
      if JsString.truthy version then None
      else Some (Failure.mk (fst entry) (snd entry)
                   "No version satisfies the range and age requirement")
  | Returns None =>
      Some (Failure.mk (fst entry) (snd entry)
              "No version satisfies the range and age requirement")
  | Throws (ErrorInstance message) => Some (Failure.mk (fst entry) (snd entry) message)
  | Throws NonError => Some (Failure.mk (fst entry) (snd entry) "Unknown error")
  end.

(** ** Reading a run of the process *)

(** A step that asks the resolver nothing. *)
Definition silent {A : Type} (m : Cli A) : Prop :=
  forall w, resolverCalls (m w).2 = resolverCalls w.

(** A step that never rejects. *)
Definition steady {A : Type} (m : Cli A) : Prop :=
  forall w e, (m w).1 <> Rejected e.

(** A step that always ends the process with an exit code. *)
Definition finishes {A : Type} (m : Cli A) : Prop :=
  forall w, exists code, (m w).1 = Exit code.

(** The world after some more lines went to standard output. *)
Definition withLines (w : World) (lines : list string) : World :=
  mkWorld (console w ++ map Stdout lines) (packageJsonFile w) (spawned w) (resolverCalls w).

(** The lines of the report, in the order [reportOutcome] prints them. *)
Definition reportLines (options : Options) (ignoreSet : gset string)
    (result : Resolution) : list string :=
  let failed := (0 <? length (failures result))%nat in
  (if failed then
     (newline +:+ "Dependencies that could not be resolved safely:")
     :: map failureLine (failures result)
   else [])
  ++ (if failed && strict options then []
      else if (JsMap.size (resolved result) =? 0)%nat then
        [newline +:+ "No dependencies qualified for installation."]
      else
        (newline +:+ "Safe versions to install:")
        :: map (successLine ignoreSet) (JsMap.entries (resolved result))
        ++ (if dryRun options then [newline +:+ "Dry run enabled. No changes were made."]
            else [])).


(** The options of the dry runs in the integration tests: the defaults, with
    [--dry-run], an [--ignore] list and possibly [--strict]. *)
Definition dryRunOptions (ignored : string) (strictMode : bool) : Options :=
  mkOptions (Num 90) DEFAULT_REGISTRY (Some "npm") true strictMode false false
    (Some ignored) (Some "direct").

(** ** Comparison functions that order

    What the selection of a highest version needs from a comparison: it is
    reflexive, flips with its arguments, respects its own [Eq], and its [Lt]
    is transitive. *)

Record Lawful {A : Type} (cmp : A -> A -> comparison) : Prop := mkLawful {
  cmp_refl : forall x, cmp x x = Eq;
  cmp_flip : forall x y, cmp y x = CompOpp (cmp x y);
  cmp_eq_l : forall x y z, cmp x y = Eq -> cmp x z = cmp y z;
  cmp_lt_trans : forall x y z, cmp x y = Lt -> cmp y z = Lt -> cmp x z = Lt
}.

(** [v] is at least as high as [w]. *)
Definition notBelow (v w : string) : Prop := Semver.compareVersions v w <> Lt.

(** ** The rest of the command line *)

(** [s.includes(needle)] *)
Fixpoint includes (needle s : string) : bool :=
  String.prefix needle s
  || match s with
     | EmptyString => false
     | String _ rest => includes needle rest
     end.

Record CliDefaults : Type := mkCliDefaults {
  cliName : string;
  defaultPackageManager : PackageManager
}.

(** [detectCliDefaults], on [invoked], the base name of the script path
    ([path.basename(process.argv[1] ?? "")]). *)
Definition detectCliDefaults (invoked : string) : CliDefaults :=
  if includes "safe-pnpm" invoked then mkCliDefaults "safe-pnpm" Pnpm
  else if includes "safe-npm" invoked then mkCliDefaults "safe-npm" Npm
  else mkCliDefaults "safe-npm" Npm.

(** What the handler on [parseAsync] prints for a rejection:
    [err instanceof Error ? err.message : err], where [rendered] is the
    console's rendering of a thrown value that is no [Error]. *)
Definition rejectionText (rendered : string) (e : Thrown) : string :=
  match e with
  | ErrorInstance message => message
  | NonError => rendered
  end.

(** The program of lines 26 to 131: the defaults are detected from the
    invoked name, the install action runs, and a rejection is printed to
    standard error and ends the process with status 1. *)
Definition program (rendered : string) (now : Z) (invoked : string)
    (resolveSafeVersion : ResolutionRequest -> Completion (option string))
    (spawnStatus : string -> list string -> option Z)
    (packages : list string) (options : Options) : Cli unit := fun w =>
  match installAction now (defaultPackageManager (detectCliDefaults invoked))
          resolveSafeVersion spawnStatus packages options w with
  | (Rejected e, w') => (logError (rejectionText rendered e) ;; exit 1) w'
  | outcome => outcome
  end.

(** The pairs that [collectFromArgs] puts into its map, in the order of the
    specs. *)
Definition parsedSpecs (specs : list string) : list (string * string) :=
  omap (fun spec =>
          match parsePackageSpec spec with
          | Returns parsed => Some (spec_name parsed, spec_range parsed)
          | Throws _ => None
          end) specs.

(** The world after a line went to standard error. *)
Definition withError (w : World) (text : string) : World :=
  mkWorld (console w ++ [Stderr text]) (packageJsonFile w) (spawned w) (resolverCalls w).

(** The package manager that [normalizePackageManager] takes a value for,
    if any. *)
Definition managerOf (value : option string) : option PackageManager :=
  let normalized := toLowerCase (JsString.trim (default EmptyString value)) in
  if String.eqb normalized "npm" then Some Npm
  else if String.eqb normalized "pnpm" then Some Pnpm
  else None.

(** The package manager of a run: the one of [--package-manager], or the
    default of the name the program was invoked under. *)
Definition chosenManager (defaultManager : PackageManager) (options : Options)
  : option PackageManager :=
  managerOf (Some (default (packageManagerName defaultManager) (packageManager options))).

(** The time value of the cutoff date. *)
Definition cutoffOf (now days : Z) : Z := now - days * 24 * 60 * 60 * 1000.

(** The line that announces the cutoff. *)
Definition usingLine (days : Z) (iso : string) : string :=
  "Using minimum age of " +:+ decimalZ days +:+ " days (cutoff " +:+ iso +:+ ").".

(** The world in which the report starts: the cutoff is announced and the
    resolver was asked one request per dependency. *)
Definition resolvedWorld (w : World) (days now : Z) (result : Resolution) : World :=
  mkWorld (console w ++ [Stdout (usingLine days (JsDate.toISOString (cutoffOf now days)))])
    (packageJsonFile w) (spawned w) (resolverCalls w ++ requests result).

(** The strategy name the action passes to [runStrategy]. *)
Definition strategyOf (options : Options) : string :=
  match strategy options with Some text => toLowerCase text | None => "direct" end.

(** The registry the action uses: [options.registry || DEFAULT_REGISTRY]. *)
Definition registryOf (options : Options) : string :=
  if JsString.truthy (registry options) then registry options else DEFAULT_REGISTRY.

(** The command line of the [direct] strategy. *)
Definition directCommand (manager : PackageManager) (resolvedVersions : JsMap.t)
    (registryUrl : string) : string * list string :=
  (packageManagerName manager,
   (match manager with Npm => "install" | Pnpm => "add" end)
   :: map (fun entry => fst entry +:+ "@" +:+ snd entry) (JsMap.entries resolvedVersions)
   ++ ["--registry"; registryUrl]).

(* ===================================================================== *)
(** * Properties *)
(* ===================================================================== *)

(** ** The models compute *)

Example parse_version :
  Semver.parse "1.2.3-beta.2+exp.sha" =
  Some (Semver.mkSemVer 1 2 3 [Semver.AlphaId "beta"; Semver.NumericId 2]).
Proof. reflexivity. Qed.

(** What the constructor of the package accepts: surrounding white space
    and a leading [v], numbers up to [MAX_SAFE_INTEGER]. *)
Example parse_bounds :
  map Semver.parse ["v2.0.0"; " 1.0.0 "; "9007199254740991.0.0"; "9007199254740992.0.0";
                    "1.0"; "01.0.0"]
  = [Some (Semver.mkSemVer 2 0 0 []); Some (Semver.mkSemVer 1 0 0 []);
     Some (Semver.mkSemVer 9007199254740991 0 0 []); None; None; None].
Proof. vm_compute. reflexivity. Qed.

Example satisfies_examples :
  map (fun '(v, r) => Semver.satisfies v r)
    [("1.2.3", "*"); ("1.2.3-beta", "*"); ("2.0.0", "^2.0.0"); ("3.0.0", "^2");
     ("2.4.1", "^2"); ("0.2.5", "^0.2.3"); ("0.3.0", "^0.2.3"); ("1.2.9", "~1.2.3");
     ("1.3.0", "~1.2.3"); ("1.2.3", ">=1.0.0 <2.0.0"); ("2.0.0", ">=1.0.0 <2.0.0");
     ("2.0.0", "1.x || >=2.0.0"); ("1.5.0", "1.2.3 - 2.3"); ("2.4.0", "1.2.3 - 2.3");
     ("1.2.3-beta.1", ">=1.2.3-alpha"); ("1.2.4-beta.1", ">=1.2.3-alpha");
     ("1.0.0", "latest"); ("1.0.0", "banana"); ("1.0.0", EmptyString); ("1.0.0", ">1")]
  = [true; false; true; false; true; true; false; true; false; true; false;
     true; true; false; true; false; false; false; true; false].
Proof. vm_compute. reflexivity. Qed.

Example iso_examples :
  JsDate.toISOString 1735689600000 = "2025-01-01T00:00:00.000Z"
  /\ JsDate.toISOString (-1) = "1969-12-31T23:59:59.999Z"
  /\ JsDate.toISOString 951782400123 = "2000-02-29T00:00:00.123Z"
  /\ JsDate.parseTimestamp "2025-01-01T00:00:00.000Z" = Some 1735689600000
  /\ JsDate.parseTimestamp "2000-02-29T00:00:00Z" = Some 951782400000
  /\ JsDate.parseTimestamp "2001-02-29T00:00:00Z" = None
  /\ JsDate.parseTimestamp "yesterday" = None.
Proof. vm_compute. repeat split; reflexivity. Qed.

Example parse_scoped :
  parsePackageSpec "@scope/pkg@^1.2.0" = Returns (mkSpec "@scope/pkg" "^1.2.0").
Proof. reflexivity. Qed.

(** ** Semver precedence is an order *)

Section LawfulFacts.
Context {A : Type} (cmp : A -> A -> comparison) (L : Lawful cmp).

Lemma cmp_eq_r x y z : cmp x y = Eq -> cmp z x = cmp z y.
Proof.
  intros E. rewrite (cmp_flip cmp L x z), (cmp_flip cmp L y z).
  f_equal. by apply (cmp_eq_l cmp L).
Qed.

Lemma cmp_gt_lt x y : cmp x y = Gt -> cmp y x = Lt.
Proof. intros E. by rewrite (cmp_flip cmp L x y), E. Qed.

Lemma cmp_lt_gt x y : cmp x y = Lt -> cmp y x = Gt.
Proof. intros E. by rewrite (cmp_flip cmp L x y), E. Qed.

Lemma cmp_eq_sym x y : cmp x y = Eq -> cmp y x = Eq.
Proof. intros E. by rewrite (cmp_flip cmp L x y), E. Qed.

(** "Not below" is transitive. *)
Lemma cmp_ge_trans x y z : cmp x y <> Lt -> cmp y z <> Lt -> cmp x z <> Lt.
Proof.
  intros Hxy Hyz Hxz.
  destruct (cmp x y) eqn:Exy; [| done |].
  - apply Hyz. by rewrite <- (cmp_eq_l cmp L x y z Exy).
  - destruct (cmp y z) eqn:Eyz; [| done |].
    + rewrite (cmp_eq_r y z x Eyz) in Exy. congruence.
    + pose proof (cmp_lt_trans cmp L _ _ _ (cmp_gt_lt _ _ Eyz) (cmp_gt_lt _ _ Exy)) as T.
      apply cmp_lt_gt in T. congruence.
Qed.

(** Precomposition with any function keeps the laws. *)
Lemma lawful_on {B : Type} (f : B -> A) : Lawful (fun x y => cmp (f x) (f y)).
Proof.
  split; intros.
  - apply (cmp_refl cmp L).
  - apply (cmp_flip cmp L).
  - by apply (cmp_eq_l cmp L).
  - by eapply (cmp_lt_trans cmp L).
Qed.

(** A lexicographic step keeps the laws. *)
Lemma lawful_lex {B C : Type} (cmpB : B -> B -> comparison) (LB : Lawful cmpB)
    (pa : C -> A) (pb : C -> B) :
  Lawful (fun x y => match cmp (pa x) (pa y) with
                     | Eq => cmpB (pb x) (pb y)
                     | c => c
                     end).
Proof.
  split.
  - intros x. rewrite (cmp_refl cmp L). apply (cmp_refl cmpB LB).
  - intros x y. rewrite (cmp_flip cmp L (pa x) (pa y)), (cmp_flip cmpB LB (pb x) (pb y)).
    by destruct (cmp (pa x) (pa y)).
  - intros x y z H.
    destruct (cmp (pa x) (pa y)) eqn:E; try done.
    rewrite (cmp_eq_l cmp L _ _ (pa z) E), (cmp_eq_l cmpB LB _ _ (pb z) H). done.
  - intros x y z Hxy Hyz.
    destruct (cmp (pa x) (pa y)) eqn:Exy; try done;
      destruct (cmp (pa y) (pa z)) eqn:Eyz; try done.
    + rewrite (cmp_eq_l cmp L _ _ (pa z) Exy), Eyz.
      by eapply (cmp_lt_trans cmpB LB).
    + by rewrite (cmp_eq_l cmp L _ _ (pa z) Exy), Eyz.
    + by rewrite <- (cmp_eq_r _ _ (pa x) Eyz), Exy.
    + by rewrite (cmp_lt_trans cmp L _ _ _ Exy Eyz).
Qed.

End LawfulFacts.

Lemma N_compare_lawful : Lawful N.compare.
Proof.
  split.
  - apply N.compare_refl.
  - intros x y. apply N.compare_antisym.
  - intros x y z E. apply N.compare_eq in E. by subst.
  - intros x y z. rewrite !N.compare_lt_iff. lia.
Qed.

Lemma ascii_compare_lawful : Lawful Ascii.compare.
Proof. apply (lawful_on N.compare N_compare_lawful N_of_ascii). Qed.

Lemma string_compare_lawful : Lawful String.compare.
Proof.
  pose proof ascii_compare_lawful as LA.
  split.
  - induction x as [|c x IH]; simpl; [done|]. by rewrite (cmp_refl _ LA).
  - intros x y. apply String.compare_antisym.
  - intros x y z E. apply String.compare_eq_iff in E. by subst.
  - induction x as [|a x IH]; intros [|b y] [|c z]; simpl; try done.
    destruct (Ascii.compare a b) eqn:Eab; try done;
      destruct (Ascii.compare b c) eqn:Ebc; try done; intros Hxy Hyz.
    + rewrite (cmp_eq_l _ LA _ _ c Eab), Ebc. by eapply IH.
    + by rewrite (cmp_eq_l _ LA _ _ c Eab), Ebc.
    + by rewrite <- (cmp_eq_r _ LA _ _ a Ebc), Eab.
    + by rewrite (cmp_lt_trans _ LA _ _ _ Eab Ebc).
Qed.

Lemma compareIdentifiers_lawful : Lawful Semver.compareIdentifiers.
Proof.
  pose proof N_compare_lawful as LN. pose proof string_compare_lawful as LS.
  split.
  - intros [n|s]; simpl; [apply (cmp_refl _ LN) | apply (cmp_refl _ LS)].
  - intros [n|s] [m|t]; simpl; try done;
      [apply (cmp_flip _ LN) | apply (cmp_flip _ LS)].
  - intros [n|s] [m|t] [k|u]; simpl; try done;
      [apply (cmp_eq_l _ LN) | apply (cmp_eq_l _ LS)].
  - intros [n|s] [m|t] [k|u]; simpl; try done;
      [apply (cmp_lt_trans _ LN) | apply (cmp_lt_trans _ LS)].
Qed.

Lemma compareIdentifierLists_lawful : Lawful Semver.compareIdentifierLists.
Proof.
  pose proof compareIdentifiers_lawful as LI.
  split.
  - induction x as [|a x IH]; simpl; [done|]. by rewrite (cmp_refl _ LI).
  - induction x as [|a x IH]; intros [|b y]; simpl; try done.
    rewrite (cmp_flip _ LI a b). destruct (Semver.compareIdentifiers a b); simpl; auto.
  - induction x as [|a x IH]; intros [|b y] [|c z]; simpl; try done;
      destruct (Semver.compareIdentifiers a b) eqn:Eab; try done; intros H.
    rewrite (cmp_eq_l _ LI _ _ c Eab). by rewrite (IH y z H).
  - induction x as [|a x IH]; intros [|b y] [|c z]; simpl; try done.
    destruct (Semver.compareIdentifiers a b) eqn:Eab; try done;
      destruct (Semver.compareIdentifiers b c) eqn:Ebc; try done; intros Hxy Hyz.
    + rewrite (cmp_eq_l _ LI _ _ c Eab), Ebc. by eapply IH.
    + by rewrite (cmp_eq_l _ LI _ _ c Eab), Ebc.
    + by rewrite <- (cmp_eq_r _ LI _ _ a Ebc), Eab.
    + by rewrite (cmp_lt_trans _ LI _ _ _ Eab Ebc).
Qed.

Lemma comparePre_lawful : Lawful Semver.comparePre.
Proof.
  pose proof compareIdentifierLists_lawful as LL.
  split.
  - intros [|a x]; [done|]. apply (cmp_refl _ LL (a :: x)).
  - intros [|a x] [|b y]; try done. apply (cmp_flip _ LL (a :: x) (b :: y)).
  - intros [|a x] [|b y] [|c z]; try done. apply (cmp_eq_l _ LL (a :: x) (b :: y) (c :: z)).
  - intros [|a x] [|b y] [|c z]; try done.
    apply (cmp_lt_trans _ LL (a :: x) (b :: y) (c :: z)).
Qed.

Lemma compare_lawful : Lawful Semver.compare.
Proof.
  pose proof N_compare_lawful as LN.
  unfold Semver.compare, Semver.compareMain.
  pose proof (lawful_lex N.compare LN N.compare LN Semver.minor Semver.patch) as L2.
  pose proof (lawful_lex N.compare LN _ L2 Semver.major (fun v => v)) as L3.
  pose proof (lawful_lex _ L3 _ comparePre_lawful (fun v => v) Semver.prerelease) as L4.
  exact L4.
Qed.

Lemma compareKeys_lawful : Lawful Semver.compareKeys.
Proof.
  pose proof compare_lawful as LC.
  split.
  - intros [x|]; simpl; [apply (cmp_refl _ LC) | done].
  - intros [x|] [y|]; simpl; try done. apply (cmp_flip _ LC).
  - intros [x|] [y|] [z|]; simpl; try done. apply (cmp_eq_l _ LC).
  - intros [x|] [y|] [z|]; simpl; try done. apply (cmp_lt_trans _ LC).
Qed.

Lemma compareVersions_lawful : Lawful Semver.compareVersions.
Proof. apply (lawful_on _ compareKeys_lawful Semver.parse). Qed.


(** ** The resolver *)

Section Highest.
Import Resolver.

Lemma higher_cases best v : higher best v = best \/ higher best v = v.
Proof. unfold higher. destruct (Semver.compareVersions best v); auto. Qed.

Lemma higher_notBelow_l best v : notBelow (higher best v) best.
Proof.
  pose proof compareVersions_lawful as L.
  unfold notBelow, higher. destruct (Semver.compareVersions best v) eqn:E.
  - by rewrite (cmp_refl _ L).
  - by rewrite (cmp_lt_gt _ L _ _ E).
  - by rewrite (cmp_refl _ L).
Qed.

Lemma higher_notBelow_r best v : notBelow (higher best v) v.
Proof.
  pose proof compareVersions_lawful as L.
  unfold notBelow, higher. destruct (Semver.compareVersions best v) eqn:E.
  - by rewrite E.
  - by rewrite (cmp_refl _ L).
  - by rewrite E.
Qed.

Lemma notBelow_trans a b c : notBelow a b -> notBelow b c -> notBelow a c.
Proof. apply (cmp_ge_trans _ compareVersions_lawful). Qed.

Lemma notBelow_refl a : notBelow a a.
Proof. unfold notBelow. by rewrite (cmp_refl _ compareVersions_lawful). Qed.

(** The running maximum is the start or an element, and no element and not
    the start is above it. *)
Lemma fold_higher rest : forall start,
  let r := fold_left higher rest start in
  (r = start \/ In r rest) /\ notBelow r start /\ (forall w, In w rest -> notBelow r w).
Proof.
  induction rest as [|v rest IH]; intros start; simpl.
  - split; [by left|]. split; [apply notBelow_refl | tauto].
  - destruct (IH (higher start v)) as (Hin & Hstart & Hall).
    split; [|split].
    + destruct Hin as [E|Hin]; [|by auto].
      rewrite E. destruct (higher_cases start v) as [-> | ->]; auto.
    + eapply notBelow_trans; [exact Hstart | apply higher_notBelow_l].
    + intros w [<- | Hw]; [|by auto].
      eapply notBelow_trans; [exact Hstart | apply higher_notBelow_r].
Qed.

Lemma highest_Some survivors v :
  highest survivors = Some v ->
  In v survivors /\ forall w, In w survivors -> notBelow v w.
Proof.
  destruct survivors as [|first rest]; simpl; [done|].
  intros [= <-]. destruct (fold_higher rest first) as (Hin & Hfirst & Hall).
  split.
  - destruct Hin as [-> | Hin]; auto.
  - intros w [<- | Hw]; auto.
Qed.

Lemma highest_None survivors : highest survivors = None <-> survivors = [].
Proof. destruct survivors; simpl; split; congruence. Qed.

Lemma highest_is_Some survivors : survivors <> [] -> exists v, highest survivors = Some v.
Proof. destruct survivors; [done|]. simpl. eauto. Qed.

(** Copies of one string have that string as their highest. *)
Lemma highest_constant survivors v :
  survivors <> [] -> (forall w, In w survivors -> w = v) -> highest survivors = Some v.
Proof.
  intros Hne Hall. destruct (highest_is_Some survivors Hne) as [r Hr].
  rewrite Hr. f_equal. apply Hall. by apply highest_Some.
Qed.

Lemma selectVersion_Some md range cutoff ignoreAge v :
  selectVersion md range cutoff ignoreAge = Some v ->
  In v (candidateVersions md)
  /\ qualifies md range cutoff ignoreAge v = true
  /\ forall w, In w (candidateVersions md) ->
               qualifies md range cutoff ignoreAge w = true -> notBelow v w.
Proof.
  unfold selectVersion. intros H. apply highest_Some in H as [Hin Hmax].
  apply filter_In in Hin as [Hin Hq]. repeat split; auto.
  intros w Hw Hqw. apply Hmax. apply filter_In. auto.
Qed.

Lemma selectVersion_None md range cutoff ignoreAge :
  selectVersion md range cutoff ignoreAge = None <->
  forall w, In w (candidateVersions md) -> qualifies md range cutoff ignoreAge w = false.
Proof.
  unfold selectVersion. rewrite highest_None. split.
  - intros E w Hw. destruct (qualifies md range cutoff ignoreAge w) eqn:Hq; [|done].
    assert (In w (List.filter (qualifies md range cutoff ignoreAge) (candidateVersions md)))
      as Hin by (apply filter_In; auto).
    rewrite E in Hin. destruct Hin.
  - intros Hall.
    destruct (List.filter _ (candidateVersions md)) as [|w l] eqn:E; [done|].
    assert (In w (w :: l)) as Hin by (by left).
    rewrite <- E in Hin. apply filter_In in Hin as [Hin Hq].
    rewrite (Hall w Hin) in Hq. done.
Qed.

End Highest.

Section ResolverProperties.
Import Registry Resolver.

Lemma resolveSafeVersion_fetched backend request md :
  fetchMetadata backend (Request.registry request) (Request.name request) = Returns md ->
  resolveSafeVersion backend request =
  Returns (selectVersion md (Request.range request) (Request.cutoffDate request)
             (Request.ignoreAge request)).
Proof. unfold resolveSafeVersion. by intros ->. Qed.

Lemma oldEnough_inv md cutoff v :
  oldEnough md cutoff v = true ->
  exists stamp t c,
    publishTimes md !! v = Some stamp /\ JsDate.parseTimestamp stamp = Some t
    /\ cutoff = JsDate.DateAt c /\ t < c.
Proof.
  unfold oldEnough, earlier.
  destruct (publishTimes md !! v) as [stamp|] eqn:Estamp; [|done].
  destruct (JsDate.parseTimestamp stamp) as [t|] eqn:Etime; [|done].
  destruct cutoff as [c|]; [|done].
  intros H. exists stamp, t, c. do 3 (split; [done|]). by apply Z.ltb_lt.
Qed.

Lemma oldEnough_unknown md cutoff v :
  (publishTimes md !! v = None
   \/ exists stamp, publishTimes md !! v = Some stamp /\ JsDate.parseTimestamp stamp = None) ->
  oldEnough md cutoff v = false.
Proof.
  unfold oldEnough. intros [-> | (stamp & -> & ->)]; done.
Qed.

Lemma qualifies_withoutVersion md v range cutoff ignoreAge w :
  qualifies (withoutVersion md v) range cutoff ignoreAge w
  = qualifies md range cutoff ignoreAge w.
Proof. reflexivity. Qed.

Lemma filter_filter_out (p : string -> bool) (v : string) (l : list string) :
  p v = false ->
  List.filter p (List.filter (fun w => negb (String.eqb w v)) l) = List.filter p l.
Proof.
  intros Hv. induction l as [|w l IH]; simpl; [done|].
  destruct (String.eqb_spec w v) as [-> | Hne]; simpl.
  - by rewrite Hv.
  - by rewrite IH.
Qed.

Lemma filter_swap (p q : string -> bool) (l : list string) :
  List.filter p (List.filter q l) = List.filter q (List.filter p l).
Proof.
  induction l as [|w l IH]; simpl; [done|].
  destruct (p w) eqn:Hp, (q w) eqn:Hq; simpl; rewrite ?Hp, ?Hq, ?IH; done.
Qed.

Lemma selectVersion_withoutVersion md v range cutoff ignoreAge :
  qualifies md range cutoff ignoreAge v = false ->
  selectVersion (withoutVersion md v) range cutoff ignoreAge
  = selectVersion md range cutoff ignoreAge.
Proof.
  intros Hq. unfold selectVersion, candidateVersions. simpl. f_equal.
  rewrite (filter_swap _ (fun w => negb (String.eqb w v))).
  rewrite filter_filter_out; [|exact Hq]. done.
Qed.

(** C1. Whenever the metadata of a package can be fetched, resolution
    returns a result; a returned version is a candidate that satisfies the
    range and the age requirement and no such candidate is above it in
    semver precedence, so of two qualifying versions [v1 < v2] the lower
    [v1] is never the answer; a version is returned as soon as one
    qualifies. For the package [alpha] with 1.0.0 (400 days old), 1.1.0
    (150 days old) and 1.2.0 (20 days old) and a minimum age of 90 days,
    the range [*] resolves to 1.1.0. *)
Theorem resolution_selects_highest :
  (forall backend request md,
      fetchMetadata backend (Request.registry request) (Request.name request) = Returns md ->
      let qualifying :=
        qualifies md (Request.range request) (Request.cutoffDate request)
          (Request.ignoreAge request) in
      exists result,
        resolveSafeVersion backend request = Returns result
        /\ (forall v, result = Some v ->
              In v (candidateVersions md) /\ qualifying v = true
              /\ forall w, In w (candidateVersions md) -> qualifying w = true -> notBelow v w)
        /\ (forall v1 v2,
              In v1 (candidateVersions md) -> In v2 (candidateVersions md) ->
              qualifying v1 = true -> qualifying v2 = true ->
              Semver.compareVersions v1 v2 = Lt -> result <> Some v1)
        /\ ((exists w, In w (candidateVersions md) /\ qualifying w = true) ->
            exists v, result = Some v))
  /\ resolveSafeVersion (Fixtures.createFixtureFile [Fixtures.alpha])
       (Request.mk "alpha" "*" DEFAULT_REGISTRY Fixtures.cutoff90 false)
     = Returns (Some "1.1.0").
Proof.
  split; [|by vm_compute].
  intros backend request md Hfetch qualifying.
  eexists. split; [by apply resolveSafeVersion_fetched|].
  split; [|split].
  - intros v Hv. by apply selectVersion_Some.
  - intros v1 v2 _ H2 _ Hq2 Hlt Hv1.
    apply selectVersion_Some in Hv1 as (_ & _ & Hmax).
    by apply (Hmax v2 H2 Hq2).
  - intros (w & Hw & Hq).
    destruct (selectVersion md (Request.range request) (Request.cutoffDate request)
                (Request.ignoreAge request)) as [v|] eqn:E; [eauto|].
    rewrite selectVersion_None in E. specialize (E w Hw).
    unfold qualifying in Hq. congruence.
Qed.

Lemma resolution_selects_highest_witness :
  fetchMetadata (Fixtures.createFixtureFile [Fixtures.alpha]) DEFAULT_REGISTRY "alpha"
  = Returns Fixtures.alpha
  /\ exists result,
       resolveSafeVersion (Fixtures.createFixtureFile [Fixtures.alpha])
         (Request.mk "alpha" "*" DEFAULT_REGISTRY Fixtures.cutoff90 false)
       = Returns result
       /\ (forall v, result = Some v -> In v (candidateVersions Fixtures.alpha)).
Proof.
  assert (fetchMetadata (Fixtures.createFixtureFile [Fixtures.alpha]) DEFAULT_REGISTRY "alpha"
          = Returns Fixtures.alpha) as Hfetch by (vm_compute; reflexivity).
  split; [exact Hfetch|].
  destruct (proj1 resolution_selects_highest (Fixtures.createFixtureFile [Fixtures.alpha])
              (Request.mk "alpha" "*" DEFAULT_REGISTRY Fixtures.cutoff90 false)
              Fixtures.alpha Hfetch)
    as (result & Hres & Hmax & _).
  exists result. split; [exact Hres|].
  intros v Hv. exact (proj1 (Hmax v Hv)).
Defined.

(** C2. With age filtering active ([ignoreAge] false) a version qualifies,
    and so can be the answer, only if its [publishTimes] entry exists,
    parses to a timestamp, and the timestamp is strictly earlier than the
    cutoff. A version whose timestamp is missing or does not parse does not
    qualify and is never the answer; the resolution still returns, with the
    result it has when that version is left out of [versions]. *)
Theorem age_filter_needs_known_publish_time :
  forall md range cutoff,
    (forall v, qualifies md range cutoff false v = true ->
       exists stamp t c,
         publishTimes md !! v = Some stamp /\ JsDate.parseTimestamp stamp = Some t
         /\ cutoff = JsDate.DateAt c /\ t < c)
    /\ (forall v, selectVersion md range cutoff false = Some v ->
          exists stamp t c,
            publishTimes md !! v = Some stamp /\ JsDate.parseTimestamp stamp = Some t
            /\ cutoff = JsDate.DateAt c /\ t < c)
    /\ (forall v,
          (publishTimes md !! v = None
           \/ exists stamp, publishTimes md !! v = Some stamp
                            /\ JsDate.parseTimestamp stamp = None) ->
          qualifies md range cutoff false v = false
          /\ selectVersion md range cutoff false <> Some v
          /\ selectVersion md range cutoff false
             = selectVersion (withoutVersion md v) range cutoff false)
    /\ (forall backend request,
          fetchMetadata backend (Request.registry request) (Request.name request)
          = Returns md ->
          exists result, resolveSafeVersion backend request = Returns result).
Proof.
  intros md range cutoff.
  assert (forall v, qualifies md range cutoff false v = true ->
            oldEnough md cutoff v = true) as Hold.
  { intros v. unfold qualifies. rewrite andb_true_iff. simpl. tauto. }
  split; [|split; [|split]].
  - intros v Hq. apply oldEnough_inv. auto.
  - intros v Hv. apply selectVersion_Some in Hv as (_ & Hq & _).
    apply oldEnough_inv. auto.
  - intros v Hunknown.
    assert (qualifies md range cutoff false v = false) as Hq.
    { unfold qualifies. rewrite (oldEnough_unknown md cutoff v Hunknown).
      simpl. apply andb_false_r. }
    split; [exact Hq|]. split.
    + intros Hv. apply selectVersion_Some in Hv as (_ & Hq' & _). congruence.
    + symmetry. by apply selectVersion_withoutVersion.
  - intros backend request Hfetch. eexists. by apply resolveSafeVersion_fetched.
Qed.

Lemma age_filter_needs_known_publish_time_witness :
  (selectVersion Fixtures.alpha "*" Fixtures.cutoff90 false = Some "1.1.0"
   /\ exists stamp t c,
        publishTimes Fixtures.alpha !! "1.1.0" = Some stamp
        /\ JsDate.parseTimestamp stamp = Some t
        /\ Fixtures.cutoff90 = JsDate.DateAt c /\ t < c)
  /\ (publishTimes Fixtures.undated !! "3.0.0" = None
      /\ selectVersion Fixtures.undated "*" Fixtures.cutoff90 false <> Some "3.0.0")
  /\ ((exists stamp, publishTimes Fixtures.undated !! "2.0.0" = Some stamp
                     /\ JsDate.parseTimestamp stamp = None)
      /\ selectVersion Fixtures.undated "*" Fixtures.cutoff90 false <> Some "2.0.0").
Proof.
  split; [|split].
  - assert (selectVersion Fixtures.alpha "*" Fixtures.cutoff90 false = Some "1.1.0")
      as Hsel by (vm_compute; reflexivity).
    split; [exact Hsel|].
    exact (proj1 (proj2 (age_filter_needs_known_publish_time
                           Fixtures.alpha "*" Fixtures.cutoff90)) "1.1.0" Hsel).
  - assert (publishTimes Fixtures.undated !! "3.0.0" = None)
      as Hnone by (vm_compute; reflexivity).
    split; [exact Hnone|].
    exact (proj1 (proj2 (proj1 (proj2 (proj2 (age_filter_needs_known_publish_time
             Fixtures.undated "*" Fixtures.cutoff90))) "3.0.0" (or_introl Hnone)))).
  - assert (exists stamp, publishTimes Fixtures.undated !! "2.0.0" = Some stamp
                          /\ JsDate.parseTimestamp stamp = None) as Hbad.
    { exists "last spring". split; vm_compute; reflexivity. }
    split; [exact Hbad|].
    exact (proj1 (proj2 (proj1 (proj2 (proj2 (age_filter_needs_known_publish_time
             Fixtures.undated "*" Fixtures.cutoff90))) "2.0.0" (or_intror Hbad)))).
Defined.

Example undated_resolves :
  selectVersion Fixtures.undated "*" Fixtures.cutoff90 false = Some "1.0.0"
  /\ selectVersion Fixtures.undated "*" Fixtures.cutoff90 true = Some "3.0.0".
Proof. split; vm_compute; reflexivity. Qed.

Lemma matchesRange_latest md v :
  matchesRange md "latest" v = true <-> distTags md !! "latest" = Some v.
Proof.
  unfold matchesRange. simpl.
  destruct (distTags md !! "latest") as [tagged|]; [|split; done].
  rewrite String.eqb_eq. split; [intros ->; done | intros [= ->]; done].
Qed.

(** On the specification's algorithm the literal range [latest] resolves to
    the tagged version when it is a candidate and passes the age filter, and
    to nothing otherwise. *)
Lemma resolveSafeVersion_latest :
  forall backend request md,
    Request.range request = "latest" ->
    fetchMetadata backend (Request.registry request) (Request.name request) = Returns md ->
    resolveSafeVersion backend request =
    Returns
      (match distTags md !! "latest" with
       | Some tagged =>
           if existsb (String.eqb tagged) (candidateVersions md)
              && (Request.ignoreAge request
                  || oldEnough md (Request.cutoffDate request) tagged)
           then Some tagged else None
       | None => None
       end).
Proof.
  intros backend request md Hrange Hfetch.
  rewrite (resolveSafeVersion_fetched _ _ _ Hfetch), Hrange. f_equal.
  set (cutoff := Request.cutoffDate request). set (ig := Request.ignoreAge request).
  destruct (distTags md !! "latest") as [tagged|] eqn:Etag.
  - destruct (existsb (String.eqb tagged) (candidateVersions md)
              && (ig || oldEnough md cutoff tagged)) eqn:Hcond.
    + apply andb_true_iff in Hcond as [Hin Hage].
      apply existsb_exists in Hin as (w & Hw & Heq). apply String.eqb_eq in Heq. subst w.
      unfold selectVersion. apply highest_constant.
      * intros Hnil.
        assert (In tagged (List.filter (qualifies md "latest" cutoff ig) (candidateVersions md)))
          as Hin.
        { apply filter_In. split; [done|]. unfold qualifies.
          rewrite Hage, andb_true_r. by apply matchesRange_latest. }
        rewrite Hnil in Hin. destruct Hin.
      * intros w' Hw'. apply filter_In in Hw' as [_ Hq].
        unfold qualifies in Hq. apply andb_true_iff in Hq as [Hm _].
        apply matchesRange_latest in Hm. congruence.
    + apply selectVersion_None. intros w Hw.
      destruct (qualifies md "latest" cutoff ig w) eqn:Hq; [|done].
      unfold qualifies in Hq. apply andb_true_iff in Hq as [Hm Hage].
      apply matchesRange_latest in Hm. assert (w = tagged) as -> by congruence.
      rewrite Hage, andb_true_r in Hcond.
      assert (existsb (String.eqb tagged) (candidateVersions md) = true) as Hex.
      { apply existsb_exists. exists tagged. split; [done|]. apply String.eqb_refl. }
      congruence.
  - apply selectVersion_None. intros w Hw.
    destruct (qualifies md "latest" cutoff ig w) eqn:Hq; [|done].
    unfold qualifies in Hq. apply andb_true_iff in Hq as [Hm _].
    apply matchesRange_latest in Hm. congruence.
Qed.

End ResolverProperties.

(** ** Package specs *)

Section PackageSpecs.
Import JsString.

Lemma indexOf_None c s : contains c s = false -> indexOf c s = None.
Proof.
  induction s as [|x s IH]; simpl; [done|].
  destruct (Ascii.eqb x c); simpl; [done|]. intros H. by rewrite IH.
Qed.

Lemma indexOf_first c a b :
  contains c a = false -> indexOf c (a +:+ String c b) = Some (String.length a).
Proof.
  induction a as [|x a IH]; simpl.
  - intros _. by rewrite Ascii.eqb_refl.
  - destruct (Ascii.eqb x c); simpl; [done|].
    intros H. by rewrite IH.
Qed.

Lemma lastIndexOf_None c s : contains c s = false -> lastIndexOf c s = None.
Proof.
  induction s as [|x s IH]; simpl; [done|].
  destruct (Ascii.eqb x c); simpl; [done|]. intros H. by rewrite IH.
Qed.

Lemma lastIndexOf_last c a b :
  contains c b = false -> lastIndexOf c (a +:+ String c b) = Some (String.length a).
Proof.
  intros Hb. induction a as [|x a IH]; simpl.
  - by rewrite (lastIndexOf_None c b Hb), Ascii.eqb_refl.
  - by rewrite IH.
Qed.

Lemma sliceTo_append a b : sliceTo (String.length a) (a +:+ b) = a.
Proof.
  induction a as [|x a IH]; simpl; [done|]. by rewrite IH.
Qed.

Lemma sliceFrom_append a c b : sliceFrom (String.length a + 1) (a +:+ String c b) = b.
Proof.
  induction a as [|x a IH]; simpl; done.
Qed.

Lemma truthy_nonempty s : truthy s = true <-> s <> EmptyString.
Proof. destruct s; simpl; split; congruence. Qed.

Lemma orElse_nonempty a : orElse a "latest" <> EmptyString.
Proof. unfold orElse. destruct a; simpl; congruence. Qed.

Lemma length_positive s : s <> EmptyString -> exists n, String.length s = S n.
Proof. destruct s; [done|]. simpl. eauto. Qed.

(** C9. [parsePackageSpec] throws on the empty string and maps every other
    spec to a name and a non-empty range. A spec that starts with [@]
    splits at its second [@] and has the range [latest] when there is no
    second [@]; any other spec splits at its last [@]; a spec without a
    suffix, or with an empty suffix after the [@], has the range
    [latest]. *)
Theorem parsePackageSpec_total :
  parsePackageSpec EmptyString = Throws (ErrorInstance "Empty package spec provided")
  /\ (forall spec, spec <> EmptyString ->
        exists name range,
          parsePackageSpec spec = Returns (mkSpec name range) /\ range <> EmptyString)
  /\ (forall rest, contains "@" rest = false ->
        parsePackageSpec ("@" +:+ rest) = Returns (mkSpec ("@" +:+ rest) "latest"))
  /\ (forall scoped rest, contains "@" scoped = false ->
        parsePackageSpec ("@" +:+ scoped +:+ "@" +:+ rest)
        = Returns (mkSpec ("@" +:+ scoped) (if truthy rest then rest else "latest")))
  /\ (forall name range,
        name <> EmptyString -> startsWith "@" name = false -> contains "@" range = false ->
        parsePackageSpec (name +:+ "@" +:+ range)
        = Returns (mkSpec name (if truthy range then range else "latest")))
  /\ (forall spec, spec <> EmptyString -> contains "@" spec = false ->
        parsePackageSpec spec = Returns (mkSpec spec "latest")).
Proof.
  split; [reflexivity|]. split; [|split; [|split; [|split]]].
  - intros spec Hne. unfold parsePackageSpec.
    apply truthy_nonempty in Hne. rewrite Hne. simpl.
    destruct (startsWith "@" spec).
    + destruct (indexOfFrom "@" 1 spec); eexists _, _; (split; [reflexivity|]);
        [apply orElse_nonempty | done].
    + destruct (lastIndexOf "@" spec) as [[|n]|]; eexists _, _; (split; [reflexivity|]);
        [done | apply orElse_nonempty | done].
  - intros rest Hrest. change ("@" +:+ rest) with (String "@" rest).
    unfold parsePackageSpec, indexOfFrom. simpl.
    by rewrite (indexOf_None _ _ Hrest).
  - intros scoped rest Hscoped.
    change ("@" +:+ scoped +:+ "@" +:+ rest) with (String "@" (scoped +:+ String "@" rest)).
    change ("@" +:+ scoped) with (String "@" scoped).
    unfold parsePackageSpec, indexOfFrom.
    simpl. rewrite (indexOf_first _ _ _ Hscoped). simpl.
    by rewrite sliceTo_append, sliceFrom_append.
  - intros name range Hne Hscope Hrange. unfold parsePackageSpec.
    change (name +:+ "@" +:+ range) with (name +:+ String "@" range).
    destruct name as [|x name]; [done|]. clear Hne.
    simpl in Hscope.
    assert (truthy (String x name +:+ String "@" range) = true) as -> by done.
    assert (startsWith "@" (String x name +:+ String "@" range) = false) as -> by done.
    simpl negb. cbv iota.
    rewrite (lastIndexOf_last _ _ _ Hrange).
    simpl String.length. cbv iota beta zeta.
    change (S (String.length name)) with (String.length (String x name)).
    by rewrite (sliceFrom_append (String x name) "@" range), sliceTo_append.
  - intros spec Hne Hat. unfold parsePackageSpec.
    apply truthy_nonempty in Hne. rewrite Hne. simpl.
    assert (startsWith "@" spec = false) as ->.
    { destruct spec as [|x spec]; [done|]. simpl in *.
      by destruct (Ascii.eqb x "@"). }
    by rewrite (lastIndexOf_None _ _ Hat).
Qed.

Lemma parsePackageSpec_total_witness :
  parsePackageSpec "@scope/pkg@^1.2.0" = Returns (mkSpec "@scope/pkg" "^1.2.0")
  /\ parsePackageSpec "@scope/pkg" = Returns (mkSpec "@scope/pkg" "latest")
  /\ parsePackageSpec "beta@^2" = Returns (mkSpec "beta" "^2")
  /\ parsePackageSpec "beta@" = Returns (mkSpec "beta" "latest")
  /\ parsePackageSpec "alpha" = Returns (mkSpec "alpha" "latest").
Proof.
  pose proof parsePackageSpec_total as (_ & _ & Hbare & Hscoped & Hplain & Hnone).
  split; [exact (Hscoped "scope/pkg" "^1.2.0" eq_refl)|].
  split; [exact (Hbare "scope/pkg" eq_refl)|].
  split; [exact (Hplain "beta" "^2" ltac:(discriminate) eq_refl eq_refl)|].
  split; [exact (Hplain "beta" EmptyString ltac:(discriminate) eq_refl eq_refl)|].
  exact (Hnone "alpha" ltac:(discriminate) eq_refl).
Defined.

End PackageSpecs.

(** ** Maps in insertion order *)

Section MapFacts.

Lemma set_fresh (m : JsMap.t) key value :
  ~ In key (JsMap.keys m) -> JsMap.set m key value = m ++ [(key, value)].
Proof.
  induction m as [|[k v] m IH]; simpl; [done|].
  intros Hfresh. destruct (String.eqb_spec k key) as [-> | Hne].
  - destruct Hfresh. by left.
  - rewrite IH; [done|]. tauto.
Qed.

Lemma keys_set (m : JsMap.t) key value :
  JsMap.keys (JsMap.set m key value)
  = if JsMap.has m key then JsMap.keys m else JsMap.keys m ++ [key].
Proof.
  unfold JsMap.has. induction m as [|[k v] m IH]; simpl; [done|].
  destruct (String.eqb_spec k key) as [-> | Hne]; simpl; [done|].
  rewrite IH. by destruct (JsMap.get m key).
Qed.

Lemma get_None (m : JsMap.t) key :
  JsMap.get m key = None <-> ~ In key (JsMap.keys m).
Proof.
  induction m as [|[k v] m IH]; simpl; [tauto|].
  destruct (String.eqb_spec k key) as [-> | Hne].
  - split; [done | intros H; destruct H; by left].
  - rewrite IH. split; [intros H [E|Hin]; [done | by apply H] | tauto].
Qed.

Lemma has_keys (m : JsMap.t) key :
  JsMap.has m key = true <-> In key (JsMap.keys m).
Proof.
  unfold JsMap.has. pose proof (get_None m key) as H.
  destruct (JsMap.get m key) as [v|].
  - split; [|done]. intros _.
    destruct (in_dec string_dec key (JsMap.keys m)) as [Hin|Hout]; [done|].
    apply H in Hout. done.
  - split; [done|]. intros Hin. exfalso. apply (proj1 H); done.
Qed.

Lemma get_Some (m : JsMap.t) key value :
  List.NoDup (JsMap.keys m) -> (JsMap.get m key = Some value <-> In (key, value) m).
Proof.
  induction m as [|[k v] m IH]; simpl; [intros _; split; [done | tauto]|].
  intros Hnd. apply List.NoDup_cons_iff in Hnd as [Hk Hnd].
  destruct (String.eqb_spec k key) as [-> | Hne].
  - split.
    + intros [= ->]. by left.
    + intros [[= ->] | Hin]; [done|].
      destruct Hk. apply in_map_iff. by exists (key, value).
  - rewrite (IH Hnd). split; [tauto|]. intros [[= E _] | Hin]; [done | done].
Qed.

Lemma set_NoDup (m : JsMap.t) key value :
  List.NoDup (JsMap.keys m) -> List.NoDup (JsMap.keys (JsMap.set m key value)).
Proof.
  intros Hnd. rewrite keys_set.
  destruct (JsMap.has m key) eqn:Hhas; [done|].
  apply List.NoDup_app; [done | repeat constructor; simpl; tauto |].
  intros k Hk [<- | []]. apply has_keys in Hk. congruence.
Qed.

End MapFacts.

(** ** The resolution loop *)

Section Loop.

Variable oracle : ResolutionRequest -> Completion (option string).
Variable registryUrl : string.
Variable cutoffDate : JsDate.Date.
Variable ignoreSet : gset string.

Local Abbreviation step := (resolveEntry oracle registryUrl cutoffDate ignoreSet).
Local Abbreviation ask := (requestFor registryUrl cutoffDate ignoreSet).
Local Abbreviation version := (versionFor oracle registryUrl cutoffDate ignoreSet).
Local Abbreviation failure := (failureFor oracle registryUrl cutoffDate ignoreSet).
Local Abbreviation success := (fun entry : string * string => pair (fst entry) <$> version entry).

(** One turn of the loop, read through [versionFor] and [failureFor]. *)
Lemma resolveEntry_spec state entry :
  step state entry =
  mkResolution
    (match version entry with
     | Some v => JsMap.set (resolved state) (fst entry) v
     | None => resolved state
     end)
    (failures state ++ match failure entry with Some f => [f] | None => [] end)
    (requests state ++ [ask entry]).
Proof.
  destruct entry as [name range].
  unfold resolveEntry, versionFor, failureFor, requestFor. simpl.
  destruct (oracle _) as [[v|]|[message|]]; simpl; rewrite ?app_nil_r; try done.
  destruct (JsString.truthy v); simpl; rewrite ?app_nil_r; done.
Qed.

(** Every entry ends as a version or as a failure, never both. *)
Lemma version_or_failure entry :
  (is_Some (version entry) /\ failure entry = None)
  \/ (version entry = None /\ is_Some (failure entry)).
Proof.
  unfold versionFor, failureFor.
  destruct (oracle _) as [[v|]|[message|]]; try (right; split; [done | eauto]).
  destruct (JsString.truthy v); [left | right]; split; eauto.
Qed.

Lemma failure_name entry f : failure entry = Some f -> Failure.name f = fst entry.
Proof.
  unfold failureFor.
  destruct (oracle _) as [[v|]|[message|]]; try (intros [= <-]; done).
  destruct (JsString.truthy v); [done | intros [= <-]; done].
Qed.

Lemma fold_requests entries : forall state,
  requests (fold_left step entries state) = requests state ++ map ask entries.
Proof.
  induction entries as [|entry entries IH]; intros state; simpl.
  - by rewrite app_nil_r.
  - rewrite IH, resolveEntry_spec. simpl. by rewrite <- app_assoc.
Qed.

Lemma fold_failures entries : forall state,
  failures (fold_left step entries state) = failures state ++ omap failure entries.
Proof.
  induction entries as [|entry entries IH]; intros state; simpl.
  - by rewrite app_nil_r.
  - rewrite IH, resolveEntry_spec. simpl. rewrite <- app_assoc.
    by destruct (failure entry).
Qed.

Lemma keys_omap_success entries k :
  In k (JsMap.keys (omap success entries)) -> In k (map fst entries).
Proof.
  induction entries as [|entry entries IH]; simpl; [done|].
  destruct (version entry); simpl; [intros [<- | H] | intros H]; auto.
Qed.

Lemma fold_resolved entries : forall state,
  List.NoDup (map fst entries) ->
  (forall k, In k (map fst entries) -> ~ In k (JsMap.keys (resolved state))) ->
  resolved (fold_left step entries state) = resolved state ++ omap success entries.
Proof.
  induction entries as [|entry entries IH]; intros state Hnd Hfresh; simpl.
  - by rewrite app_nil_r.
  - apply List.NoDup_cons_iff in Hnd as [Hentry Hnd].
    rewrite IH; [|done|].
    + rewrite resolveEntry_spec. simpl.
      destruct (version entry) as [v|]; simpl; [|done].
      rewrite set_fresh; [by rewrite <- app_assoc|].
      apply Hfresh. by left.
    + intros k Hk. rewrite resolveEntry_spec. simpl.
      destruct (version entry) as [v|]; simpl; [|apply Hfresh; by right].
      rewrite keys_set. destruct (JsMap.has (resolved state) (fst entry)).
      * apply Hfresh. by right.
      * intros Hin. apply in_app_iff in Hin as [Hin | [<- | []]].
        -- apply (Hfresh k); [by right | done].
        -- done.
Qed.

(** What [resolveAll] leaves behind. *)
Lemma resolveAll_spec (dependencyMap : JsMap.t) :
  let result := resolveAll oracle registryUrl cutoffDate ignoreSet dependencyMap in
  requests result = map ask (JsMap.entries dependencyMap)
  /\ failures result = omap failure (JsMap.entries dependencyMap)
  /\ (List.NoDup (JsMap.keys dependencyMap) ->
      resolved result = omap success (JsMap.entries dependencyMap)).
Proof.
  unfold resolveAll. split; [|split].
  - by rewrite fold_requests.
  - by rewrite fold_failures.
  - intros Hnd. rewrite fold_resolved; [done | done | simpl; tauto].
Qed.

Lemma omap_success_In entries k v :
  In (k, v) (omap success entries) <->
  exists range, In (k, range) entries /\ version (k, range) = Some v.
Proof.
  induction entries as [|[name range] entries IH]; simpl.
  - split; [done | intros (? & [] & _)].
  - destruct (version (name, range)) as [v'|] eqn:E; simpl.
    + rewrite IH. split.
      * intros [[= -> ->] | (r & Hin & Hv)]; [exists range | exists r]; auto.
      * intros (r & [[= -> ->] | Hin] & Hv); [left; congruence | right; eauto].
    + rewrite IH. split.
      * intros (r & Hin & Hv). eauto.
      * intros (r & [[= -> ->] | Hin] & Hv); [congruence | eauto].
Qed.

Lemma omap_success_NoDup entries :
  List.NoDup (map fst entries) -> List.NoDup (JsMap.keys (omap success entries)).
Proof.
  induction entries as [|entry entries IH]; simpl; [constructor|].
  intros Hnd. apply List.NoDup_cons_iff in Hnd as [Hentry Hnd].
  destruct (version entry); simpl; [|by apply IH].
  constructor; [|by apply IH]. intros Hin. by apply keys_omap_success in Hin.
Qed.

Lemma get_omap_success entries name range :
  List.NoDup (map fst entries) -> In (name, range) entries ->
  JsMap.get (omap success entries) name = version (name, range).
Proof.
  intros Hnd Hin.
  destruct (version (name, range)) as [v|] eqn:E.
  - apply get_Some; [by apply omap_success_NoDup|]. apply omap_success_In. eauto.
  - apply get_None. intros Hk. apply in_map_iff in Hk as ([k v] & Hfst & Hkv).
    simpl in Hfst. subst k. apply omap_success_In in Hkv as (r & Hr & Hv).
    assert (r = range) as ->; [|congruence].
    clear -Hnd Hin Hr. induction entries as [|[n r'] entries IH]; [done|].
    simpl in Hnd. apply List.NoDup_cons_iff in Hnd as [Hn Hnd].
    destruct Hin as [Hin | Hin], Hr as [Hr | Hr]; auto.
    + congruence.
    + injection Hin as -> ->. destruct Hn. apply in_map_iff. by exists (name, r).
    + injection Hr as -> ->. destruct Hn. apply in_map_iff. by exists (name, range).
Qed.

Lemma filter_omap_failure entries name range :
  List.NoDup (map fst entries) -> In (name, range) entries ->
  List.filter (fun f => String.eqb (Failure.name f) name) (omap failure entries)
  = match failure (name, range) with Some f => [f] | None => [] end.
Proof.
  assert (forall l, ~ In name (map fst l) ->
            List.filter (fun f => String.eqb (Failure.name f) name) (omap failure l) = [])
    as Hothers.
  { induction l as [|entry l IH]; simpl; [done|]. intros Hout.
    destruct (failure entry) as [f|] eqn:E; simpl; [|apply IH; tauto].
    rewrite (failure_name _ _ E).
    destruct (String.eqb_spec (fst entry) name) as [Heq | Hne]; [tauto | apply IH; tauto]. }
  induction entries as [|entry entries IH]; simpl; [done|].
  intros Hnd Hin. apply List.NoDup_cons_iff in Hnd as [Hentry Hnd].
  destruct Hin as [-> | Hin].
  - simpl in Hentry.
    destruct (failure (name, range)) as [f|] eqn:E; simpl; [|by apply Hothers].
    rewrite (failure_name _ _ E). simpl. rewrite String.eqb_refl.
    by rewrite Hothers.
  - assert (fst entry <> name) as Hne.
    { intros <-. apply Hentry. apply in_map_iff. by exists (fst entry, range). }
    destruct (failure entry) as [f|] eqn:E; simpl; [|by apply IH].
    rewrite (failure_name _ _ E).
    destruct (String.eqb_spec (fst entry) name); [done | by apply IH].
Qed.

End Loop.

(** ** Runs of the process *)

Section Runs.

Context {A B : Type}.

Lemma bind_run (m : Cli A) (k : A -> Cli B) w :
  (m ≫= k) w =
  match m w with
  | (Next a, w') => k a w'
  | (Exit code, w') => (Exit code, w')
  | (Rejected e, w') => (Rejected e, w')
  end.
Proof. reflexivity. Qed.

Lemma bind_next (m : Cli A) (k : A -> Cli B) w a w' :
  m w = (Next a, w') -> (m ≫= k) w = k a w'.
Proof. intros E. by rewrite bind_run, E. Qed.

Lemma bind_exit (m : Cli A) (k : A -> Cli B) w code w' :
  m w = (Exit code, w') -> (m ≫= k) w = (Exit code, w').
Proof. intros E. by rewrite bind_run, E. Qed.

Lemma silent_bind (m : Cli A) (k : A -> Cli B) :
  silent m -> (forall a, silent (k a)) -> silent (m ≫= k).
Proof.
  intros Hm Hk w. rewrite bind_run. specialize (Hm w).
  destruct (m w) as [[a|code|e] w']; simpl in *; [|done|done].
  by rewrite (Hk a w').
Qed.

Lemma steady_bind (m : Cli A) (k : A -> Cli B) :
  steady m -> (forall a, steady (k a)) -> steady (m ≫= k).
Proof.
  intros Hm Hk w e. rewrite bind_run. specialize (Hm w).
  destruct (m w) as [[a|code|e'] w']; simpl in *; [apply Hk | done | by destruct (Hm e')].
Qed.

Lemma finishes_bind (m : Cli A) (k : A -> Cli B) :
  steady m -> (forall a, finishes (k a)) -> finishes (m ≫= k).
Proof.
  intros Hm Hk w. rewrite bind_run. specialize (Hm w).
  destruct (m w) as [[a|code|e'] w']; simpl in *; [apply Hk | eauto | by destruct (Hm e')].
Qed.

End Runs.

Lemma finishes_steady {A : Type} (m : Cli A) : finishes m -> steady m.
Proof. intros H w e. destruct (H w) as [code ->]. done. Qed.

Lemma silent_ret {A : Type} (a : A) : silent (mret a : Cli A).
Proof. done. Qed.
Lemma steady_ret {A : Type} (a : A) : steady (mret a : Cli A).
Proof. done. Qed.
Lemma silent_log text : silent (log text).
Proof. done. Qed.
Lemma steady_log text : steady (log text).
Proof. done. Qed.
Lemma silent_logError text : silent (logError text).
Proof. done. Qed.
Lemma steady_logError text : steady (logError text).
Proof. done. Qed.
Lemma silent_exit {A : Type} code : silent (exit code : Cli A).
Proof. done. Qed.
Lemma finishes_exit {A : Type} code : finishes (exit code : Cli A).
Proof. intros w. by exists code. Qed.
Lemma silent_reject {A : Type} e : silent (reject e : Cli A).
Proof. done. Qed.
Lemma silent_readPackageJson : silent readPackageJson.
Proof. intros w. unfold readPackageJson. by destruct (packageJsonFile w) as [[pkg|e]|]. Qed.
Lemma silent_writePackageJson pkg : silent (writePackageJson pkg).
Proof. done. Qed.
Lemma steady_writePackageJson pkg : steady (writePackageJson pkg).
Proof. done. Qed.
Lemma silent_spawnSync status command args : silent (spawnSync status command args).
Proof. done. Qed.
Lemma steady_spawnSync status command args : steady (spawnSync status command args).
Proof. done. Qed.

Lemma silent_when condition action : silent action -> silent (when condition action).
Proof. destruct condition; [done | intros _; apply silent_ret]. Qed.
Lemma steady_when condition action : steady action -> steady (when condition action).
Proof. destruct condition; [done | intros _; apply steady_ret]. Qed.

Lemma silent_forEach {A : Type} (items : list A) body :
  (forall item, silent (body item)) -> silent (forEach items body).
Proof.
  intros H. induction items as [|item items IH]; simpl; [apply silent_ret|].
  apply silent_bind; auto.
Qed.
Lemma steady_forEach {A : Type} (items : list A) body :
  (forall item, steady (body item)) -> steady (forEach items body).
Proof.
  intros H. induction items as [|item items IH]; simpl; [apply steady_ret|].
  apply steady_bind; auto.
Qed.

Create HintDb runs.
#[local] Hint Resolve silent_ret steady_ret silent_log steady_log silent_logError
  steady_logError silent_exit finishes_exit silent_reject silent_readPackageJson
  silent_writePackageJson steady_writePackageJson
  silent_spawnSync steady_spawnSync silent_when steady_when silent_forEach
  steady_forEach finishes_steady : runs.
#[local] Hint Extern 2 (silent (_ ≫= _)) => apply silent_bind; [|intros ?] : runs.
#[local] Hint Extern 2 (steady (_ ≫= _)) => apply steady_bind; [|intros ?] : runs.
#[local] Hint Extern 2 (finishes (_ ≫= _)) => apply finishes_bind; [|intros ?] : runs.

Lemma silent_runStrategy status strategyName resolvedVersions registryUrl manager :
  silent (runStrategy status strategyName resolvedVersions registryUrl manager).
Proof.
  unfold runStrategy.
  destruct (String.eqb strategyName "direct"); [destruct manager; auto 10 with runs|].
  destruct (String.eqb strategyName "overrides"); [|auto 10 with runs].
  apply silent_bind; [auto with runs|]. intros [pkg|]; [|auto 10 with runs].
  destruct manager; auto 10 with runs.
Qed.


Lemma silent_reportOutcome options ignoreSet result :
  silent (reportOutcome options ignoreSet result).
Proof. unfold reportOutcome. auto 20 with runs. Qed.

Lemma steady_reportOutcome options ignoreSet result :
  steady (reportOutcome options ignoreSet result).
Proof. unfold reportOutcome. auto 20 with runs. Qed.

Lemma withLines_nil w : withLines w [] = w.
Proof. destruct w. unfold withLines. simpl. by rewrite app_nil_r. Qed.

Lemma withLines_app w a b : withLines (withLines w a) b = withLines w (a ++ b).
Proof. unfold withLines. simpl. by rewrite map_app, app_assoc. Qed.

Lemma log_run text w : log text w = (Next tt, withLines w [text]).
Proof. reflexivity. Qed.

Lemma forEach_log {A : Type} (items : list A) (line : A -> string) w :
  forEach items (fun item => log (line item)) w = (Next tt, withLines w (map line items)).
Proof.
  revert w. induction items as [|item items IH]; intros w; simpl.
  - by rewrite withLines_nil.
  - rewrite bind_run, log_run, IH, withLines_app. done.
Qed.

(** The report prints exactly [reportLines], in that order. *)
Lemma reportOutcome_lines options ignoreSet result w :
  (reportOutcome options ignoreSet result w).2
  = withLines w (reportLines options ignoreSet result).
Proof.
  unfold reportOutcome, reportLines.
  destruct (0 <? length (failures result))%nat eqn:Hfailed;
    destruct (strict options) eqn:Hstrict;
    destruct (JsMap.size (resolved result) =? 0)%nat eqn:Hnone;
    destruct (dryRun options) eqn:Hdry;
    unfold when; simpl;
    repeat (rewrite ?bind_run, ?log_run, ?forEach_log, ?withLines_app; simpl);
    unfold withLines; simpl; f_equal;
    repeat (rewrite ?map_app, <- ?app_assoc, ?app_nil_r; simpl);
    reflexivity.
Qed.

Lemma silent_normalizePackageManager value : silent (normalizePackageManager value).
Proof.
  unfold normalizePackageManager.
  repeat match goal with |- context [if ?c then _ else _] => destruct c end;
    auto 10 with runs.
Qed.

Lemma silent_collectDependencies packages devOnly prodOnlyFlag :
  silent (collectDependencies packages devOnly prodOnlyFlag).
Proof.
  unfold collectDependencies. destruct (0 <? length packages)%nat.
  - destruct (collectFromArgs packages); auto with runs.
  - apply silent_bind; [auto with runs|]. intros [pkg|]; auto 10 with runs.
Qed.

(** A silent first step either ends the run without a call to the resolver
    or hands over to the rest. *)
Lemma step_silent {A B : Type} (m : Cli A) (k : A -> Cli B) w (P : Flow B * World -> Prop) :
  silent m ->
  (forall code w', resolverCalls w' = resolverCalls w -> P (Exit code, w')) ->
  (forall e w', resolverCalls w' = resolverCalls w -> P (Rejected e, w')) ->
  (forall a w', resolverCalls w' = resolverCalls w -> P (k a w')) ->
  P ((m ≫= k) w).
Proof.
  intros Hm Hexit Hreject Hnext. rewrite bind_run. specialize (Hm w).
  destruct (m w) as [[a|code|e] w']; simpl in Hm; auto.
Qed.

Lemma newDate_valid t t' : JsDate.newDate t = JsDate.DateAt t' -> t' = t.
Proof. unfold JsDate.newDate. destruct (_ <=? _); congruence. Qed.

(** A run of the install action ends before the loop, without a call to the
    resolver, or it asks the resolver once per entry of a dependency map,
    with the cutoff [now - minAgeDays * 24h]. *)
Lemma installAction_run now defaultManager oracle status packages options w :
  let run := installAction now defaultManager oracle status packages options w in
  resolverCalls run.2 = resolverCalls w
  \/ exists days dependencyMap,
       minAgeDays options = Num days /\ 0 <= days
       /\ JsDate.newDate (now - days * 24 * 60 * 60 * 1000)
          = JsDate.DateAt (now - days * 24 * 60 * 60 * 1000)
       /\ resolverCalls run.2
          = resolverCalls w
            ++ requests (resolveAll oracle
                           (if JsString.truthy (registry options) then registry options
                            else DEFAULT_REGISTRY)
                           (JsDate.DateAt (now - days * 24 * 60 * 60 * 1000))
                           (buildIgnoreSet (ignore options)) dependencyMap).
Proof.
  intros run. subst run. unfold installAction.
  set (registryUrl := if JsString.truthy (registry options) then registry options
                      else DEFAULT_REGISTRY).
  set (ignoreSet := buildIgnoreSet (ignore options)).
  match goal with |- ?G => set (P := fun r : Flow unit * World =>
    resolverCalls r.2 = resolverCalls w
    \/ exists days dependencyMap,
         minAgeDays options = Num days /\ 0 <= days
         /\ JsDate.newDate (now - days * 24 * 60 * 60 * 1000)
            = JsDate.DateAt (now - days * 24 * 60 * 60 * 1000)
         /\ resolverCalls r.2
            = resolverCalls w
              ++ requests (resolveAll oracle registryUrl
                             (JsDate.DateAt (now - days * 24 * 60 * 60 * 1000))
                             ignoreSet dependencyMap)) end.
  assert (forall code w', resolverCalls w' = resolverCalls w -> P (Exit code, w'))
    as Hexit by (intros; by left).
  assert (forall e w', resolverCalls w' = resolverCalls w -> P (Rejected e, w'))
    as Hreject by (intros; by left).
  match goal with |- context [(?m ≫= ?k) w] => change (P ((m ≫= k) w)) end.
  destruct (minAgeDays options) as [|days] eqn:Hdays; [by left|].
  destruct (days <? 0) eqn:Hneg; [by left|].
  apply Z.ltb_ge in Hneg.
  rewrite bind_run. simpl.
  apply step_silent; [apply silent_normalizePackageManager | done | done |].
  intros manager w1 H1.
  apply step_silent; [auto 10 with runs | | |].
  { intros; apply Hexit; congruence. } { intros; apply Hreject; congruence. }
  intros _ w2 H2.
  apply step_silent; [apply silent_collectDependencies | | |].
  { intros; apply Hexit; congruence. } { intros; apply Hreject; congruence. }
  intros dependencyMap w3 H3.
  apply step_silent; [auto 10 with runs | | |].
  { intros; apply Hexit; congruence. } { intros; apply Hreject; congruence. }
  intros _ w4 H4.
  destruct (JsDate.newDate (now - days * 24 * 60 * 60 * 1000)) as [t|] eqn:Hdate.
  2:{ rewrite bind_run. simpl. left. simpl. congruence. }
  pose proof (newDate_valid _ _ Hdate) as ->.
  rewrite bind_run. simpl.
  apply step_silent; [auto with runs | | |].
  { intros; apply Hexit; congruence. } { intros; apply Hreject; congruence. }
  intros _ w5 H5.
  rewrite bind_run. unfold runResolution at 1.
  match goal with |- P (?tail ?world) =>
    assert (silent tail) as Hsilent
      by (apply silent_bind; [apply silent_reportOutcome | intros; apply silent_runStrategy]);
    specialize (Hsilent world)
  end.
  right. exists days, dependencyMap.
  split; [done|]. split; [done|]. split; [done|].
  rewrite Hsilent. simpl. congruence.
Qed.

(** ** The dependency maps the program builds have one entry per name *)

Lemma collectFromArgsInto_NoDup specs : forall m result,
  List.NoDup (JsMap.keys m) -> collectFromArgsInto m specs = Returns result ->
  List.NoDup (JsMap.keys result).
Proof.
  induction specs as [|spec specs IH]; intros m result Hnd; simpl.
  - by intros [= <-].
  - destruct (parsePackageSpec spec) as [parsed|e]; [|done].
    apply IH. by apply set_NoDup.
Qed.

Lemma collectFromArgs_NoDup specs result :
  collectFromArgs specs = Returns result -> List.NoDup (JsMap.keys result).
Proof. apply collectFromArgsInto_NoDup. constructor. Qed.

Lemma collectFromPackageJson_NoDup pkg devOnly prodOnlyFlag :
  List.NoDup (JsMap.keys (collectFromPackageJson pkg devOnly prodOnlyFlag)).
Proof.
  assert (forall (l : list (string * string)) m, List.NoDup (JsMap.keys m) ->
            List.NoDup (JsMap.keys (fold_left (fun m entry => JsMap.set m (fst entry) (snd entry)) l m)))
    as Hfold.
  { induction l as [|entry l IH]; intros m Hnd; simpl; [done|].
    apply IH. by apply set_NoDup. }
  unfold collectFromPackageJson.
  destruct (negb devOnly), (negb prodOnlyFlag); repeat apply Hfold; constructor.
Qed.

(** ** What the loop leaves behind *)

Section LoopOrder.

Variable oracle : ResolutionRequest -> Completion (option string).
Variable registryUrl : string.
Variable cutoffDate : JsDate.Date.
Variable ignoreSet : gset string.

Local Abbreviation version := (versionFor oracle registryUrl cutoffDate ignoreSet).
Local Abbreviation failure := (failureFor oracle registryUrl cutoffDate ignoreSet).
Local Abbreviation success := (fun entry : string * string => pair (fst entry) <$> version entry).
Local Abbreviation installed := (fun entry : string * string =>
  match version entry with Some _ => true | None => false end).

Lemma keys_successes (entries : list (string * string)) :
  JsMap.keys (omap success entries) = map fst (List.filter installed entries).
Proof.
  unfold JsMap.keys.
  induction entries as [|entry entries IH]; simpl; [done|].
  destruct (version entry); simpl; [f_equal|]; exact IH.
Qed.

Lemma names_failures (entries : list (string * string)) :
  map Failure.name (omap failure entries)
  = map fst (List.filter (fun entry => negb (installed entry)) entries).
Proof.
  induction entries as [|entry entries IH]; simpl; [done|].
  destruct (version_or_failure oracle registryUrl cutoffDate ignoreSet entry)
    as [[[v Hv] Hf] | [Hv [f Hf]]]; rewrite Hv, Hf; simpl; [exact IH|].
  rewrite (failure_name _ _ _ _ _ _ Hf). f_equal. exact IH.
Qed.

Lemma has_successes (entries : list (string * string)) entry :
  List.NoDup (map fst entries) -> In entry entries ->
  JsMap.has (omap success entries) (fst entry) = installed entry.
Proof.
  intros Hnd Hin. destruct entry as [name range]. unfold JsMap.has. simpl fst.
  by rewrite (get_omap_success _ _ _ _ _ _ _ Hnd Hin).
Qed.

End LoopOrder.

(** ** The ignore set *)

(** The names of the ignore set are the trimmed, non-empty pieces of the
    comma-separated [--ignore] list. *)
Lemma buildIgnoreSet_spec value name :
  name ∈ buildIgnoreSet value <->
  exists text,
    value = Some text /\ name <> EmptyString
    /\ In name (map JsString.trim (JsString.split "," text)).
Proof.
  unfold buildIgnoreSet. destruct value as [text|].
  - destruct text as [|c text]; simpl negb; cbv iota.
    + split; [intros H; by apply not_elem_of_empty in H|].
      intros (text & [= <-] & Hne & [Hin | []]). by destruct Hne.
    + rewrite elem_of_list_to_set, list_elem_of_In, filter_In. split.
      * intros [Hin Hlen]. exists (String c text). split; [done|]. split; [|done].
        intros ->. done.
      * intros (text' & [= <-] & Hne & Hin). split; [done|].
        destruct name; [done | reflexivity].
  - split; [intros H; by apply not_elem_of_empty in H | intros (text & [=] & _)].
Qed.

Example ignore_list_example :
  buildIgnoreSet (Some " alpha , ,@scope/pkg,") = {["alpha"; "@scope/pkg"]}.
Proof. vm_compute. reflexivity. Qed.

(** ** Properties of the install action *)

(** C3. The loop asks the resolver once per entry, with [ignoreAge] set
    exactly for the names of the ignore set, so every request for a name
    listed in [--ignore] carries [ignoreAge = true]. With [ignoreAge] set the
    age filter is skipped: every candidate matching the range qualifies
    whatever its age, and the result does not depend on the cutoff. The
    package [beta] with the single version 2.0.0 and the range [^2.0.0]
    resolves to 2.0.0; the package [alpha] with the single version 1.1.0,
    7 days old, resolves under [ignoreAge] and not without it. *)
Theorem ignored_names_bypass_age_filter :
  (forall oracle registryUrl cutoffDate ignoreSet dependencyMap,
      requests (resolveAll oracle registryUrl cutoffDate ignoreSet dependencyMap)
      = map (fun entry =>
               Request.mk (fst entry) (snd entry) registryUrl cutoffDate
                 (bool_decide (fst entry ∈ ignoreSet)))
          (JsMap.entries dependencyMap))
  /\ (forall oracle registryUrl cutoffDate ignoreSet dependencyMap request,
        In request (requests (resolveAll oracle registryUrl cutoffDate ignoreSet dependencyMap)) ->
        Request.name request ∈ ignoreSet -> Request.ignoreAge request = true)
  /\ (forall now defaultManager oracle status packages options file request,
        In request (resolverCalls
                      (installAction now defaultManager oracle status packages options
                         (startWorld file)).2) ->
        Request.name request ∈ buildIgnoreSet (ignore options) ->
        Request.ignoreAge request = true)
  /\ (forall md range cutoff version,
        Resolver.matchesRange md range version = true ->
        Resolver.qualifies md range cutoff true version = true)
  /\ (forall md range cutoff cutoff',
        Resolver.selectVersion md range cutoff true
        = Resolver.selectVersion md range cutoff' true)
  /\ Resolver.resolveSafeVersion
       (Fixtures.createFixtureFile [Fixtures.alphaSingle; Fixtures.betaSingle])
       (Request.mk "beta" "^2.0.0" DEFAULT_REGISTRY Fixtures.cutoff90 true)
     = Returns (Some "2.0.0")
  /\ Resolver.resolveSafeVersion
       (Fixtures.createFixtureFile [Fixtures.alphaSingle; Fixtures.betaSingle])
       (Request.mk "alpha" "latest" DEFAULT_REGISTRY Fixtures.cutoff90 true)
     = Returns (Some "1.1.0")
  /\ Resolver.resolveSafeVersion
       (Fixtures.createFixtureFile [Fixtures.alphaSingle; Fixtures.betaSingle])
       (Request.mk "alpha" "latest" DEFAULT_REGISTRY Fixtures.cutoff90 false)
     = Returns None.
Proof.
  assert (forall oracle registryUrl cutoffDate ignoreSet dependencyMap request,
            In request (requests (resolveAll oracle registryUrl cutoffDate ignoreSet
                                    dependencyMap)) ->
            Request.name request ∈ ignoreSet -> Request.ignoreAge request = true) as Hloop.
  { intros oracle registryUrl cutoffDate ignoreSet dependencyMap request Hin Hname.
    rewrite (proj1 (resolveAll_spec oracle registryUrl cutoffDate ignoreSet dependencyMap))
      in Hin.
    apply in_map_iff in Hin as (entry & <- & _). simpl in *.
    by apply bool_decide_eq_true. }
  split; [|split; [exact Hloop | split; [|split; [|split]]]].
  - intros. apply (proj1 (resolveAll_spec _ _ _ _ _)).
  - intros now defaultManager oracle status packages options file request Hin Hname.
    destruct (installAction_run now defaultManager oracle status packages options
                (startWorld file)) as [Hnone | (days & dm & _ & _ & _ & Hcalls)].
    + rewrite Hnone in Hin. destruct Hin.
    + rewrite Hcalls in Hin. simpl in Hin. by eapply Hloop.
  - intros md range cutoff version Hmatch. unfold Resolver.qualifies. by rewrite Hmatch.
  - reflexivity.
  - repeat split; vm_compute; reflexivity.
Qed.

Lemma ignored_names_bypass_age_filter_witness :
  Request.ignoreAge
    (Request.mk "alpha" "latest" DEFAULT_REGISTRY Fixtures.cutoff90 true) = true.
Proof.
  apply (proj1 (proj2 ignored_names_bypass_age_filter)
           (Resolver.resolveSafeVersion
              (Fixtures.createFixtureFile [Fixtures.alphaSingle; Fixtures.betaSingle]))
           DEFAULT_REGISTRY Fixtures.cutoff90 (buildIgnoreSet (Some "alpha"))
           [("beta", "^2.0.0"); ("alpha", "latest")]).
  - vm_compute. right. left. reflexivity.
  - vm_compute. reflexivity.
Defined.

(** C6. Over a dependency map (one entry per name), every requested name
    ends in exactly one way. A resolved version: the name is in the resolved
    map with that version and no failure bears the name. No qualifying
    version: exactly one failure bears the name, with the reason "No version
    satisfies the range and age requirement", and the name is not in the
    resolved map. An error: exactly one failure bears the name, with the
    error's message as its reason (or "Unknown error" when the thrown value
    is no [Error]), and the name is not in the resolved map. No name is both
    in the resolved map and in the failure list, and the names in either are
    exactly the requested names. *)
Theorem every_name_has_one_outcome :
  forall oracle registryUrl cutoffDate ignoreSet dependencyMap,
    List.NoDup (JsMap.keys dependencyMap) ->
    let result := resolveAll oracle registryUrl cutoffDate ignoreSet dependencyMap in
    let filed name :=
      List.filter (fun f => String.eqb (Failure.name f) name) (failures result) in
    (forall name range,
        In (name, range) (JsMap.entries dependencyMap) ->
        match oracle (requestFor registryUrl cutoffDate ignoreSet (name, range)) with
        | Returns (Some version) =>
            if JsString.truthy version then
              JsMap.get (resolved result) name = Some version /\ filed name = []
            else
              JsMap.get (resolved result) name = None
              /\ filed name
                 = [Failure.mk name range "No version satisfies the range and age requirement"]
        | Returns None =>
            JsMap.get (resolved result) name = None
            /\ filed name
               = [Failure.mk name range "No version satisfies the range and age requirement"]
        | Throws (ErrorInstance message) =>
            JsMap.get (resolved result) name = None
            /\ filed name = [Failure.mk name range message]
        | Throws NonError =>
            JsMap.get (resolved result) name = None
            /\ filed name = [Failure.mk name range "Unknown error"]
        end)
    /\ (forall name f,
          JsMap.has (resolved result) name = true -> In f (failures result) ->
          Failure.name f <> name)
    /\ (forall name,
          In name (JsMap.keys dependencyMap) <->
          (JsMap.has (resolved result) name = true
           \/ exists f, In f (failures result) /\ Failure.name f = name)).
Proof.
  intros oracle registryUrl cutoffDate ignoreSet dependencyMap Hnd result filed.
  destruct (resolveAll_spec oracle registryUrl cutoffDate ignoreSet dependencyMap)
    as (_ & Hfailures & Hresolved).
  specialize (Hresolved Hnd). fold result in Hfailures, Hresolved.
  unfold JsMap.entries, JsMap.keys in *.
  assert (forall name range, In (name, range) dependencyMap ->
            JsMap.get (resolved result) name
            = versionFor oracle registryUrl cutoffDate ignoreSet (name, range)
            /\ filed name
               = match failureFor oracle registryUrl cutoffDate ignoreSet (name, range) with
                 | Some f => [f] | None => [] end) as Hentry.
  { intros name range Hin. unfold filed. rewrite Hresolved, Hfailures. split.
    - by apply get_omap_success.
    - by apply filter_omap_failure. }
  split; [|split].
  - intros name range Hin. destruct (Hentry name range Hin) as [Hget Hfiled].
    rewrite Hget, Hfiled. unfold versionFor, failureFor.
    destruct (oracle _) as [[v|]|[message|]]; try done.
    destruct (JsString.truthy v); done.
  - intros name f Hhas Hf Hname.
    pose proof (proj1 (has_keys _ _) Hhas) as Hkey. rewrite Hresolved in Hkey.
    apply keys_omap_success in Hkey. apply in_map_iff in Hkey as ([n range] & Hn & Hin).
    simpl in Hn. subst n. destruct (Hentry name range Hin) as [Hget Hfiled].
    assert (In f (filed name)) as Hin_filed.
    { unfold filed. apply filter_In. split; [done|]. by apply String.eqb_eq. }
    rewrite Hfiled in Hin_filed.
    unfold JsMap.has in Hhas. rewrite Hget in Hhas.
    destruct (version_or_failure oracle registryUrl cutoffDate ignoreSet (name, range))
      as [[_ Hnone] | [Hv _]].
    + rewrite Hnone in Hin_filed. destruct Hin_filed.
    + by rewrite Hv in Hhas.
  - intros name. split.
    + intros Hin. apply in_map_iff in Hin as ([n range] & Hn & Hin). simpl in Hn. subst n.
      destruct (Hentry name range Hin) as [Hget Hfiled].
      destruct (version_or_failure oracle registryUrl cutoffDate ignoreSet (name, range))
        as [[[v Hv] _] | [_ [f Hf]]].
      * left. unfold JsMap.has. by rewrite Hget, Hv.
      * right. exists f. rewrite Hf in Hfiled.
        assert (In f (filed name)) as Hin_filed by (rewrite Hfiled; by left).
        apply filter_In in Hin_filed as [Hin_f Hname]. by apply String.eqb_eq in Hname.
    + intros [Hhas | (f & Hf & Hname)].
      * apply has_keys in Hhas. rewrite Hresolved in Hhas. by apply keys_omap_success in Hhas.
      * rewrite Hfailures in Hf. apply list_elem_of_In, list_elem_of_omap in Hf
          as (entry & Hin & Hfail).
        apply failure_name in Hfail. subst name. rewrite Hfail.
        apply in_map_iff. exists entry. split; [done | by apply list_elem_of_In].
Qed.

Lemma every_name_has_one_outcome_witness :
  List.NoDup (JsMap.keys [("ghost", "latest"); ("alpha", "latest"); ("beta", "^2")])
  /\ (JsMap.get
        (resolved
           (resolveAll
              (Resolver.resolveSafeVersion
                 (Fixtures.createFixtureFile [Fixtures.alpha; Fixtures.beta]))
              DEFAULT_REGISTRY Fixtures.cutoff90 ∅
              [("ghost", "latest"); ("alpha", "latest"); ("beta", "^2")])) "beta"
      = Some "2.1.0"
      /\ List.filter (fun f => String.eqb (Failure.name f) "beta")
           (failures
              (resolveAll
                 (Resolver.resolveSafeVersion
                    (Fixtures.createFixtureFile [Fixtures.alpha; Fixtures.beta]))
                 DEFAULT_REGISTRY Fixtures.cutoff90 ∅
                 [("ghost", "latest"); ("alpha", "latest"); ("beta", "^2")]))
         = []).
Proof.
  assert (List.NoDup (JsMap.keys [("ghost", "latest"); ("alpha", "latest"); ("beta", "^2")]))
    as Hnd by (repeat constructor; simpl; intuition discriminate).
  split; [exact Hnd|].
  exact (proj1 (every_name_has_one_outcome
                  (Resolver.resolveSafeVersion
                     (Fixtures.createFixtureFile [Fixtures.alpha; Fixtures.beta]))
                  DEFAULT_REGISTRY Fixtures.cutoff90 ∅
                  [("ghost", "latest"); ("alpha", "latest"); ("beta", "^2")] Hnd)
           "beta" "^2" ltac:(simpl; tauto)).
Defined.

(** C7. Every request the install action hands to the resolver carries the
    cutoff date [now - minAgeDays * 24 * 60 * 60 * 1000] milliseconds, where
    [minAgeDays] is the numeric, non-negative value of [--min-age-days]. *)
Theorem cutoff_is_now_minus_min_age :
  forall now defaultManager oracle status packages options file request,
    In request (resolverCalls
                  (installAction now defaultManager oracle status packages options
                     (startWorld file)).2) ->
    exists days,
      minAgeDays options = Num days /\ 0 <= days
      /\ Request.cutoffDate request
         = JsDate.DateAt (now - days * 24 * 60 * 60 * 1000).
Proof.
  intros now defaultManager oracle status packages options file request Hin.
  destruct (installAction_run now defaultManager oracle status packages options
              (startWorld file)) as [Hnone | (days & dm & Hdays & Hpos & _ & Hcalls)].
  - rewrite Hnone in Hin. destruct Hin.
  - exists days. split; [done|]. split; [done|].
    rewrite Hcalls in Hin. simpl in Hin.
    rewrite (proj1 (resolveAll_spec _ _ _ _ _)) in Hin.
    apply in_map_iff in Hin as (entry & <- & _). reflexivity.
Qed.

Lemma cutoff_is_now_minus_min_age_witness :
  exists days,
    Num 90 = Num days /\ 0 <= days
    /\ Request.cutoffDate
         (Request.mk "beta" "^2" DEFAULT_REGISTRY
            (JsDate.DateAt (Fixtures.started - 90 * 24 * 60 * 60 * 1000)) false)
       = JsDate.DateAt (Fixtures.started - days * 24 * 60 * 60 * 1000).
Proof.
  apply (cutoff_is_now_minus_min_age Fixtures.started Npm
           (Resolver.resolveSafeVersion
              (Fixtures.createFixtureFile [Fixtures.alpha; Fixtures.beta]))
           (fun _ _ => Some 0) ["alpha"; "beta@^2"]
           (mkOptions (Num 90) DEFAULT_REGISTRY (Some "npm") true false false false
              (Some EmptyString) (Some "direct"))
           None).
  vm_compute. right. left. reflexivity.
Defined.

(** C8. Over a dependency map (one entry per name) the resolved map lists its
    names in the order of the dependency map restricted to the names that
    resolved, the failure list lists its names in the order of the dependency
    map restricted to the names that did not, and the report prints the
    failures in the order of the failure list, then the versions to install
    in the order of the resolved map. *)
Theorem report_follows_input_order :
  forall oracle registryUrl cutoffDate ignoreSet dependencyMap,
    List.NoDup (JsMap.keys dependencyMap) ->
    let result := resolveAll oracle registryUrl cutoffDate ignoreSet dependencyMap in
    JsMap.keys (resolved result)
    = List.filter (JsMap.has (resolved result)) (JsMap.keys dependencyMap)
    /\ map Failure.name (failures result)
       = List.filter (fun name => negb (JsMap.has (resolved result) name))
           (JsMap.keys dependencyMap)
    /\ forall options w,
         console (reportOutcome options ignoreSet result w).2
         = console w ++ map Stdout (reportLines options ignoreSet result).
Proof.
  intros oracle registryUrl cutoffDate ignoreSet dependencyMap Hnd result.
  destruct (resolveAll_spec oracle registryUrl cutoffDate ignoreSet dependencyMap)
    as (_ & Hfailures & Hresolved).
  specialize (Hresolved Hnd). fold result in Hfailures, Hresolved.
  unfold JsMap.entries in *.
  split; [|split].
  - rewrite Hresolved, keys_successes. unfold JsMap.keys at 1.
    rewrite filter_map_swap. f_equal. apply filter_ext_in.
    intros entry Hin. symmetry. by apply has_successes.
  - rewrite Hfailures, names_failures, Hresolved. unfold JsMap.keys.
    rewrite filter_map_swap. f_equal. apply filter_ext_in.
    intros entry Hin. f_equal. symmetry. by apply has_successes.
  - intros options w. by rewrite reportOutcome_lines.
Qed.

Lemma report_follows_input_order_witness :
  List.NoDup (JsMap.keys [("ghost", "latest"); ("beta", "^2"); ("recent", "*"); ("alpha", "*")])
  /\ JsMap.keys
       (resolved
          (resolveAll
             (Resolver.resolveSafeVersion
                (Fixtures.createFixtureFile [Fixtures.alpha; Fixtures.beta; Fixtures.recent]))
             DEFAULT_REGISTRY Fixtures.cutoff90 ∅
             [("ghost", "latest"); ("beta", "^2"); ("recent", "*"); ("alpha", "*")]))
     = ["beta"; "alpha"]
  /\ map Failure.name
       (failures
          (resolveAll
             (Resolver.resolveSafeVersion
                (Fixtures.createFixtureFile [Fixtures.alpha; Fixtures.beta; Fixtures.recent]))
             DEFAULT_REGISTRY Fixtures.cutoff90 ∅
             [("ghost", "latest"); ("beta", "^2"); ("recent", "*"); ("alpha", "*")]))
     = ["ghost"; "recent"].
Proof.
  assert (List.NoDup
            (JsMap.keys [("ghost", "latest"); ("beta", "^2"); ("recent", "*"); ("alpha", "*")]))
    as Hnd by (repeat constructor; simpl; intuition discriminate).
  split; [exact Hnd|].
  destruct (report_follows_input_order
              (Resolver.resolveSafeVersion
                 (Fixtures.createFixtureFile [Fixtures.alpha; Fixtures.beta; Fixtures.recent]))
              DEFAULT_REGISTRY Fixtures.cutoff90 ∅
              [("ghost", "latest"); ("beta", "^2"); ("recent", "*"); ("alpha", "*")] Hnd)
    as (Hresolved & Hfailures & _).
  split.
  - rewrite Hresolved. vm_compute. reflexivity.
  - rewrite Hfailures. vm_compute. reflexivity.
Defined.

(** ** The overrides strategy *)

Section Overrides.

Lemma get_set (o : JsObject.t) key value key' :
  JsObject.get (JsObject.set o key value) key'
  = if String.eqb key key' then Some value else JsObject.get o key'.
Proof.
  induction o as [|[k v] o IH]; simpl; [done|].
  destruct (String.eqb_spec k key) as [-> | Hne]; simpl.
  - by destruct (String.eqb key key').
  - rewrite IH.
    destruct (String.eqb_spec k key'), (String.eqb_spec key key'); congruence.
Qed.

Lemma object_get_None (o : JsObject.t) key :
  ~ In key (map fst o) -> JsObject.get o key = None.
Proof.
  induction o as [|[k v] o IH]; simpl; [done|].
  intros Hout. destruct (String.eqb_spec k key); [tauto | apply IH; tauto].
Qed.

(** Copying properties onto an object: the source wins, the rest stays. *)
Lemma get_assign (source : list (string * Json)) : forall (target : JsObject.t) key,
  List.NoDup (map fst source) ->
  JsObject.get (JsObject.assign target source) key
  = match JsObject.get source key with
    | Some value => Some value
    | None => JsObject.get target key
    end.
Proof.
  unfold JsObject.assign.
  induction source as [|[k v] source IH]; intros target key Hnd; simpl; [done|].
  apply List.NoDup_cons_iff in Hnd as [Hk Hnd]. simpl in Hk.
  rewrite (IH _ _ Hnd), get_set.
  destruct (String.eqb_spec k key) as [-> | Hne]; [|done].
  by rewrite (object_get_None _ _ Hk).
Qed.

Lemma get_spread2 (a b : list (string * Json)) key :
  List.NoDup (map fst a) -> List.NoDup (map fst b) ->
  JsObject.get (JsObject.spread2 a b) key
  = match JsObject.get b key with
    | Some value => Some value
    | None => JsObject.get a key
    end.
Proof.
  intros Ha Hb. unfold JsObject.spread2.
  rewrite (get_assign b _ _ Hb), (get_assign a _ _ Ha). simpl.
  by destruct (JsObject.get b key), (JsObject.get a key).
Qed.

Lemma set_keys (o : JsObject.t) k v key :
  In key (map fst (JsObject.set o k v)) -> In key (map fst o) \/ k = key.
Proof.
  induction o as [|[k' v'] o IH]; simpl; [tauto|].
  destruct (String.eqb_spec k' k); simpl; tauto.
Qed.

Lemma assign_keys (source : list (string * Json)) : forall (target : JsObject.t) key,
  In key (map fst (JsObject.assign target source)) ->
  In key (map fst target) \/ In key (map fst source).
Proof.
  unfold JsObject.assign.
  induction source as [|[k v] source IH]; intros target key; simpl; [tauto|].
  intros Hin. apply IH in Hin as [Hin | Hin]; [|tauto].
  apply set_keys in Hin. tauto.
Qed.

Lemma assign_NoDup (source : list (string * Json)) : forall (target : JsObject.t),
  List.NoDup (map fst target) -> List.NoDup (map fst (JsObject.assign target source)).
Proof.
  unfold JsObject.assign.
  induction source as [|[k v] source IH]; intros target Hnd; simpl; [done|].
  apply IH. clear IH. induction target as [|[k' v'] target IHt]; simpl.
  - repeat constructor. simpl. tauto.
  - apply List.NoDup_cons_iff in Hnd as [Hk' Hnd].
    destruct (String.eqb_spec k' k) as [-> | Hne]; simpl.
    + by constructor.
    + constructor; [|by apply IHt].
      intros Hin. apply set_keys in Hin as [Hin | Heq]; [by apply Hk' | congruence].
Qed.

Lemma fromEntries_NoDup (m : JsMap.t) : List.NoDup (map fst (JsObject.fromEntries m)).
Proof. apply assign_NoDup. constructor. Qed.

Lemma get_fromEntries (m : JsMap.t) key :
  List.NoDup (JsMap.keys m) ->
  JsObject.get (JsObject.fromEntries m) key = JString <$> JsMap.get m key.
Proof.
  intros Hnd. unfold JsObject.fromEntries, JsMap.entries.
  rewrite get_assign.
  - simpl. induction m as [|[k v] m IH]; simpl; [done|].
    apply List.NoDup_cons_iff in Hnd as [_ Hnd].
    destruct (String.eqb k key); [done | by apply IH].
  - by rewrite map_map.
Qed.

(** The keys the strategy leaves alone or overwrites. *)
Lemma get_merged (fields : list (string * Json)) (resolvedVersions : JsMap.t) name :
  List.NoDup (map fst fields) -> List.NoDup (JsMap.keys resolvedVersions) ->
  JsObject.get (JsObject.spread2 fields (JsObject.fromEntries resolvedVersions)) name
  = match JsMap.get resolvedVersions name with
    | Some version => Some (JString version)
    | None => JsObject.get fields name
    end.
Proof.
  intros Hfields Hresolved.
  rewrite get_spread2; [|done|apply fromEntries_NoDup].
  rewrite get_fromEntries; [|done].
  by destruct (JsMap.get resolvedVersions name).
Qed.

End Overrides.

(** C10. The [overrides] strategy writes package.json with the override
    table merged with the resolved versions: a name of the resolved map maps
    to its resolved version, and every other name keeps the entry it had, in
    [overrides] for npm and in [pnpm.overrides] for pnpm. The other fields of
    the [pnpm] configuration and the other fields of package.json are
    written back as they were. *)
Theorem overrides_strategy_keeps_other_entries :
  forall pkg resolvedVersions,
    List.NoDup (JsMap.keys resolvedVersions) ->
    let merge fields name :=
      match JsMap.get resolvedVersions name with
      | Some version => Some (JString version)
      | None => JsObject.get fields name
      end in
    (forall status registryUrl w,
        packageJsonFile w = Some (Returns pkg) ->
        packageJsonFile (runStrategy status "overrides" resolvedVersions registryUrl Npm w).2
        = Some (Returns (npmOverrides pkg resolvedVersions))
        /\ packageJsonFile (runStrategy status "overrides" resolvedVersions registryUrl Pnpm w).2
           = Some (Returns (pnpmOverrides pkg resolvedVersions)))
    /\ (forall fields,
          overrides pkg = Some (JObject fields) -> List.NoDup (map fst fields) ->
          exists merged,
            overrides (npmOverrides pkg resolvedVersions) = Some (JObject merged)
            /\ forall name, JsObject.get merged name = merge fields name)
    /\ (dependencies (npmOverrides pkg resolvedVersions) = dependencies pkg
        /\ devDependencies (npmOverrides pkg resolvedVersions) = devDependencies pkg
        /\ pnpm (npmOverrides pkg resolvedVersions) = pnpm pkg
        /\ otherFields (npmOverrides pkg resolvedVersions) = otherFields pkg)
    /\ (forall config,
          pnpm pkg = Some (JObject config) -> List.NoDup (map fst config) ->
          exists written,
            pnpm (pnpmOverrides pkg resolvedVersions) = Some (JObject written)
            /\ (forall key, key <> "overrides" ->
                  JsObject.get written key = JsObject.get config key)
            /\ (forall fields,
                  JsObject.get config "overrides" = Some (JObject fields) ->
                  List.NoDup (map fst fields) ->
                  exists merged,
                    JsObject.get written "overrides" = Some (JObject merged)
                    /\ forall name, JsObject.get merged name = merge fields name))
    /\ (dependencies (pnpmOverrides pkg resolvedVersions) = dependencies pkg
        /\ devDependencies (pnpmOverrides pkg resolvedVersions) = devDependencies pkg
        /\ overrides (pnpmOverrides pkg resolvedVersions) = overrides pkg
        /\ otherFields (pnpmOverrides pkg resolvedVersions) = otherFields pkg).
Proof.
  intros pkg resolvedVersions Hresolved merge.
  split; [|split; [|split; [|split]]].
  - intros status registryUrl w Hfile. unfold runStrategy. simpl.
    rewrite !bind_run. unfold readPackageJson. rewrite Hfile. split; reflexivity.
  - intros fields Hoverrides Hfields. eexists. split.
    + unfold npmOverrides. rewrite Hoverrides. simpl. reflexivity.
    + intros name. by apply get_merged.
  - done.
  - intros config Hpnpm Hconfig. eexists. split; [|split].
    + unfold pnpmOverrides. rewrite Hpnpm. simpl. reflexivity.
    + intros key Hkey. rewrite get_set.
      destruct (String.eqb_spec "overrides" key); [congruence|].
      rewrite get_assign; [|done]. by destruct (JsObject.get config key).
    + intros fields Hcurrent Hfields. eexists. split.
      * rewrite get_set. simpl. rewrite Hcurrent. simpl. reflexivity.
      * intros name. by apply get_merged.
  - done.
Qed.

Lemma overrides_strategy_keeps_other_entries_witness :
  List.NoDup (JsMap.keys [("alpha", "2.0.0")])
  /\ exists written,
       pnpm (pnpmOverrides
               (mkPackageJson None None None
                  (Some (JObject [("overrides", JObject [("lodash", JString "4.17.21")]);
                                  ("onlyBuiltDependencies", JArray [JString "esbuild"])]))
                  [("name", JString "fixture")])
               [("alpha", "2.0.0")])
       = Some (JObject written)
       /\ JsObject.get written "onlyBuiltDependencies" = Some (JArray [JString "esbuild"]).
Proof.
  assert (List.NoDup (JsMap.keys [("alpha", "2.0.0")])) as Hnd
    by (repeat constructor; simpl; tauto).
  split; [exact Hnd|].
  destruct (proj1 (proj2 (proj2 (proj2 (overrides_strategy_keeps_other_entries
              (mkPackageJson None None None
                 (Some (JObject [("overrides", JObject [("lodash", JString "4.17.21")]);
                                 ("onlyBuiltDependencies", JArray [JString "esbuild"])]))
                 [("name", JString "fixture")])
              [("alpha", "2.0.0")] Hnd))))
            [("overrides", JObject [("lodash", JString "4.17.21")]);
             ("onlyBuiltDependencies", JArray [JString "esbuild"])]
            eq_refl ltac:(repeat constructor; simpl; intuition discriminate))
    as (written & Hwritten & Hkeep & _).
  exists written. split; [exact Hwritten|].
  rewrite (Hkeep "onlyBuiltDependencies" ltac:(discriminate)). reflexivity.
Defined.

Example overrides_fixture :
  pnpmOverrides
    (mkPackageJson None None None
       (Some (JObject [("overrides", JObject [("lodash", JString "4.17.21")]);
                       ("onlyBuiltDependencies", JArray [JString "esbuild"])]))
       [("name", JString "fixture")])
    [("alpha", "2.0.0"); ("lodash", "4.17.20")]
  = mkPackageJson None None None
      (Some (JObject [("overrides",
                       JObject [("lodash", JString "4.17.20"); ("alpha", JString "2.0.0")]);
                      ("onlyBuiltDependencies", JArray [JString "esbuild"])]))
      [("name", JString "fixture")]
  /\ npmOverrides (mkPackageJson None None None None [("name", JString "fixture")])
       [("alpha", "2.0.0")]
     = mkPackageJson None None (Some (JObject [("alpha", JString "2.0.0")])) None
         [("name", JString "fixture")].
Proof. split; reflexivity. Qed.

(** The resolved map the loop builds has one entry per name, as the
    [overrides] strategy expects of it. *)
Lemma resolveAll_resolved_NoDup oracle registryUrl cutoffDate ignoreSet dependencyMap :
  List.NoDup
    (JsMap.keys (resolved (resolveAll oracle registryUrl cutoffDate ignoreSet dependencyMap))).
Proof.
  unfold resolveAll.
  assert (forall entries state, List.NoDup (JsMap.keys (resolved state)) ->
            List.NoDup (JsMap.keys (resolved
              (fold_left (resolveEntry oracle registryUrl cutoffDate ignoreSet) entries state))))
    as Hfold.
  { induction entries as [|entry entries IH]; intros state Hnd; simpl; [done|].
    apply IH. rewrite resolveEntry_spec. simpl.
    destruct (versionFor _ _ _ _ entry); [by apply set_NoDup | done]. }
  apply Hfold. constructor.
Qed.

(** ** The integration tests, run on the model *)

(** "loads dependencies from package.json and honors the ignore list" *)
Example test_ignore_list :
  let run :=
    installAction Fixtures.started Npm
      (Resolver.resolveSafeVersion
         (Fixtures.createFixtureFile [Fixtures.alphaSingle; Fixtures.betaSingle]))
      (fun _ _ => Some 0) [] (dryRunOptions "alpha" false)
      (startWorld
         (Some (Returns (mkPackageJson (Some [("alpha", "latest")])
                           (Some [("beta", "^2.0.0")]) None None
                           [("name", JString "fixture"); ("version", JString "1.0.0")])))) in
  run.1 = Exit 0
  /\ In (Stdout "  alpha@1.1.0 (ignored)") (console run.2)
  /\ In (Stdout "  beta@2.0.0") (console run.2).
Proof. vm_compute. repeat split; tauto. Qed.

(** "fails fast in strict mode when no versions meet the cutoff" *)
Example test_strict_mode :
  let run :=
    installAction Fixtures.started Npm
      (Resolver.resolveSafeVersion (Fixtures.createFixtureFile [Fixtures.recent]))
      (fun _ _ => Some 0) ["recent"] (dryRunOptions EmptyString true) (startWorld None) in
  run.1 = Exit 1
  /\ In (Stdout (newline +:+ "Dependencies that could not be resolved safely:"))
       (console run.2).
Proof. vm_compute. repeat split; tauto. Qed.

(** "resolves the newest safe versions for cli arguments": the test asks for
    [alpha], that is [alpha@latest], and expects [alpha@1.1.0], although the
    [latest] tag of the fixture names 1.2.0. The resolver of the
    specification, which narrows [latest] to the tagged version, files a
    failure for [alpha] instead; it resolves [beta@^2] as the test expects. *)
Example test_newest_safe_versions :
  let run :=
    installAction Fixtures.started Npm
      (Resolver.resolveSafeVersion
         (Fixtures.createFixtureFile [Fixtures.alpha; Fixtures.beta]))
      (fun _ _ => Some 0) ["alpha"; "beta@^2"] (dryRunOptions EmptyString false) (startWorld None) in
  run.1 = Exit 0
  /\ In (Stdout "  beta@2.1.0") (console run.2)
  /\ ~ In (Stdout "  alpha@1.1.0") (console run.2)
  /\ In (Stdout "  - alpha@latest: No version satisfies the range and age requirement")
       (console run.2).
Proof.
  vm_compute. repeat split; try tauto.
  intros H. repeat (destruct H as [H | H]; [discriminate H|]). destruct H.
Qed.

(* ===================================================================== *)
(** * Further properties of the command line *)
(* ===================================================================== *)

(** ** Trimming and splitting *)

Section Trimming.
Import JsString.

Lemma trimEnd_idempotent s : trimEnd (trimEnd s) = trimEnd s.
Proof.
  induction s as [|x s IH]; simpl; [done|].
  destruct (trimEnd s) as [|y r] eqn:E.
  - destruct (isWhiteSpace x) eqn:Hx; simpl; [done|]. by rewrite Hx.
  - simpl in *. by rewrite IH.
Qed.

Lemma trimStart_head s :
  trimStart s = EmptyString
  \/ exists x rest, trimStart s = String x rest /\ isWhiteSpace x = false.
Proof.
  induction s as [|x s IH]; simpl; [by left|].
  destruct (isWhiteSpace x) eqn:Hx; [exact IH|]. right. eauto.
Qed.

Lemma trimEnd_head x rest :
  isWhiteSpace x = false -> exists rest', trimEnd (String x rest) = String x rest'.
Proof.
  intros Hx. simpl. destruct (trimEnd rest); [|eauto]. rewrite Hx. eauto.
Qed.

Lemma trim_idempotent s : trim (trim s) = trim s.
Proof.
  unfold trim. destruct (trimStart_head s) as [-> | (x & rest & -> & Hx)]; [done|].
  destruct (trimEnd_head x rest Hx) as [rest' E]. rewrite E.
  simpl trimStart. rewrite Hx. rewrite <- E. apply trimEnd_idempotent.
Qed.

Lemma contains_trimStart c s : contains c (trimStart s) = true -> contains c s = true.
Proof.
  induction s as [|x s IH]; simpl; [done|].
  destruct (isWhiteSpace x); [|done]. intros H. rewrite (IH H). apply orb_true_r.
Qed.

Lemma contains_trimEnd c s : contains c (trimEnd s) = true -> contains c s = true.
Proof.
  induction s as [|x s IH]; simpl; [done|].
  destruct (trimEnd s) as [|y r] eqn:E.
  - destruct (isWhiteSpace x); simpl; [done|]. rewrite orb_false_r. intros ->. done.
  - simpl in *. destruct (Ascii.eqb x c); [done|]. simpl. exact IH.
Qed.

Lemma contains_trim c s : contains c (trim s) = true -> contains c s = true.
Proof. intros H. by apply contains_trimStart, contains_trimEnd. Qed.

Lemma split_pieces sep s piece :
  In piece (split sep s) -> contains sep piece = false.
Proof.
  revert piece. induction s as [|x s IH]; simpl; intros piece.
  - intros [<- | []]. done.
  - destruct (Ascii.eqb x sep) eqn:Hx.
    + intros [<- | Hin]; [done | by apply IH].
    + destruct (split sep s) as [|first pieces] eqn:E.
      * intros [<- | []]. simpl. by rewrite Hx.
      * intros [<- | Hin].
        -- simpl. rewrite Hx. simpl. apply IH. by left.
        -- apply IH. by right.
Qed.

End Trimming.

(** X1. The ignore set holds exactly the trimmed, non-empty pieces of the
    comma-separated [--ignore] value, and nothing when the option is absent
    or empty. So no name of the set is empty, carries white space at either
    end, or contains a comma. *)
Theorem ignore_set_members :
  forall value name,
    (name ∈ buildIgnoreSet value <->
     exists text,
       value = Some text /\ name <> EmptyString
       /\ In name (map JsString.trim (JsString.split "," text)))
    /\ (name ∈ buildIgnoreSet value ->
        name <> EmptyString /\ JsString.trim name = name
        /\ JsString.contains "," name = false)
    /\ buildIgnoreSet None = ∅
    /\ buildIgnoreSet (Some EmptyString) = ∅.
Proof.
  intros value name.
  assert (name ∈ buildIgnoreSet value <->
          exists text,
            value = Some text /\ name <> EmptyString
            /\ In name (map JsString.trim (JsString.split "," text))) as Hiff.
  { unfold buildIgnoreSet. destruct value as [text|].
    - destruct text as [|c text]; simpl negb; cbv iota.
      + split; [intros H; by apply not_elem_of_empty in H|].
        intros (text & [= <-] & Hne & [Hin | []]). by destruct Hne.
      + rewrite elem_of_list_to_set, list_elem_of_In, filter_In. split.
        * intros [Hin Hlen]. exists (String c text). split; [done|]. split; [|done].
          intros ->. done.
        * intros (text' & [= <-] & Hne & Hin). split; [done|].
          destruct name; [done | reflexivity].
    - split; [intros H; by apply not_elem_of_empty in H | intros (text & [=] & _)]. }
  split; [exact Hiff|]. split; [|split; reflexivity].
  intros Hin. apply Hiff in Hin as (text & _ & Hne & Hin).
  apply in_map_iff in Hin as (piece & <- & Hpiece).
  split; [done|]. split; [apply trim_idempotent|].
  apply not_true_is_false. intros Hcomma. apply contains_trim in Hcomma.
  by rewrite (split_pieces _ _ _ Hpiece) in Hcomma.
Qed.

Lemma ignore_set_members_witness :
  "@scope/pkg" <> EmptyString /\ JsString.trim "@scope/pkg" = "@scope/pkg"
  /\ JsString.contains "," "@scope/pkg" = false.
Proof.
  apply (proj1 (proj2 (ignore_set_members (Some " alpha , ,@scope/pkg,") "@scope/pkg"))).
  vm_compute. reflexivity.
Defined.

(** ** Building the dependency map *)

Section Collecting.

Lemma map_get_set (m : JsMap.t) key value key' :
  JsMap.get (JsMap.set m key value) key'
  = if String.eqb key key' then Some value else JsMap.get m key'.
Proof.
  induction m as [|[k v] m IH]; simpl; [done|].
  destruct (String.eqb_spec k key) as [-> | Hne]; simpl.
  - by destruct (String.eqb key key').
  - rewrite IH.
    destruct (String.eqb_spec k key'), (String.eqb_spec key key'); congruence.
Qed.

Lemma map_get_app (a b : JsMap.t) key :
  JsMap.get (a ++ b) key
  = match JsMap.get a key with Some v => Some v | None => JsMap.get b key end.
Proof.
  induction a as [|[k v] a IH]; simpl; [done|]. by destruct (String.eqb k key).
Qed.

Lemma map_get_rev_NoDup (m : JsMap.t) key :
  List.NoDup (JsMap.keys m) -> JsMap.get (rev m) key = JsMap.get m key.
Proof.
  induction m as [|[k v] m IH]; simpl; [done|].
  intros Hnd. apply List.NoDup_cons_iff in Hnd as [Hk Hnd].
  rewrite map_get_app, (IH Hnd). simpl.
  destruct (String.eqb_spec k key) as [-> | Hne].
  - by rewrite (proj2 (get_None m key) Hk).
  - by destruct (JsMap.get m key).
Qed.

(** Setting the pairs of a list one after the other: the last pair of a key
    wins, and the keys that were there stay. *)
Lemma get_fold_set (pairs : list (string * string)) : forall (m : JsMap.t) key,
  JsMap.get (fold_left (fun m entry => JsMap.set m (fst entry) (snd entry)) pairs m) key
  = match JsMap.get (rev pairs) key with
    | Some v => Some v
    | None => JsMap.get m key
    end.
Proof.
  induction pairs as [|[k v] pairs IH]; intros m key; simpl; [done|].
  rewrite IH, map_get_app, map_get_set. simpl.
  destruct (JsMap.get (rev pairs) key); [done|]. by destruct (String.eqb k key).
Qed.

Lemma fold_set_NoDup (pairs : list (string * string)) : forall (m : JsMap.t),
  List.NoDup (JsMap.keys m) ->
  List.NoDup (JsMap.keys
                (fold_left (fun m entry => JsMap.set m (fst entry) (snd entry)) pairs m)).
Proof.
  induction pairs as [|entry pairs IH]; intros m Hnd; simpl; [done|].
  apply IH. by apply set_NoDup.
Qed.

Lemma parsePackageSpec_Throws spec e :
  parsePackageSpec spec = Throws e ->
  spec = EmptyString /\ e = ErrorInstance "Empty package spec provided".
Proof.
  unfold parsePackageSpec. destruct spec as [|c spec]; simpl.
  - intros [= <-]. done.
  - destruct (Ascii.eqb c "@").
    + destruct (JsString.indexOfFrom _ _ _); done.
    + destruct (JsString.lastIndexOf _ _) as [[|n]|]; done.
Qed.

Lemma collectFromArgsInto_spec specs : forall m,
  (In EmptyString specs ->
   collectFromArgsInto m specs = Throws (ErrorInstance "Empty package spec provided"))
  /\ (~ In EmptyString specs ->
      collectFromArgsInto m specs
      = Returns (fold_left (fun m entry => JsMap.set m (fst entry) (snd entry))
                   (parsedSpecs specs) m)).
Proof.
  induction specs as [|spec specs IH]; intros m; simpl.
  - split; [intros [] | done].
  - unfold parsedSpecs. simpl.
    destruct (parsePackageSpec spec) as [parsed|e] eqn:E.
    + assert (spec <> EmptyString) as Hne by (intros ->; discriminate E).
      split.
      * intros [Heq | Hin]; [congruence|]. by apply IH.
      * intros Hout. apply IH. tauto.
    + apply parsePackageSpec_Throws in E as [-> ->].
      split; [done|]. intros Hout. destruct Hout. by left.
Qed.

End Collecting.

(** X2. [collectFromArgs] throws "Empty package spec provided" exactly when
    one of the specs is the empty string. Otherwise it returns a map with one
    entry per name, whose names are the names of the specs, and in which a
    name given more than once has the range of its last spec. *)
Theorem collectFromArgs_last_spec_wins :
  forall specs,
    (In EmptyString specs ->
     collectFromArgs specs = Throws (ErrorInstance "Empty package spec provided"))
    /\ (~ In EmptyString specs ->
        exists m,
          collectFromArgs specs = Returns m
          /\ List.NoDup (JsMap.keys m)
          /\ (forall name, In name (JsMap.keys m) <-> In name (map fst (parsedSpecs specs)))
          /\ (forall name, JsMap.get m name = JsMap.get (rev (parsedSpecs specs)) name)).
Proof.
  intros specs. destruct (collectFromArgsInto_spec specs JsMap.empty) as [Hthrow Hreturn].
  split; [exact Hthrow|].
  intros Hout. eexists. split; [by apply Hreturn|].
  split; [apply fold_set_NoDup; constructor|].
  assert (forall name,
            JsMap.get (fold_left (fun m entry => JsMap.set m (fst entry) (snd entry))
                         (parsedSpecs specs) JsMap.empty) name
            = JsMap.get (rev (parsedSpecs specs)) name) as Hget.
  { intros name. rewrite get_fold_set. simpl.
    by destruct (JsMap.get (rev (parsedSpecs specs)) name). }
  split; [|exact Hget].
  intros name. rewrite <- has_keys. unfold JsMap.has. rewrite Hget.
  assert (In name (map fst (parsedSpecs specs)) <-> In name (JsMap.keys (rev (parsedSpecs specs))))
    as ->.
  { unfold JsMap.keys. rewrite map_rev. apply in_rev. }
  rewrite <- has_keys. unfold JsMap.has. done.
Qed.

Lemma collectFromArgs_last_spec_wins_witness :
  exists m,
    collectFromArgs ["alpha"; "beta@^2"; "alpha@1.x"] = Returns m
    /\ JsMap.get m "alpha" = Some "1.x"
    /\ JsMap.keys m = ["alpha"; "beta"].
Proof.
  destruct (proj2 (collectFromArgs_last_spec_wins ["alpha"; "beta@^2"; "alpha@1.x"]))
    as (m & Hm & _ & _ & Hget).
  { simpl. intuition discriminate. }
  exists m. split; [exact Hm|]. split.
  - rewrite Hget. reflexivity.
  - vm_compute in Hm. injection Hm as <-. reflexivity.
Defined.

(** X3. The map read from package.json has one entry per name. A name has
    the range of [dependencies] when it is listed there and [--dev] is not
    set, and otherwise the range of [devDependencies] unless [--prod-only]
    is set: on a name listed in both tables [dependencies] wins. *)
Theorem collectFromPackageJson_dependencies_win :
  forall pkg devOnly prodOnlyFlag,
    List.NoDup (JsMap.keys (default [] (dependencies pkg))) ->
    List.NoDup (JsMap.keys (default [] (devDependencies pkg))) ->
    let m := collectFromPackageJson pkg devOnly prodOnlyFlag in
    List.NoDup (JsMap.keys m)
    /\ forall name,
         JsMap.get m name
         = match (if devOnly then None else JsMap.get (default [] (dependencies pkg)) name) with
           | Some range => Some range
           | None =>
               if prodOnlyFlag then None
               else JsMap.get (default [] (devDependencies pkg)) name
           end.
Proof.
  intros pkg devOnly prodOnlyFlag Hprod Hdev m.
  split; [apply collectFromPackageJson_NoDup|].
  intros name. unfold m, collectFromPackageJson.
  destruct devOnly, prodOnlyFlag; simpl; rewrite ?get_fold_set; simpl;
    rewrite ?map_get_rev_NoDup by done; try done.
  all: repeat match goal with |- context [JsMap.get ?t ?n] => destruct (JsMap.get t n) end;
    done.
Qed.

Lemma collectFromPackageJson_dependencies_win_witness :
  JsMap.get
    (collectFromPackageJson
       (mkPackageJson (Some [("alpha", "^1.0.0"); ("gamma", "*")])
          (Some [("beta", "^2.0.0"); ("alpha", "latest")]) None None [])
       false false) "alpha"
  = Some "^1.0.0".
Proof.
  rewrite (proj2 (collectFromPackageJson_dependencies_win
                    (mkPackageJson (Some [("alpha", "^1.0.0"); ("gamma", "*")])
                       (Some [("beta", "^2.0.0"); ("alpha", "latest")]) None None [])
                    false false
                    ltac:(repeat constructor; simpl; intuition discriminate)
                    ltac:(repeat constructor; simpl; intuition discriminate)) "alpha").
  reflexivity.
Defined.

(** ** Package specs, read back *)

Section SpecShapes.
Import JsString.

Lemma indexOf_Some c s : forall i,
  indexOf c s = Some i ->
  s = sliceTo i s +:+ String c (sliceFrom (i + 1) s)
  /\ contains c (sliceTo i s) = false
  /\ String.length (sliceTo i s) = i.
Proof.
  induction s as [|x s IH]; simpl; [done|]. intros i.
  destruct (Ascii.eqb_spec x c) as [-> | Hne].
  - intros [= <-]. done.
  - destruct (indexOf c s) as [j|]; [|done]. simpl. intros [= <-].
    destruct (IH j eq_refl) as (Hs & Hfree & Hlen). simpl.
    split; [|split].
    + etransitivity; [apply (f_equal (String x) Hs) | reflexivity].
    + rewrite Hfree, orb_false_r. by apply Ascii.eqb_neq.
    + by rewrite Hlen.
Qed.

Lemma lastIndexOf_None_inv c s : lastIndexOf c s = None -> contains c s = false.
Proof.
  induction s as [|x s IH]; simpl; [done|].
  destruct (lastIndexOf c s); [done|].
  destruct (Ascii.eqb x c); [done|]. intros _. by rewrite IH.
Qed.

Lemma lastIndexOf_Some c s : forall i,
  lastIndexOf c s = Some i ->
  s = sliceTo i s +:+ String c (sliceFrom (i + 1) s)
  /\ contains c (sliceFrom (i + 1) s) = false
  /\ String.length (sliceTo i s) = i.
Proof.
  induction s as [|x s IH]; simpl; [done|]. intros i.
  destruct (lastIndexOf c s) as [j|] eqn:E.
  - intros [= <-]. destruct (IH j eq_refl) as (Hs & Hfree & Hlen). simpl.
    split; [|split].
    + etransitivity; [apply (f_equal (String x) Hs) | reflexivity].
    + exact Hfree.
    + by rewrite Hlen.
  - destruct (Ascii.eqb_spec x c) as [-> | Hne]; [|done]. intros [= <-]. simpl.
    by rewrite (lastIndexOf_None_inv _ _ E).
Qed.

Lemma parse_scoped_bare a :
  contains "@" a = false ->
  parsePackageSpec (String "@" a) = Returns (mkSpec (String "@" a) "latest").
Proof.
  intros Ha. unfold parsePackageSpec, indexOfFrom. simpl.
  by rewrite (indexOf_None _ _ Ha).
Qed.

Lemma parse_scoped_split a b :
  contains "@" a = false ->
  parsePackageSpec (String "@" (a +:+ String "@" b))
  = Returns (mkSpec (String "@" a) (orElse b "latest")).
Proof.
  intros Ha. unfold parsePackageSpec, indexOfFrom.
  simpl. rewrite (indexOf_first _ _ _ Ha). simpl.
  by rewrite sliceTo_append, sliceFrom_append.
Qed.

Lemma parse_unscoped_split a b :
  a <> EmptyString -> startsWith "@" a = false -> contains "@" b = false ->
  parsePackageSpec (a +:+ String "@" b) = Returns (mkSpec a (orElse b "latest")).
Proof.
  intros Hne Hscope Hb. unfold parsePackageSpec.
  destruct a as [|x a]; [done|]. clear Hne. simpl in Hscope.
  assert (truthy (String x a +:+ String "@" b) = true) as -> by done.
  assert (startsWith "@" (String x a +:+ String "@" b) = false) as -> by done.
  simpl negb. cbv iota.
  rewrite (lastIndexOf_last _ _ _ Hb).
  simpl String.length. cbv iota beta zeta.
  change (S (String.length a)) with (String.length (String x a)).
  by rewrite (sliceFrom_append (String x a) "@" b), sliceTo_append.
Qed.

Lemma parse_unscoped_bare spec :
  spec <> EmptyString -> contains "@" spec = false ->
  parsePackageSpec spec = Returns (mkSpec spec "latest").
Proof.
  intros Hne Hat. unfold parsePackageSpec.
  apply truthy_nonempty in Hne. rewrite Hne. simpl.
  assert (startsWith "@" spec = false) as ->.
  { destruct spec as [|x spec]; [done|]. simpl in *. by destruct (Ascii.eqb x "@"). }
  by rewrite (lastIndexOf_None _ _ Hat).
Qed.

(** The four shapes of a spec that parses. *)
Lemma parsePackageSpec_shapes spec parsed :
  parsePackageSpec spec = Returns parsed ->
  (exists a, spec = String "@" a /\ contains "@" a = false
             /\ parsed = mkSpec (String "@" a) "latest")
  \/ (exists a b, spec = String "@" (a +:+ String "@" b) /\ contains "@" a = false
                  /\ parsed = mkSpec (String "@" a) (orElse b "latest"))
  \/ (exists a b, spec = a +:+ String "@" b /\ a <> EmptyString
                  /\ startsWith "@" a = false /\ contains "@" b = false
                  /\ parsed = mkSpec a (orElse b "latest"))
  \/ (spec <> EmptyString /\ startsWith "@" spec = false /\ contains "@" spec = false
      /\ parsed = mkSpec spec "latest").
Proof.
  destruct spec as [|x rest]; [done|].
  destruct (startsWith "@" (String x rest)) eqn:Hscope.
  - simpl in Hscope. apply Ascii.eqb_eq in Hscope. subst x.
    destruct (indexOf "@" rest) as [i|] eqn:Hi.
    + destruct (indexOf_Some _ _ _ Hi) as (Hrest & Hfree & Hlen).
      intros Hparse. right. left. exists (sliceTo i rest), (sliceFrom (i + 1) rest).
      split; [by rewrite <- Hrest|]. split; [done|].
      rewrite Hrest, (parse_scoped_split _ _ Hfree) in Hparse. congruence.
    + intros Hparse. left. exists rest.
      assert (contains "@" rest = false) as Hfree.
      { clear -Hi. induction rest as [|y rest IH]; simpl in *; [done|].
        destruct (Ascii.eqb y "@"); [done|]. simpl.
        destruct (indexOf "@" rest); [done | by apply IH]. }
      rewrite (parse_scoped_bare _ Hfree) in Hparse. split; [done|]. split; congruence.
  - destruct (lastIndexOf "@" (String x rest)) as [i|] eqn:Hi.
    + destruct (lastIndexOf_Some _ _ _ Hi) as (Hspec & Hfree & Hlen).
      intros Hparse. right. right. left.
      exists (sliceTo i (String x rest)), (sliceFrom (i + 1) (String x rest)).
      assert (sliceTo i (String x rest) <> EmptyString) as Hne.
      { destruct i; [|done]. exfalso. simpl in Hi, Hscope.
        destruct (lastIndexOf "@" rest); [done|]. by rewrite Hscope in Hi. }
      assert (startsWith "@" (sliceTo i (String x rest)) = false) as Hhead.
      { destruct i; [done|]. exact Hscope. }
      split; [exact Hspec|]. split; [done|]. split; [done|]. split; [done|].
      rewrite Hspec, (parse_unscoped_split _ _ Hne Hhead Hfree) in Hparse. congruence.
    + intros Hparse. right. right. right.
      pose proof (lastIndexOf_None_inv _ _ Hi) as Hfree.
      assert (String x rest <> EmptyString) as Hne by done.
      rewrite (parse_unscoped_bare _ Hne Hfree) in Hparse.
      split; [done|]. split; [done|]. split; congruence.
Qed.

End SpecShapes.

(** X4. A spec that parses is accounted for in full: neither the name nor
    the range is empty, and the spec is the name alone, the name followed by
    [@], or the name, [@] and the range; in the first two cases the range is
    [latest]. *)
Theorem parsePackageSpec_loses_nothing :
  forall spec parsed,
    parsePackageSpec spec = Returns parsed ->
    spec_name parsed <> EmptyString
    /\ spec_range parsed <> EmptyString
    /\ ((spec = spec_name parsed /\ spec_range parsed = "latest")
        \/ (spec = spec_name parsed +:+ "@" /\ spec_range parsed = "latest")
        \/ spec = spec_name parsed +:+ "@" +:+ spec_range parsed).
Proof.
  intros spec parsed Hparse.
  destruct (parsePackageSpec_shapes _ _ Hparse)
    as [(a & -> & _ & ->) | [(a & b & -> & _ & ->) | [(a & b & -> & Hne & _ & _ & ->)
       | (Hne & _ & _ & ->)]]]; simpl.
  - split; [done|]. split; [done|]. by left.
  - split; [done|]. split; [apply orElse_nonempty|].
    destruct b; simpl; [right; left | right; right]; done.
  - split; [done|]. split; [apply orElse_nonempty|].
    destruct b; simpl; [right; left | right; right]; done.
  - split; [done|]. split; [done|]. by left.
Qed.

Lemma parsePackageSpec_loses_nothing_witness :
  spec_name (mkSpec "@scope/pkg" "^1.2.0") <> EmptyString
  /\ spec_range (mkSpec "@scope/pkg" "^1.2.0") <> EmptyString
  /\ (("@scope/pkg@^1.2.0" = spec_name (mkSpec "@scope/pkg" "^1.2.0")
       /\ spec_range (mkSpec "@scope/pkg" "^1.2.0") = "latest")
      \/ ("@scope/pkg@^1.2.0" = spec_name (mkSpec "@scope/pkg" "^1.2.0") +:+ "@"
          /\ spec_range (mkSpec "@scope/pkg" "^1.2.0") = "latest")
      \/ "@scope/pkg@^1.2.0"
         = spec_name (mkSpec "@scope/pkg" "^1.2.0") +:+ "@"
           +:+ spec_range (mkSpec "@scope/pkg" "^1.2.0")).
Proof.
  exact (parsePackageSpec_loses_nothing "@scope/pkg@^1.2.0" (mkSpec "@scope/pkg" "^1.2.0")
           eq_refl).
Defined.

(** X5. Printing a parsed spec as [name@range], the way the report and the
    [direct] strategy print a resolved package, and parsing it again gives
    the same name and range. *)
Theorem parsePackageSpec_reads_back :
  forall spec parsed,
    parsePackageSpec spec = Returns parsed ->
    parsePackageSpec (spec_name parsed +:+ "@" +:+ spec_range parsed) = Returns parsed.
Proof.
  intros spec parsed Hparse.
  assert (forall b, JsString.contains "@" b = false ->
            JsString.contains "@" (JsString.orElse b "latest") = false) as Hrange.
  { intros b Hb. unfold JsString.orElse. by destruct b. }
  assert (forall b, JsString.orElse (JsString.orElse b "latest") "latest"
                    = JsString.orElse b "latest") as Hagain.
  { intros b. unfold JsString.orElse. by destruct b. }
  destruct (parsePackageSpec_shapes _ _ Hparse)
    as [(a & -> & Ha & ->) | [(a & b & -> & Ha & ->) | [(a & b & -> & Hne & Hhead & Hb & ->)
       | (Hne & Hhead & Hfree & ->)]]]; simpl spec_name; simpl spec_range.
  - change (String "@" a +:+ "@" +:+ "latest") with (String "@" (a +:+ String "@" "latest")).
    by rewrite (parse_scoped_split _ _ Ha).
  - change (String "@" a +:+ "@" +:+ JsString.orElse b "latest")
      with (String "@" (a +:+ String "@" (JsString.orElse b "latest"))).
    by rewrite (parse_scoped_split _ _ Ha), Hagain.
  - change (a +:+ "@" +:+ JsString.orElse b "latest")
      with (a +:+ String "@" (JsString.orElse b "latest")).
    by rewrite (parse_unscoped_split _ _ Hne Hhead (Hrange _ Hb)), Hagain.
  - change (spec +:+ "@" +:+ "latest") with (spec +:+ String "@" "latest").
    by rewrite (parse_unscoped_split spec "latest" Hne Hhead eq_refl).
Qed.

Lemma parsePackageSpec_reads_back_witness :
  parsePackageSpec "beta@latest" = Returns (mkSpec "beta" "latest")
  /\ parsePackageSpec "@scope/pkg@1.0@beta" = Returns (mkSpec "@scope/pkg" "1.0@beta").
Proof.
  split.
  - exact (parsePackageSpec_reads_back "beta@" (mkSpec "beta" "latest") eq_refl).
  - exact (parsePackageSpec_reads_back "@scope/pkg@1.0@beta"
             (mkSpec "@scope/pkg" "1.0@beta") eq_refl).
Defined.

(** ** The fixtures of the tests *)

Section Sorting.
Context (cmp : string -> string -> comparison) (L : Lawful cmp).

Local Abbreviation before := (fun a b => cmp a b <> Gt).

Lemma before_trans a b c : before a b -> before b c -> before a c.
Proof.
  intros Hab Hbc Hac.
  apply (cmp_ge_trans cmp L c b a).
  - intros E. apply Hbc. by apply (cmp_lt_gt cmp L).
  - intros E. apply Hab. by apply (cmp_lt_gt cmp L).
  - by apply (cmp_gt_lt cmp L).
Qed.

Lemma insertBy_In x sorted y :
  In y (Fixtures.insertBy cmp x sorted) <-> y = x \/ In y sorted.
Proof.
  induction sorted as [|z sorted IH]; simpl; [intuition|].
  destruct (cmp x z); simpl; rewrite ?IH; intuition.
Qed.

Lemma insertBy_sorted x sorted :
  StronglySorted before sorted -> StronglySorted before (Fixtures.insertBy cmp x sorted).
Proof.
  induction sorted as [|z sorted IH]; simpl; intros Hsorted.
  - repeat constructor.
  - apply StronglySorted_inv in Hsorted as [Hrest Hz].
    destruct (cmp x z) eqn:E.
    + constructor; [by constructor|]. constructor; [congruence|].
      eapply List.Forall_impl; [|exact Hz]. intros a Ha. simpl.
      apply (before_trans x z a); [congruence | done].
    + constructor; [by constructor|]. constructor; [congruence|].
      eapply List.Forall_impl; [|exact Hz]. intros a Ha. simpl.
      apply (before_trans x z a); [congruence | done].
    + constructor; [by apply IH|].
      apply List.Forall_forall. intros a Ha. apply insertBy_In in Ha as [-> | Ha].
      * by rewrite (cmp_gt_lt cmp L _ _ E).
      * rewrite List.Forall_forall in Hz. by apply Hz.
Qed.

Lemma sortBy_In items y : In y (Fixtures.sortBy cmp items) <-> In y items.
Proof.
  unfold Fixtures.sortBy. induction items as [|x items IH]; simpl; [done|].
  rewrite insertBy_In, IH. intuition.
Qed.

Lemma sortBy_sorted items : StronglySorted before (Fixtures.sortBy cmp items).
Proof.
  unfold Fixtures.sortBy. induction items as [|x items IH]; simpl; [constructor|].
  by apply insertBy_sorted.
Qed.

(** The first item of the sorted array is an item, and comes before all. *)
Lemma sortBy_head items first :
  head (Fixtures.sortBy cmp items) = Some first ->
  In first items /\ forall y, In y items -> cmp first y <> Gt.
Proof.
  intros Hhead. pose proof (sortBy_sorted items) as Hsorted.
  destruct (Fixtures.sortBy cmp items) as [|h rest] eqn:E; [done|].
  injection Hhead as ->.
  assert (forall y, In y (first :: rest) <-> In y items) as Hin.
  { intros y. rewrite <- E. apply sortBy_In. }
  split; [apply Hin; by left|].
  intros y Hy. apply Hin in Hy as [<- | Hy].
  - by rewrite (cmp_refl cmp L).
  - apply StronglySorted_inv in Hsorted as [_ Hall].
    rewrite List.Forall_forall in Hall. by apply Hall.
Qed.

End Sorting.

Lemma rcompare_lawful : Lawful Semver.rcompare.
Proof.
  pose proof compareVersions_lawful as L. unfold Semver.rcompare. split.
  - intros x. apply (cmp_refl _ L).
  - intros x y. apply (cmp_flip _ L).
  - intros x y z E. apply (cmp_eq_r _ L). by apply (cmp_eq_sym _ L).
  - intros x y z Hxy Hyz. by apply (cmp_lt_trans _ L z y x).
Qed.


Lemma exact_parses version :
  Semver.exact version = true -> exists parsed, Semver.parse version = Some parsed.
Proof. unfold Semver.exact. destruct (Semver.parse version); [by eexists | done]. Qed.

(** X6. From version strings that the semver package accepts and compares
    exactly ([Semver.exact]; on a string it does not accept,
    [semver.rcompare] throws), [createPackage] builds metadata that lists
    the given versions and whose [latest] tag names one of them that no
    other is above in semver precedence; with no version at all the tag is
    [0.0.0]. *)
Theorem createPackage_latest_is_highest :
  forall now pkg versionDates,
    Forall (fun entry => Semver.exact (fst entry) = true) versionDates ->
    let md := Fixtures.createPackage now pkg versionDates in
    Registry.versions md = map fst versionDates
    /\ (versionDates = [] -> Registry.distTags md !! "latest" = Some "0.0.0")
    /\ (versionDates <> [] ->
        exists tagged parsed,
          Registry.distTags md !! "latest" = Some tagged
          /\ In tagged (Registry.versions md)
          /\ Semver.parse tagged = Some parsed
          /\ forall version,
               In version (Registry.versions md) ->
               exists other,
                 Semver.parse version = Some other /\ Semver.compare parsed other <> Lt).
Proof.
  intros now pkg versionDates Hexact md. split; [done|]. split.
  - intros ->. done.
  - intros Hne.
    assert (forall version, In version (map fst versionDates) ->
              exists parsed, Semver.parse version = Some parsed) as Hparses.
    { intros version Hin. apply in_map_iff in Hin as (entry & <- & Hentry).
      rewrite List.Forall_forall in Hexact. by apply exact_parses, Hexact. }
    unfold md, Fixtures.createPackage. simpl.
    destruct (head (Fixtures.sortBy Semver.rcompare (map fst versionDates)))
      as [first|] eqn:Hhead.
    + destruct (sortBy_head _ rcompare_lawful _ _ Hhead) as [Hin Hmax].
      destruct (Hparses first Hin) as [parsed Hparsed].
      exists first, parsed. split; [by rewrite lookup_insert_eq|].
      split; [done|]. split; [done|].
      intros version Hversion. destruct (Hparses version Hversion) as [other Hother].
      exists other. split; [done|]. intros Hlt. apply (Hmax version Hversion).
      unfold Semver.rcompare. apply (cmp_lt_gt _ compareVersions_lawful).
      unfold Semver.compareVersions. by rewrite Hparsed, Hother.
    + exfalso. destruct versionDates as [|entry rest]; [done|].
      assert (In (fst entry) (Fixtures.sortBy Semver.rcompare (map fst (entry :: rest))))
        as Hin by (apply sortBy_In; by left).
      destruct (Fixtures.sortBy _ _); [destruct Hin | done].
Qed.

Lemma createPackage_latest_is_highest_witness :
  Registry.distTags Fixtures.beta !! "latest" = Some "2.2.0"
  /\ exists tagged parsed,
       Registry.distTags Fixtures.beta !! "latest" = Some tagged
       /\ In tagged (Registry.versions Fixtures.beta)
       /\ Semver.parse tagged = Some parsed
       /\ forall version,
            In version (Registry.versions Fixtures.beta) ->
            exists other,
              Semver.parse version = Some other /\ Semver.compare parsed other <> Lt.
Proof.
  split; [reflexivity|].
  apply (proj2 (proj2 (createPackage_latest_is_highest Fixtures.written "beta"
           [("2.0.0", Fixtures.isoDaysAgo Fixtures.written 200);
            ("2.1.0", Fixtures.isoDaysAgo Fixtures.written 95);
            ("2.2.0", Fixtures.isoDaysAgo Fixtures.written 5)]
           ltac:(repeat constructor; vm_compute; reflexivity)))).
  discriminate.
Defined.


(** ** The name the program is invoked under *)

Lemma prefix_append needle : forall s,
  String.prefix needle s = true <-> exists rest, s = needle +:+ rest.
Proof.
  induction needle as [|c needle IH]; intros s.
  - split; [intros _; by exists s | by destruct s].
  - destruct s as [|d s]; [split; [done | by intros [rest Hrest]]|].
    change (String.prefix (String c needle) (String d s))
      with (if ascii_dec c d then String.prefix needle s else false).
    destruct (ascii_dec c d) as [-> | Hne].
    + rewrite IH. split; intros [rest Hrest]; exists rest.
      * simpl. by rewrite Hrest.
      * simpl in Hrest. by injection Hrest.
    + split; [done | intros [rest Hrest]; simpl in Hrest; by injection Hrest].
Qed.

Lemma includes_spec needle : forall s,
  includes needle s = true <-> exists before after, s = before +:+ needle +:+ after.
Proof.
  induction s as [|c s IH].
  - change (includes needle EmptyString) with (String.prefix needle EmptyString || false).
    rewrite orb_true_iff, prefix_append. split.
    + intros [[rest Hrest] | Hfalse]; [by exists EmptyString, rest | done].
    + intros [before [after Hs]]. left. destruct before; [by exists after | done].
  - change (includes needle (String c s))
      with (String.prefix needle (String c s) || includes needle s).
    rewrite orb_true_iff, prefix_append, IH. split.
    + intros [[rest Hrest] | [before [after Hs]]].
      * by exists EmptyString, rest.
      * exists (String c before), after. simpl. by rewrite Hs.
    + intros [before [after Hs]]. destruct before as [|d before].
      * left. by exists after.
      * right. exists before, after. simpl in Hs. by injection Hs.
Qed.

(** X8. [detectCliDefaults] chooses pnpm exactly when the name the program
    was invoked under contains [safe-pnpm], and npm for every other name; the
    name of the command is [safe-] followed by the package manager. *)
Theorem detectCliDefaults_by_name :
  forall invoked,
    (defaultPackageManager (detectCliDefaults invoked) = Pnpm
     <-> exists before after, invoked = before +:+ "safe-pnpm" +:+ after)
    /\ (defaultPackageManager (detectCliDefaults invoked) = Npm
        <-> ~ exists before after, invoked = before +:+ "safe-pnpm" +:+ after)
    /\ cliName (detectCliDefaults invoked)
       = "safe-" +:+ packageManagerName (defaultPackageManager (detectCliDefaults invoked)).
Proof.
  intros invoked. rewrite <- includes_spec. unfold detectCliDefaults.
  destruct (includes "safe-pnpm" invoked); [by intuition|].
  destruct (includes "safe-npm" invoked); by intuition.
Qed.

(** ** Writing the overrides again *)

Section Rewriting.

Lemma object_set_same (o : JsObject.t) key value :
  JsObject.get o key = Some value -> JsObject.set o key value = o.
Proof.
  induction o as [|[k v] o IH]; simpl; [done|].
  destruct (String.eqb_spec k key) as [-> | Hne].
  - by intros [= ->].
  - intros Hget. by rewrite IH.
Qed.

Lemma object_set_fresh (o : JsObject.t) key value :
  ~ In key (map fst o) -> JsObject.set o key value = o ++ [(key, value)].
Proof.
  induction o as [|[k v] o IH]; simpl; [done|]. intros Hfresh.
  destruct (String.eqb_spec k key) as [-> | Hne]; [tauto|].
  rewrite IH; [done | tauto].
Qed.

Lemma object_get_In (o : JsObject.t) key value :
  List.NoDup (map fst o) -> In (key, value) o -> JsObject.get o key = Some value.
Proof.
  induction o as [|[k v] o IH]; simpl; [done|].
  intros Hnodup [[= -> ->] | Hin].
  - by rewrite String.eqb_refl.
  - apply List.NoDup_cons_iff in Hnodup as [Hfresh Hnodup].
    destruct (String.eqb_spec k key) as [-> | Hne].
    + exfalso. apply Hfresh. by apply (in_map fst) in Hin.
    + by apply IH.
Qed.

(** Copying onto an object the properties it already has changes nothing. *)
Lemma assign_same (source : list (string * Json)) : forall (target : JsObject.t),
  (forall key value, In (key, value) source -> JsObject.get target key = Some value) ->
  JsObject.assign target source = target.
Proof.
  unfold JsObject.assign.
  induction source as [|[k v] source IH]; intros target Hsame; simpl; [done|].
  rewrite object_set_same by (apply Hsame; by left).
  apply IH. intros key value Hin. apply Hsame. by right.
Qed.

(** Copying properties with distinct, fresh names appends them in order. *)
Lemma assign_fresh (source : list (string * Json)) : forall (target : JsObject.t),
  List.NoDup (map fst (target ++ source)) ->
  JsObject.assign target source = target ++ source.
Proof.
  unfold JsObject.assign.
  induction source as [|[k v] source IH]; intros target Hnodup; simpl.
  - by rewrite app_nil_r.
  - assert (target ++ (k, v) :: source = (target ++ [(k, v)]) ++ source) as Hsplit
      by (by rewrite <- app_assoc).
    rewrite Hsplit in Hnodup |- *.
    rewrite object_set_fresh.
    + by apply IH.
    + rewrite !map_app in Hnodup. apply List.NoDup_app_remove_r in Hnodup.
      apply List.NoDup_remove_2 in Hnodup. by rewrite app_nil_r in Hnodup.
Qed.

Lemma spread_one (fields : list (string * Json)) :
  List.NoDup (map fst fields) -> JsObject.assign [] fields = fields.
Proof. intros Hnodup. by rewrite assign_fresh. Qed.

Lemma object_set_NoDup (o : JsObject.t) key value :
  List.NoDup (map fst o) -> List.NoDup (map fst (JsObject.set o key value)).
Proof. apply (assign_NoDup [(key, value)]). Qed.

Lemma spread2_NoDup (a b : list (string * Json)) :
  List.NoDup (map fst (JsObject.spread2 a b)).
Proof. unfold JsObject.spread2. apply assign_NoDup, assign_NoDup. constructor. Qed.

(** Spreading the same properties a second time over the result of a spread
    gives the same object. *)
Lemma spread2_again (a b : list (string * Json)) :
  List.NoDup (map fst b) ->
  JsObject.spread2 (JsObject.spread2 a b) b = JsObject.spread2 a b.
Proof.
  intros Hb. unfold JsObject.spread2 at 1.
  rewrite spread_one by apply spread2_NoDup.
  apply assign_same. intros key value Hin. unfold JsObject.spread2.
  rewrite get_assign by done. by rewrite (object_get_In b key value).
Qed.

Lemma spread2_nil (b : list (string * Json)) :
  List.NoDup (map fst b) -> JsObject.spread2 [] b = b.
Proof. intros Hb. unfold JsObject.spread2. simpl. by apply spread_one. Qed.

(** The package.json the strategy wrote for pnpm, read again. *)
Lemma pnpmOverrides_again deps dev table other (config : JsObject.t)
    (current : list (string * Json)) resolvedVersions :
  List.NoDup (map fst config) ->
  let merged := JsObject.spread2 current (JsObject.fromEntries resolvedVersions) in
  let written :=
    mkPackageJson deps dev table
      (Some (JObject (JsObject.set config "overrides" (JObject merged)))) other in
  pnpmOverrides written resolvedVersions = written.
Proof.
  intros Hnodup merged written. unfold pnpmOverrides, written. simpl.
  rewrite get_set. simpl.
  rewrite spread_one by (by apply object_set_NoDup).
  assert (JsObject.spread2 merged (JsObject.fromEntries resolvedVersions) = merged) as ->
    by apply spread2_again, fromEntries_NoDup.
  rewrite object_set_same; [done|]. rewrite get_set. by rewrite String.eqb_refl.
Qed.

End Rewriting.

(** X9. Applying the [overrides] strategy a second time with the same
    resolved versions writes the package.json of the first time, for npm and
    for pnpm, whatever the file held before. *)
Theorem overrides_strategy_idempotent :
  forall pkg resolvedVersions,
    npmOverrides (npmOverrides pkg resolvedVersions) resolvedVersions
    = npmOverrides pkg resolvedVersions
    /\ pnpmOverrides (pnpmOverrides pkg resolvedVersions) resolvedVersions
       = pnpmOverrides pkg resolvedVersions.
Proof.
  intros pkg resolvedVersions. split.
  - unfold npmOverrides. simpl. do 2 f_equal. f_equal.
    apply spread2_again, fromEntries_NoDup.
  - unfold pnpmOverrides at 2 3. apply pnpmOverrides_again.
    apply assign_NoDup. constructor.
Qed.

(** X10. Where package.json holds no table of overrides, the strategy
    writes exactly the resolved versions: for npm when [overrides] is absent
    or [null]; for pnpm when the [pnpm] field is no object with named fields
    (it is replaced by an object with the single field [overrides]) and when
    [pnpm.overrides] is no such object. *)
Theorem overrides_strategy_starts_a_table :
  forall pkg resolvedVersions,
    let table := JObject (JsObject.fromEntries resolvedVersions) in
    (overrides pkg = None \/ overrides pkg = Some JNull ->
     overrides (npmOverrides pkg resolvedVersions) = Some table)
    /\ (isRecord (pnpm pkg) = false ->
        pnpm (pnpmOverrides pkg resolvedVersions) = Some (JObject [("overrides", table)]))
    /\ (forall config,
          pnpm pkg = Some (JObject config) -> List.NoDup (map fst config) ->
          isRecord (JsObject.get config "overrides") = false ->
          pnpm (pnpmOverrides pkg resolvedVersions)
          = Some (JObject (JsObject.set config "overrides" table))).
Proof.
  intros pkg resolvedVersions table.
  pose proof (spread2_nil _ (fromEntries_NoDup resolvedVersions)) as Hnil.
  split; [|split].
  - intros [Hnone | Hnull]; unfold npmOverrides; simpl;
      [rewrite Hnone | rewrite Hnull]; simpl; by rewrite Hnil.
  - intros Hrecord. unfold pnpmOverrides. rewrite Hrecord. simpl. by rewrite Hnil.
  - intros config Hpnpm Hnodup Hrecord. unfold pnpmOverrides. rewrite Hpnpm. simpl.
    rewrite Hrecord, spread_one by done. simpl. by rewrite Hnil.
Qed.

Lemma overrides_strategy_starts_a_table_witness :
  let pkg := mkPackageJson None None (Some JNull) (Some (JString "hoisted")) [] in
  let resolvedVersions := JsMap.set JsMap.empty "alpha" "1.1.0" in
  overrides (npmOverrides pkg resolvedVersions)
  = Some (JObject [("alpha", JString "1.1.0")])
  /\ pnpm (pnpmOverrides pkg resolvedVersions)
     = Some (JObject [("overrides", JObject [("alpha", JString "1.1.0")])]).
Proof.
  intros pkg resolvedVersions.
  pose proof (overrides_strategy_starts_a_table pkg resolvedVersions) as [Hnpm [Hpnpm _]].
  split; [apply Hnpm; by right | apply Hpnpm; reflexivity].
Defined.

(** ** The run of the install action, phase by phase *)

Lemma logError_run text w : logError text w = (Next tt, withError w text).
Proof. reflexivity. Qed.

Lemma normalizePackageManager_run value w :
  normalizePackageManager value w
  = match managerOf value with
    | Some manager => (Next manager, w)
    | None =>
        (Exit 1, withError w ("Unsupported package manager: " +:+ default "undefined" value))
    end.
Proof.
  unfold normalizePackageManager, managerOf.
  destruct (String.eqb _ "npm"); [done|]. by destruct (String.eqb _ "pnpm").
Qed.

Lemma collectDependencies_run packages devOnly prodOnlyFlag w :
  collectDependencies packages devOnly prodOnlyFlag w
  = if (0 <? length packages)%nat then
      match collectFromArgs packages with
      | Returns m => (Next m, w)
      | Throws e => (Rejected e, w)
      end
    else
      match packageJsonFile w with
      | Some (Returns pkg) => (Next (collectFromPackageJson pkg devOnly prodOnlyFlag), w)
      | Some (Throws e) => (Rejected e, w)
      | None => (Exit 1, withError w "No package.json found in the current directory.")
      end.
Proof.
  unfold collectDependencies. destruct (0 <? length packages)%nat.
  - by destruct (collectFromArgs packages).
  - rewrite bind_run. unfold readPackageJson. by destruct (packageJsonFile w) as [[pkg|e]|].
Qed.

(** What [reportOutcome] hands over: it ends the run under [--strict] with a
    failure, with nothing to install, and under [--dry-run]. *)
Lemma reportOutcome_flow options ignoreSet result w :
  (reportOutcome options ignoreSet result w).1
  = if (0 <? length (failures result))%nat && strict options then Exit 1
    else if (JsMap.size (resolved result) =? 0)%nat then Exit 0
    else if dryRun options then Exit 0
    else Next tt.
Proof.
  unfold reportOutcome.
  destruct (0 <? length (failures result))%nat eqn:Hfailed;
    destruct (strict options) eqn:Hstrict;
    destruct (JsMap.size (resolved result) =? 0)%nat eqn:Hnone;
    destruct (dryRun options) eqn:Hdry;
    unfold when; simpl;
    repeat (rewrite ?bind_run, ?log_run, ?forEach_log; simpl);
    reflexivity.
Qed.

Lemma reportOutcome_run options ignoreSet result w :
  reportOutcome options ignoreSet result w
  = (if (0 <? length (failures result))%nat && strict options then Exit 1
     else if (JsMap.size (resolved result) =? 0)%nat then Exit 0
     else if dryRun options then Exit 0
     else Next tt,
     withLines w (reportLines options ignoreSet result)).
Proof.
  pose proof (reportOutcome_flow options ignoreSet result w) as Hflow.
  pose proof (reportOutcome_lines options ignoreSet result w) as Hlines.
  destruct (reportOutcome options ignoreSet result w) as [flow w']. simpl in *.
  by rewrite Hflow, Hlines.
Qed.

Section Phases.

Variable now : Z.
Variable defaultManager : PackageManager.
Variable oracle : ResolutionRequest -> Completion (option string).
Variable status : string -> list string -> option Z.
Variable packages : list string.
Variable options : Options.

Local Abbreviation ignoreSet := (buildIgnoreSet (ignore options)).
Local Abbreviation action := (installAction now defaultManager oracle status packages options).
Local Abbreviation resultOf days dependencyMap :=
  (resolveAll oracle (registryOf options) (JsDate.DateAt (cutoffOf now days)) ignoreSet
     dependencyMap).
Local Abbreviation tail manager result :=
  (reportOutcome options ignoreSet result ≫= fun _ : unit =>
     runStrategy status (strategyOf options) (resolved result) (registryOf options) manager).

(** The run up to the dependency map. *)
Lemma installAction_begins days manager w :
  minAgeDays options = Num days -> 0 <= days ->
  chosenManager defaultManager options = Some manager ->
  dev options && prodOnly options = false ->
  action w
  = match collectDependencies packages (dev options) (prodOnly options) w with
    | (Next dependencyMap, w') =>
        if (JsMap.size dependencyMap =? 0)%nat then
          (Exit 0, withLines w' ["No dependencies to process."])
        else
          match JsDate.newDate (cutoffOf now days) with
          | JsDate.DateAt t =>
              tail manager (resultOf days dependencyMap)
                (resolvedWorld w' days now (resultOf days dependencyMap))
          | JsDate.InvalidDate => (Rejected (ErrorInstance "Invalid time value"), w')
          end
    | (Exit code, w') => (Exit code, w')
    | (Rejected e, w') => (Rejected e, w')
    end.
Proof.
  intros Hdays Hnonneg Hmanager Hflags. unfold installAction.
  rewrite Hdays. apply Z.ltb_ge in Hnonneg. rewrite Hnonneg.
  rewrite bind_run. simpl.
  rewrite bind_run, normalizePackageManager_run.
  unfold chosenManager in Hmanager. rewrite Hmanager.
  rewrite Hflags. unfold when at 1. rewrite bind_run. simpl.
  rewrite bind_run.
  destruct (collectDependencies packages (dev options) (prodOnly options) w)
    as [[dependencyMap|code|e] w']; [|done|done].
  destruct (JsMap.size dependencyMap =? 0)%nat eqn:Hsize.
  - reflexivity.
  - unfold when. rewrite bind_run. simpl.
    fold (cutoffOf now days).
    destruct (JsDate.newDate (cutoffOf now days)) as [t|] eqn:Hdate; [|done].
    pose proof (newDate_valid _ _ Hdate) as ->.
    rewrite bind_run. simpl. rewrite bind_run. simpl. rewrite bind_run.
    reflexivity.
Qed.


Lemma installAction_bad_age w :
  (minAgeDays options = NaN \/ exists days, minAgeDays options = Num days /\ days < 0) ->
  action w = (Exit 1, withError w "--min-age-days must be a non-negative number").
Proof.
  intros [Hnan | (days & Hdays & Hneg)]; unfold installAction.
  - by rewrite Hnan.
  - apply Z.ltb_lt in Hneg. by rewrite Hdays, Hneg.
Qed.

Lemma installAction_bad_manager days w :
  minAgeDays options = Num days -> 0 <= days ->
  chosenManager defaultManager options = None ->
  action w
  = (Exit 1,
     withError w ("Unsupported package manager: "
                  +:+ default (packageManagerName defaultManager) (packageManager options))).
Proof.
  intros Hdays Hnonneg Hmanager. unfold installAction.
  apply Z.ltb_ge in Hnonneg. rewrite Hdays, Hnonneg.
  rewrite bind_run. simpl. rewrite bind_run, normalizePackageManager_run.
  unfold chosenManager in Hmanager. by rewrite Hmanager.
Qed.

Lemma installAction_bad_flags days manager w :
  minAgeDays options = Num days -> 0 <= days ->
  chosenManager defaultManager options = Some manager ->
  dev options && prodOnly options = true ->
  action w = (Exit 1, withError w "--dev and --prod-only cannot be used together.").
Proof.
  intros Hdays Hnonneg Hmanager Hflags. unfold installAction.
  apply Z.ltb_ge in Hnonneg. rewrite Hdays, Hnonneg.
  rewrite bind_run. simpl. rewrite bind_run, normalizePackageManager_run.
  unfold chosenManager in Hmanager. by rewrite Hmanager, Hflags.
Qed.

Lemma collectFromArgs_Throws e :
  collectFromArgs packages = Throws e ->
  e = ErrorInstance "Empty package spec provided" /\ In EmptyString packages.
Proof.
  intros Hthrows. destruct (collectFromArgsInto_spec packages JsMap.empty) as [Hin Hout].
  unfold collectFromArgs in Hthrows.
  destruct (in_dec string_dec EmptyString packages) as [Hyes | Hno].
  - rewrite (Hin Hyes) in Hthrows. by injection Hthrows as <-.
  - rewrite (Hout Hno) in Hthrows. discriminate Hthrows.
Qed.

(** The four ways a run goes: it is refused with a line on standard error,
    it finds nothing to process, it rejects before the loop, or it reaches
    the loop and the report. *)
Lemma installAction_cases w :
  (exists text, action w = (Exit 1, withError w text))
  \/ action w = (Exit 0, withLines w ["No dependencies to process."])
  \/ (exists e,
        action w = (Rejected e, w)
        /\ ((e = ErrorInstance "Empty package spec provided" /\ In EmptyString packages)
            \/ (e = ErrorInstance "Invalid time value"
                /\ exists days, minAgeDays options = Num days
                     /\ JsDate.newDate (cutoffOf now days) = JsDate.InvalidDate)
            \/ (packages = [] /\ packageJsonFile w = Some (Throws e))))
  \/ (exists days manager dependencyMap,
        minAgeDays options = Num days /\ 0 <= days
        /\ chosenManager defaultManager options = Some manager
        /\ collectDependencies packages (dev options) (prodOnly options) w
           = (Next dependencyMap, w)
        /\ JsMap.size dependencyMap <> 0%nat
        /\ action w
           = tail manager (resultOf days dependencyMap)
               (resolvedWorld w days now (resultOf days dependencyMap))).
Proof.
  destruct (minAgeDays options) as [|days] eqn:Hdays.
  { left. eexists. apply installAction_bad_age. by left. }
  destruct (Z.lt_ge_cases days 0) as [Hneg | Hnonneg].
  { left. eexists. apply installAction_bad_age. right. by exists days. }
  destruct (chosenManager defaultManager options) as [manager|] eqn:Hmanager.
  2:{ left. eexists. by apply (installAction_bad_manager days). }
  destruct (dev options && prodOnly options) eqn:Hflags.
  { left. eexists. by apply (installAction_bad_flags days manager). }
  rewrite (installAction_begins days manager w Hdays Hnonneg Hmanager Hflags).
  rewrite collectDependencies_run.
  destruct (0 <? length packages)%nat eqn:Hspecs.
  - destruct (collectFromArgs packages) as [dependencyMap|e] eqn:Hargs.
    + destruct (JsMap.size dependencyMap =? 0)%nat eqn:Hsize; [by right; left|].
      apply Nat.eqb_neq in Hsize.
      destruct (JsDate.newDate (cutoffOf now days)) eqn:Hdate.
      * right. right. right. by exists days, manager, dependencyMap.
      * right. right. left. eexists. split; [done|]. right. left. split; [done|].
        by exists days.
    + apply collectFromArgs_Throws in Hargs as [-> Hin].
      right. right. left. eexists. split; [done | by left].
  - destruct (packageJsonFile w) as [[pkg|e]|] eqn:Hfile; [| |left; by eexists].
    + destruct (JsMap.size _ =? 0)%nat eqn:Hsize; [by right; left|].
      apply Nat.eqb_neq in Hsize.
      destruct (JsDate.newDate (cutoffOf now days)) eqn:Hdate.
      * right. right. right. by eexists days, manager, _.
      * right. right. left. eexists. split; [done|]. right. left. split; [done|].
        by exists days.
    + right. right. left. exists e. split; [done|]. right. right. split; [|done].
      by destruct packages.
Qed.

(** The report and the strategy, after the loop. *)
Lemma tail_run manager result w :
  tail manager result w
  = if (0 <? length (failures result))%nat && strict options then
      (Exit 1, withLines w (reportLines options ignoreSet result))
    else if (JsMap.size (resolved result) =? 0)%nat then
      (Exit 0, withLines w (reportLines options ignoreSet result))
    else if dryRun options then
      (Exit 0, withLines w (reportLines options ignoreSet result))
    else
      runStrategy status (strategyOf options) (resolved result) (registryOf options) manager
        (withLines w (reportLines options ignoreSet result)).
Proof.
  rewrite bind_run, reportOutcome_run.
  destruct ((0 <? length (failures result))%nat && strict options); [done|].
  destruct (JsMap.size (resolved result) =? 0)%nat; [done|].
  by destruct (dryRun options).
Qed.

End Phases.

(** ** The strategies *)

Lemma string_append_assoc (a b c : string) : (a +:+ b) +:+ c = a +:+ (b +:+ c).
Proof.
  induction a as [|x a IH]; [done|].
  change (String x ((a +:+ b) +:+ c) = String x (a +:+ (b +:+ c))). by rewrite IH.
Qed.

Lemma joinWith_prefix sep (parts : list string) : forall prefix first,
  fold_left (fun acc part => acc +:+ sep +:+ part) parts (prefix +:+ first)
  = prefix +:+ fold_left (fun acc part => acc +:+ sep +:+ part) parts first.
Proof.
  induction parts as [|part parts IH]; intros prefix first; simpl; [done|].
  by rewrite <- IH, string_append_assoc.
Qed.

(** Joining a command and its arguments. *)
Lemma joinWith_command sep command first rest :
  joinWith sep (command :: first :: rest)
  = (command +:+ sep) +:+ joinWith sep (first :: rest).
Proof.
  unfold joinWith. simpl.
  by rewrite <- joinWith_prefix, <- string_append_assoc.
Qed.

Lemma runStrategy_direct status resolvedVersions registryUrl manager w :
  let command := directCommand manager resolvedVersions registryUrl in
  runStrategy status "direct" resolvedVersions registryUrl manager w
  = (Exit (default 1 (status command.1 command.2)),
     mkWorld
       (console w
        ++ [Stdout (newline +:+ "Running: " +:+ joinWith " " (command.1 :: command.2))])
       (packageJsonFile w) (spawned w ++ [command]) (resolverCalls w)).
Proof.
  unfold runStrategy, directCommand.
  change (String.eqb "direct" "direct") with true. cbv iota.
  destruct manager; simpl fst; simpl snd; unfold packageManagerName;
    rewrite joinWith_command; reflexivity.
Qed.

Lemma runStrategy_overrides status resolvedVersions registryUrl manager w :
  runStrategy status "overrides" resolvedVersions registryUrl manager w
  = match packageJsonFile w with
    | None =>
        (Exit 1,
         withError w
           "Cannot use overrides strategy without a package.json in the current directory.")
    | Some (Throws e) => (Rejected e, w)
    | Some (Returns pkg) =>
        let args := ["install"; "--registry"; registryUrl] in
        (Exit (default 1 (status (packageManagerName manager) args)),
         mkWorld
           (console w
            ++ [Stdout (newline +:+
                        match manager with
                        | Npm => "Updated package.json overrides. Running npm install..."
                        | Pnpm => "Updated package.json pnpm.overrides. Running pnpm install..."
                        end)])
           (Some (Returns (match manager with
                           | Npm => npmOverrides pkg resolvedVersions
                           | Pnpm => pnpmOverrides pkg resolvedVersions
                           end)))
           (spawned w ++ [(packageManagerName manager, args)]) (resolverCalls w))
    end.
Proof.
  unfold runStrategy.
  change (String.eqb "overrides" "direct") with false.
  change (String.eqb "overrides" "overrides") with true. cbv iota.
  rewrite bind_run. unfold readPackageJson.
  destruct (packageJsonFile w) as [[pkg|e]|] eqn:Hfile; [|reflexivity..].
  destruct manager; reflexivity.
Qed.

Lemma runStrategy_unknown status strategyName resolvedVersions registryUrl manager w :
  strategyName <> "direct" -> strategyName <> "overrides" ->
  runStrategy status strategyName resolvedVersions registryUrl manager w
  = (Exit 1, withError w ("Unknown strategy: " +:+ strategyName)).
Proof.
  intros Hdirect Hoverrides. unfold runStrategy.
  apply String.eqb_neq in Hdirect, Hoverrides. by rewrite Hdirect, Hoverrides.
Qed.

(** Whatever the strategy, [runStrategy] ends the process with status 1 and
    nothing done, or with the status of the one child it spawned, or it
    rejects over a package.json it cannot read. *)
Lemma runStrategy_outcome status strategyName resolvedVersions registryUrl manager w :
  let run := runStrategy status strategyName resolvedVersions registryUrl manager w in
  resolverCalls run.2 = resolverCalls w
  /\ ((run.1 = Exit 1 /\ spawned run.2 = spawned w
       /\ packageJsonFile run.2 = packageJsonFile w)
      \/ (exists args,
            run.1 = Exit (default 1 (status (packageManagerName manager) args))
            /\ spawned run.2 = spawned w ++ [(packageManagerName manager, args)])
      \/ (exists e,
            run = (Rejected e, w) /\ packageJsonFile w = Some (Throws e)
            /\ strategyName = "overrides")).
Proof.
  intros run. subst run.
  destruct (String.eqb_spec strategyName "direct") as [-> | Hdirect].
  { rewrite runStrategy_direct. split; [done|]. right. left. by eexists. }
  destruct (String.eqb_spec strategyName "overrides") as [-> | Hoverrides].
  { rewrite runStrategy_overrides. destruct (packageJsonFile w) as [[pkg|e]|] eqn:Hfile.
    - split; [done|]. right. left. by eexists.
    - split; [done|]. right. right. by exists e.
    - split; [done|]. left. by rewrite <- Hfile. }
  rewrite runStrategy_unknown by done. split; [done|]. by left.
Qed.

(** ** What a run of the install action does *)

(** X11. An unusable option ends the run with status 1 and one line on
    standard error, before package.json is read, the resolver asked or
    anything installed: a minimum age that is no number or is negative; else
    a package manager other than npm and pnpm; else [--dev] together with
    [--prod-only]. *)
Theorem unusable_options_end_the_run :
  forall now defaultManager oracle status packages options w,
    let run := installAction now defaultManager oracle status packages options w in
    let usableAge := exists days, minAgeDays options = Num days /\ 0 <= days in
    (~ usableAge ->
     run = (Exit 1, withError w "--min-age-days must be a non-negative number"))
    /\ (usableAge -> chosenManager defaultManager options = None ->
        run = (Exit 1,
               withError w
                 ("Unsupported package manager: "
                  +:+ default (packageManagerName defaultManager) (packageManager options))))
    /\ (usableAge -> chosenManager defaultManager options <> None ->
        dev options = true -> prodOnly options = true ->
        run = (Exit 1, withError w "--dev and --prod-only cannot be used together.")).
Proof.
  intros now defaultManager oracle status packages options w run usableAge. subst run.
  split; [|split].
  - intros Hage. apply installAction_bad_age.
    destruct (minAgeDays options) as [|days]; [by left|]. right. exists days.
    split; [done|]. destruct (Z.lt_ge_cases days 0); [done|].
    destruct Hage. by exists days.
  - intros (days & Hdays & Hnonneg) Hmanager. by apply (installAction_bad_manager _ _ _ _ _ _ days).
  - intros (days & Hdays & Hnonneg) Hmanager Hdev Hprod.
    destruct (chosenManager defaultManager options) as [manager|] eqn:Hchosen; [|done].
    apply (installAction_bad_flags _ _ _ _ _ _ days manager); [done..|].
    by rewrite Hdev, Hprod.
Qed.

Lemma unusable_options_end_the_run_witness :
  let options :=
    mkOptions (Num 90) DEFAULT_REGISTRY (Some "yarn") false false false false None None in
  installAction Fixtures.started Npm (fun _ => Returns None) (fun _ _ => Some 0) ["alpha"]
    options (startWorld None)
  = (Exit 1, withError (startWorld None) "Unsupported package manager: yarn").
Proof.
  intros options.
  apply (proj1 (proj2 (unusable_options_end_the_run Fixtures.started Npm
                         (fun _ => Returns None) (fun _ _ => Some 0) ["alpha"] options
                         (startWorld None)))).
  - exists 90. split; [reflexivity | lia].
  - reflexivity.
Defined.

(** X12. The program always ends with an exit status, whatever the
    options, the files and the registry. It runs at most one child process,
    npm or pnpm: when it runs one, its exit status is the child's (1 when the
    child has none); when it runs none, its exit status is 0 or 1. *)
Theorem program_exit_status :
  forall rendered now invoked oracle status packages options w,
    let run := program rendered now invoked oracle status packages options w in
    exists code,
      run.1 = Exit code
      /\ ((spawned run.2 = spawned w /\ (code = 0 \/ code = 1))
          \/ exists command args,
               spawned run.2 = spawned w ++ [(command, args)]
               /\ (command = "npm" \/ command = "pnpm")
               /\ code = default 1 (status command args)).
Proof.
  intros rendered now invoked oracle status packages options w run. subst run.
  unfold program.
  destruct (installAction_cases now (defaultPackageManager (detectCliDefaults invoked))
              oracle status packages options w)
    as [[text Hrun] | [Hrun | [(message & Hrun & _)
                              | (days & manager & dependencyMap & _ & _ & _ & _ & _ & Hrun)]]];
    rewrite Hrun; clear Hrun.
  - exists 1. split; [done|]. left. split; [done | by right].
  - exists 0. split; [done|]. left. split; [done | by left].
  - exists 1. split; [done|]. left. split; [done | by right].
  - rewrite tail_run.
    destruct (_ && strict options);
      [exists 1; split; [done|]; left; split; [done | by right]|].
    destruct (JsMap.size _ =? 0)%nat;
      [exists 0; split; [done|]; left; split; [done | by left]|].
    destruct (dryRun options);
      [exists 0; split; [done|]; left; split; [done | by left]|].
    match goal with |- context [runStrategy ?s ?n ?r ?u ?m ?w1] =>
      pose proof (runStrategy_outcome s n r u m w1) as [_ Hout];
      destruct (runStrategy s n r u m w1) as [flow w2]
    end.
    simpl in Hout.
    destruct Hout as [(-> & Hspawned & _) | [(args & -> & Hspawned) | (e & [= -> ->] & _)]];
      simpl.
    + exists 1. split; [done|]. left. split; [done | by right].
    + eexists. split; [done|]. right. exists (packageManagerName manager), args.
      split; [done|]. split; [|done]. destruct manager; [by left | by right].
    + exists 1. split; [done|]. left. split; [done | by right].
Qed.

(** X13. Under [--dry-run] the program writes no package.json and runs no
    child process, and it ends with status 0 or 1. *)
Theorem dry_run_changes_nothing :
  forall rendered now invoked oracle status packages options w,
    dryRun options = true ->
    let run := program rendered now invoked oracle status packages options w in
    packageJsonFile run.2 = packageJsonFile w
    /\ spawned run.2 = spawned w
    /\ (run.1 = Exit 0 \/ run.1 = Exit 1).
Proof.
  intros rendered now invoked oracle status packages options w Hdry run. subst run.
  unfold program.
  destruct (installAction_cases now (defaultPackageManager (detectCliDefaults invoked))
              oracle status packages options w)
    as [[text Hrun] | [Hrun | [(message & Hrun & _)
                              | (days & manager & dependencyMap & _ & _ & _ & _ & _ & Hrun)]]];
    rewrite Hrun; clear Hrun.
  - split; [done|]. split; [done | by right].
  - split; [done|]. split; [done | by left].
  - split; [done|]. split; [done | by right].
  - rewrite tail_run, Hdry.
    destruct (_ && strict options); [split; [done|]; split; [done | by right]|].
    destruct (JsMap.size _ =? 0)%nat; split; [done| |done|]; split; [done | by left | done | by left].
Qed.

Lemma dry_run_changes_nothing_witness :
  let run :=
    program "rejected" Fixtures.started "safe-npm"
      (Resolver.resolveSafeVersion (Fixtures.createFixtureFile [Fixtures.alpha; Fixtures.beta]))
      (fun _ _ => Some 0) ["alpha@^1"; "beta@^2"] (dryRunOptions EmptyString false)
      (startWorld None) in
  packageJsonFile run.2 = None /\ spawned run.2 = [] /\ (run.1 = Exit 0 \/ run.1 = Exit 1).
Proof.
  apply (dry_run_changes_nothing "rejected" Fixtures.started "safe-npm"
           (Resolver.resolveSafeVersion
              (Fixtures.createFixtureFile [Fixtures.alpha; Fixtures.beta]))
           (fun _ _ => Some 0) ["alpha@^1"; "beta@^2"] (dryRunOptions EmptyString false)
           (startWorld None)).
  reflexivity.
Defined.

Lemma failure_filed oracle registryUrl cutoffDate ignoreSet entries request :
  In request (map (requestFor registryUrl cutoffDate ignoreSet) entries) ->
  (forall version, oracle request = Returns (Some version) -> version = EmptyString) ->
  (0 <? length (omap (failureFor oracle registryUrl cutoffDate ignoreSet) entries))%nat = true.
Proof.
  intros Hin Hunresolved. apply in_map_iff in Hin as (entry & <- & Hentry).
  assert (is_Some (failureFor oracle registryUrl cutoffDate ignoreSet entry)) as [failure Hfailure].
  { unfold failureFor.
    destruct (oracle (requestFor registryUrl cutoffDate ignoreSet entry))
      as [[version|]|[message|]] eqn:Hanswer; [|by eexists..].
    rewrite (Hunresolved version eq_refl). by eexists. }
  assert (failure ∈ omap (failureFor oracle registryUrl cutoffDate ignoreSet) entries) as Hfiled.
  { apply list_elem_of_omap. exists entry. split; [by apply list_elem_of_In | done]. }
  destruct (omap _ entries); [by apply elem_of_nil in Hfiled | done].
Qed.

(** X14. Under [--strict], a run in which the resolver left one request
    without a version (it threw, or answered [null] or the empty string)
    ends with status 1, and has written no package.json and run no child
    process: nothing is installed unless every dependency resolved. *)
Theorem strict_mode_is_all_or_nothing :
  forall now defaultManager oracle status packages options w asked request,
    strict options = true ->
    let run := installAction now defaultManager oracle status packages options w in
    resolverCalls run.2 = resolverCalls w ++ asked ->
    In request asked ->
    (forall version, oracle request = Returns (Some version) -> version = EmptyString) ->
    run.1 = Exit 1
    /\ packageJsonFile run.2 = packageJsonFile w
    /\ spawned run.2 = spawned w.
Proof.
  intros now defaultManager oracle status packages options w asked request Hstrict run.
  subst run. intros Hcalls Hasked Hunresolved.
  assert (forall w', resolverCalls w' = resolverCalls w ->
            resolverCalls w' = resolverCalls w ++ asked -> False) as Hnone.
  { intros w' Hsame Hmore. rewrite Hsame in Hmore.
    rewrite <- (app_nil_r (resolverCalls w)) in Hmore at 1.
    apply app_inv_head in Hmore. subst asked. destruct Hasked. }
  destruct (installAction_cases now defaultManager oracle status packages options w)
    as [[text Hrun] | [Hrun | [(message & Hrun & _)
                              | (days & manager & dependencyMap & _ & _ & _ & _ & _ & Hrun)]]];
    rewrite Hrun in Hcalls |- *; clear Hrun;
    [done | by destruct (Hnone _ eq_refl Hcalls) | by destruct (Hnone _ eq_refl Hcalls) |].
  rewrite tail_run in Hcalls |- *. rewrite Hstrict, andb_true_r in Hcalls |- *.
  destruct (0 <? length (failures _))%nat eqn:Hfailed; [done|]. exfalso.
  assert (resolverCalls w ++ requests (resolveAll oracle (registryOf options)
            (JsDate.DateAt (cutoffOf now days)) (buildIgnoreSet (ignore options)) dependencyMap)
          = resolverCalls w ++ asked) as Hsame.
  { rewrite <- Hcalls.
    destruct (JsMap.size _ =? 0)%nat; [done|]. destruct (dryRun options); [done|].
    by rewrite silent_runStrategy. }
  apply app_inv_head in Hsame. subst asked.
  destruct (resolveAll_spec oracle (registryOf options) (JsDate.DateAt (cutoffOf now days))
              (buildIgnoreSet (ignore options)) dependencyMap) as (Hrequests & Hfailures & _).
  rewrite Hrequests in Hasked. rewrite Hfailures in Hfailed.
  by rewrite (failure_filed _ _ _ _ _ _ Hasked Hunresolved) in Hfailed.
Qed.

Lemma strict_mode_is_all_or_nothing_witness :
  let run :=
    installAction Fixtures.started Npm
      (Resolver.resolveSafeVersion (Fixtures.createFixtureFile [Fixtures.recent]))
      (fun _ _ => Some 0) ["recent"]
      (mkOptions (Num 90) DEFAULT_REGISTRY None false true false false None None)
      (startWorld None) in
  run.1 = Exit 1 /\ packageJsonFile run.2 = None /\ spawned run.2 = [].
Proof.
  apply (strict_mode_is_all_or_nothing Fixtures.started Npm
           (Resolver.resolveSafeVersion (Fixtures.createFixtureFile [Fixtures.recent]))
           (fun _ _ => Some 0) ["recent"]
           (mkOptions (Num 90) DEFAULT_REGISTRY None false true false false None None)
           (startWorld None)
           [Request.mk "recent" "latest" DEFAULT_REGISTRY
              (JsDate.DateAt (cutoffOf Fixtures.started 90)) false]
           (Request.mk "recent" "latest" DEFAULT_REGISTRY
              (JsDate.DateAt (cutoffOf Fixtures.started 90)) false)).
  - reflexivity.
  - vm_compute. reflexivity.
  - by left.
  - vm_compute. intros version Hanswer. discriminate Hanswer.
Defined.

(** X15. A run with usable options whose resolution leaves something to
    install, outside [--dry-run], with the [direct] strategy, and under
    [--strict] without a failure: the program announces the cutoff, prints
    the report and the command, runs the package manager once, with one
    [name@version] per resolved dependency in the order of the resolved map
    and the registry of the run, and ends with the status of that child. It
    writes no package.json. *)
Theorem direct_strategy_installs_the_resolved_versions :
  forall now defaultManager oracle status packages options w days manager dependencyMap,
    minAgeDays options = Num days -> 0 <= days ->
    chosenManager defaultManager options = Some manager ->
    dev options && prodOnly options = false ->
    collectDependencies packages (dev options) (prodOnly options) w = (Next dependencyMap, w) ->
    JsDate.newDate (cutoffOf now days) = JsDate.DateAt (cutoffOf now days) ->
    strategyOf options = "direct" ->
    dryRun options = false ->
    let ignoreSet := buildIgnoreSet (ignore options) in
    let result :=
      resolveAll oracle (registryOf options) (JsDate.DateAt (cutoffOf now days)) ignoreSet
        dependencyMap in
    JsMap.size (resolved result) <> 0%nat ->
    (strict options = true -> failures result = []) ->
    let command := directCommand manager (resolved result) (registryOf options) in
    let run := installAction now defaultManager oracle status packages options w in
    run.1 = Exit (default 1 (status command.1 command.2))
    /\ spawned run.2 = spawned w ++ [command]
    /\ packageJsonFile run.2 = packageJsonFile w
    /\ resolverCalls run.2 = resolverCalls w ++ requests result
    /\ console run.2
       = console w
         ++ map Stdout
              (usingLine days (JsDate.toISOString (cutoffOf now days))
               :: reportLines options ignoreSet result
               ++ [newline +:+ "Running: " +:+ joinWith " " (command.1 :: command.2)]).
Proof.
  intros now defaultManager oracle status packages options w days manager dependencyMap
    Hdays Hnonneg Hmanager Hflags Hmap Hdate Hstrategy Hdry ignoreSet result Hsome Hstrict
    command run.
  subst run.
  rewrite (installAction_begins now defaultManager oracle status packages options
             days manager w Hdays Hnonneg Hmanager Hflags), Hmap, Hdate.
  assert ((JsMap.size dependencyMap =? 0)%nat = false) as ->.
  { apply Nat.eqb_neq. intros Hempty. apply Hsome.
    destruct dependencyMap; [done | discriminate Hempty]. }
  fold ignoreSet. fold result. rewrite tail_run. fold ignoreSet.
  assert ((0 <? length (failures result))%nat && strict options = false) as ->.
  { destruct (strict options); [|by rewrite andb_false_r].
    by rewrite (Hstrict eq_refl). }
  apply Nat.eqb_neq in Hsome. rewrite Hsome, Hdry, Hstrategy, runStrategy_direct.
  fold command. do 4 (split; [done|]).
  unfold withLines, resolvedWorld. cbn [snd console].
  rewrite map_cons, map_app, <- !app_assoc. reflexivity.
Qed.

Lemma direct_strategy_installs_the_resolved_versions_witness :
  let run :=
    installAction Fixtures.started Pnpm
      (Resolver.resolveSafeVersion (Fixtures.createFixtureFile [Fixtures.alpha; Fixtures.beta]))
      (fun _ _ => Some 3) ["beta@^2"; "alpha@^1"]
      (mkOptions (Num 90) DEFAULT_REGISTRY None false false false false None None)
      (startWorld None) in
  run.1 = Exit 3
  /\ spawned run.2
     = [("pnpm", ["add"; "beta@2.1.0"; "alpha@1.1.0"; "--registry"; DEFAULT_REGISTRY])].
Proof.
  pose proof (direct_strategy_installs_the_resolved_versions Fixtures.started Pnpm
    (Resolver.resolveSafeVersion (Fixtures.createFixtureFile [Fixtures.alpha; Fixtures.beta]))
    (fun _ _ => Some 3) ["beta@^2"; "alpha@^1"]
    (mkOptions (Num 90) DEFAULT_REGISTRY None false false false false None None)
    (startWorld None) 90 Pnpm [("beta", "^2"); ("alpha", "^1")]
    eq_refl ltac:(lia) eq_refl eq_refl eq_refl eq_refl eq_refl eq_refl
    ltac:(vm_compute; discriminate) ltac:(discriminate)) as (Hexit & Hspawned & _).
  split; [exact Hexit | exact Hspawned].
Defined.

(** X16. Without package specs on the command line and with usable
    options, package.json decides: when there is none the run ends with
    status 1 and a line on standard error; when the tables it may read hold
    no dependency (in particular when package.json has neither
    [dependencies] nor [devDependencies]) it ends with status 0 after "No
    dependencies to process."; when the file cannot be read or parsed the
    action rejects with the error thrown. In all these cases the resolver is
    not asked and nothing is installed. *)
Theorem without_specs_package_json_decides :
  forall now defaultManager oracle status options w days manager,
    minAgeDays options = Num days -> 0 <= days ->
    chosenManager defaultManager options = Some manager ->
    dev options && prodOnly options = false ->
    let run := installAction now defaultManager oracle status [] options w in
    (packageJsonFile w = None ->
     run = (Exit 1, withError w "No package.json found in the current directory."))
    /\ (forall pkg,
          packageJsonFile w = Some (Returns pkg) ->
          JsMap.size (collectFromPackageJson pkg (dev options) (prodOnly options)) = 0%nat ->
          run = (Exit 0, withLines w ["No dependencies to process."]))
    /\ (forall pkg,
          packageJsonFile w = Some (Returns pkg) ->
          dependencies pkg = None -> devDependencies pkg = None ->
          run = (Exit 0, withLines w ["No dependencies to process."]))
    /\ (forall e, packageJsonFile w = Some (Throws e) -> run = (Rejected e, w)).
Proof.
  intros now defaultManager oracle status options w days manager
    Hdays Hnonneg Hmanager Hflags run. subst run.
  rewrite (installAction_begins now defaultManager oracle status [] options
             days manager w Hdays Hnonneg Hmanager Hflags), collectDependencies_run.
  simpl length. change (0 <? 0)%nat with false. cbv iota.
  split; [by intros ->|].
  assert (forall pkg,
            packageJsonFile w = Some (Returns pkg) ->
            JsMap.size (collectFromPackageJson pkg (dev options) (prodOnly options)) = 0%nat ->
            match packageJsonFile w with
            | Some (Returns pkg) =>
                (Next (collectFromPackageJson pkg (dev options) (prodOnly options)), w)
            | Some (Throws e) => (Rejected e, w)
            | None =>
                (Exit 1, withError w "No package.json found in the current directory.")
            end
            = (Next (collectFromPackageJson pkg (dev options) (prodOnly options)), w)
            /\ (JsMap.size (collectFromPackageJson pkg (dev options) (prodOnly options)) =? 0)%nat
               = true) as Hempty.
  { intros pkg -> Hsize. split; [done | by apply Nat.eqb_eq]. }
  split; [|split].
  - intros pkg Hfile Hsize. destruct (Hempty pkg Hfile Hsize) as [-> ->]. done.
  - intros pkg Hfile Hdeps Hdev.
    assert (JsMap.size (collectFromPackageJson pkg (dev options) (prodOnly options)) = 0%nat)
      as Hsize.
    { unfold collectFromPackageJson. rewrite Hdeps, Hdev.
      by destruct (dev options), (prodOnly options). }
    destruct (Hempty pkg Hfile Hsize) as [-> ->]. done.
  - by intros e ->.
Qed.

Lemma without_specs_package_json_decides_witness :
  installAction Fixtures.started Npm (fun _ => Returns None) (fun _ _ => Some 0) []
    (mkOptions (Num 90) DEFAULT_REGISTRY None false false false false None None)
    (startWorld None)
  = (Exit 1, withError (startWorld None) "No package.json found in the current directory.").
Proof.
  apply (proj1 (without_specs_package_json_decides Fixtures.started Npm
                  (fun _ => Returns None) (fun _ _ => Some 0)
                  (mkOptions (Num 90) DEFAULT_REGISTRY None false false false false None None)
                  (startWorld None) 90 Npm eq_refl ltac:(lia) eq_refl eq_refl)).
  reflexivity.
Defined.



(** X18. The [direct] strategy prints the command it runs: the line
    "Running: " is followed by the package manager and the arguments of the
    child process, joined by spaces. The arguments are [install] for npm and
    [add] for pnpm, one [name@version] per resolved dependency, and the
    registry. *)
Theorem direct_strategy_prints_what_it_runs :
  forall status resolvedVersions registryUrl manager w,
    let run := runStrategy status "direct" resolvedVersions registryUrl manager w in
    exists verb,
      let args :=
        verb :: map (fun entry => fst entry +:+ "@" +:+ snd entry) (JsMap.entries resolvedVersions)
        ++ ["--registry"; registryUrl] in
      (verb = match manager with Npm => "install" | Pnpm => "add" end)
      /\ spawned run.2 = spawned w ++ [(packageManagerName manager, args)]
      /\ console run.2
         = console w
           ++ [Stdout (newline +:+ "Running: "
                       +:+ joinWith " " (packageManagerName manager :: args))]
      /\ packageJsonFile run.2 = packageJsonFile w.
Proof.
  intros status resolvedVersions registryUrl manager w run. subst run.
  rewrite runStrategy_direct. eexists. split; [reflexivity|]. done.
Qed.



(** ** Failures in the batch *)



(** ** The range [latest] in the tests of the repository *)











